(** * Address reservation and persistence for the CNI host-local and bridge
      plugins: a shallow embedding and its properties

    The development follows the Go sources:
    - [pkg/utils/env_args.go]                      (module [utils])
    - [pkg/utils/log/log.go]                       (module [log])
    - [pkg/database/database.go]                   (module [database])
    - [plugins/ipam/host-local/backend/disk/backend.go]        (module [disk])
    - [plugins/main/bridge/store.go]               (module [bridge])
    - [plugins/ipam/host-local/backend/allocator/allocator_ext.go]
                                                   (module [allocator])

    Go strings are byte strings ([string]); a value of type [error] that may
    be [nil] is an [option error]; a data directory is a finite map from the
    names of its regular files to their contents. *)

From Stdlib Require Import String Ascii List ZArith NArith Bool Lia.
From stdpp Require Import gmap strings list fin_maps sorting.

Open Scope string_scope.
Open Scope list_scope.
Open Scope nat_scope.

(* ===================================================================== *)
(** ** Go values shared by all packages *)
(* ===================================================================== *)

(** The errors the code distinguishes.  [os.IsExist] recognises [ErrExist],
    [database.IsNotFoundErr] recognises [ErrRecordNotFound], [filepath.Glob]
    fails with [ErrBadPattern] only; [Errorf] is [fmt.Errorf] with its format
    and arguments, and [ErrIO] any other failure of the operating system or
    of the database driver. *)
Inductive error : Type :=
| ErrExist
| ErrRecordNotFound
| ErrBadPattern
| ErrIO (code : nat)
| Errorf (format : string) (args : list string).

#[global] Instance error_eq_dec : EqDecision error.
Proof. solve_decision. Defined.

Definition IsExist (e : option error) : bool :=
  match e with Some ErrExist => true | _ => false end.

(* ===================================================================== *)
(** ** Package strings *)
(* ===================================================================== *)

Module strings.

Definition byte_is (n : N) (c : ascii) : bool := (N_of_ascii c =? n)%N.

Definition byte_in (lo hi : N) (c : ascii) : bool :=
  ((lo <=? N_of_ascii c) && (N_of_ascii c <=? hi))%N.

(** The [asciiSpace] table: tab, line feed, vertical tab, form feed,
    carriage return, space. *)
Definition asciiSpace (c : ascii) : bool := byte_in 9 13 c || byte_is 32 c.

(** [unicode.IsSpace] on the runes above U+007F, by their UTF-8 encoding:
    U+0085 and U+00A0 take two bytes, U+1680, U+2000..U+200A, U+2028,
    U+2029, U+202F, U+205F and U+3000 take three. *)
Definition space2 (a b : ascii) : bool :=
  byte_is 0xC2 a && (byte_is 0x85 b || byte_is 0xA0 b).

Definition space3 (a b c : ascii) : bool :=
  (byte_is 0xE1 a && byte_is 0x9A b && byte_is 0x80 c)
  || (byte_is 0xE2 a && byte_is 0x80 b
      && (byte_in 0x80 0x8A c || byte_in 0xA8 0xA9 c || byte_is 0xAF c))
  || (byte_is 0xE2 a && byte_is 0x81 b && byte_is 0x9F c)
  || (byte_is 0xE3 a && byte_is 0x80 b && byte_is 0x80 c).

Section Trim.
Variable p1 : ascii → bool.
Variable p2 : ascii → ascii → bool.
Variable p3 : ascii → ascii → ascii → bool.

(** Does the byte sequence start with a rune recognised by [p1], [p2]
    or [p3]?  The answer is the number of bytes of that rune. *)
Definition rune_width (l : list ascii) : nat :=
  match l with
  | a :: t1 =>
      if p1 a then 1 else
      match t1 with
      | b :: t2 =>
          if p2 a b then 2 else
          match t2 with
          | c :: _ => if p3 a b c then 3 else 0
          | [] => 0
          end
      | [] => 0
      end
  | [] => 0
  end.

(** Drop such runes from the front for as long as there is one. *)
Fixpoint trim_runes (l : list ascii) : list ascii :=
  match l with
  | a :: t1 =>
      if p1 a then trim_runes t1 else
      match t1 with
      | b :: t2 =>
          if p2 a b then trim_runes t2 else
          match t2 with
          | c :: t3 => if p3 a b c then trim_runes t3 else l
          | [] => l
          end
      | [] => l
      end
  | [] => []
  end.
End Trim.

(** [TrimLeftFunc(s, unicode.IsSpace)]: runes are decoded from the front. *)
Definition TrimLeft (l : list ascii) : list ascii :=
  trim_runes asciiSpace space2 space3 l.

(** [TrimRightFunc(s, unicode.IsSpace)]: runes are decoded from the back,
    so the reversed sequence is trimmed with the bytes of each encoding
    taken in reverse order. *)
Definition TrimRight (l : list ascii) : list ascii :=
  rev (trim_runes asciiSpace
                  (λ b a, space2 a b) (λ c b a, space3 a b c) (rev l)).

(** [strings.TrimSpace]: leading white space goes first, then trailing
    white space of what is left. *)
Definition TrimSpace (s : string) : string :=
  string_of_list_ascii (TrimRight (TrimLeft (list_ascii_of_string s))).

(** [strings.Split(s, sep)] for a separator of one byte, which is what
    every call site passes: one more part than there are separators. *)
Fixpoint Split (s : string) (sep : ascii) : list string :=
  match s with
  | EmptyString => [EmptyString]
  | String c s' =>
      if Ascii.eqb c sep then EmptyString :: Split s' sep
      else match Split s' sep with
           | p :: ps => String c p :: ps
           | [] => [String c EmptyString]
           end
  end.

(** [strings.Count(s, sep)] for a separator of one byte. *)
Fixpoint Count (s : string) (sep : ascii) : nat :=
  match s with
  | EmptyString => 0
  | String c s' => (if Ascii.eqb c sep then 1 else 0) + Count s' sep
  end.

(** [strings.ReplaceAll(s, old, new)] for [old] and [new] of one byte. *)
Fixpoint ReplaceAll (s : string) (old new : ascii) : string :=
  match s with
  | EmptyString => EmptyString
  | String c s' =>
      String (if Ascii.eqb c old then new else c) (ReplaceAll s' old new)
  end.

End strings.

(* ===================================================================== *)
(** ** pkg/utils/env_args.go *)
(* ===================================================================== *)

Module utils.

(** The body of the [for _, pair := range pairs] loop with the length
    check that follows it; [ns] and [name] are the two local variables. *)
Fixpoint resolve_pairs (pairs : list string) (ns name : string)
  : string * string * option error :=
  match pairs with
  | kvpair :: rest =>
      match strings.Split kvpair "=" with
      | [k; v] =>
          if String.eqb k "K8S_POD_NAMESPACE" then resolve_pairs rest v name
          else if String.eqb k "K8S_POD_NAME" then resolve_pairs rest ns v
          else resolve_pairs rest ns name
      | _ => (ns, name, Some (Errorf "ARGS: invalid pair %q" [kvpair]))
      end
  | [] =>
      if (230 <? String.length ns + String.length name)%nat
      then ("", "", Some (Errorf
             "ARGS: length of pod ns and name exceed the length limit" []))
      else (ns, name, None)
  end.

Definition ResolvePodNSAndNameFromEnvArgs (envArgs : string)
  : string * string * option error :=
  if String.eqb envArgs "" then ("", "", None)
  else resolve_pairs (strings.Split envArgs ";") "" "".

End utils.

(* ===================================================================== *)
(** ** pkg/utils/log/log.go *)
(* ===================================================================== *)

Module log.

(** The levels of logrus, in the order of their values: [PanicLevel] is
    zero, the value of a [logrus.Level] that was never assigned. *)
Inductive Level : Type :=
| PanicLevel | FatalLevel | ErrorLevel | WarnLevel | InfoLevel
| DebugLevel | TraceLevel.

Definition Level_value (l : Level) : nat :=
  match l with
  | PanicLevel => 0 | FatalLevel => 1 | ErrorLevel => 2 | WarnLevel => 3
  | InfoLevel => 4 | DebugLevel => 5 | TraceLevel => 6
  end.

(** What a logging call hands to the logger: [fmt.Sprintf(format, a...)],
    with the file and line of the caller in front when [runtime.Caller]
    knows them. *)
Record Entry : Type := {
  entry_level : Level;
  entry_caller : option (string * nat);
  entry_format : string;
  entry_args : list string
}.

(** A [*logrus.Logger]: the file it writes to, its level, and the entries
    it has taken. *)
Record Logger : Type := {
  logger_out : string;
  logger_level : Level;
  logger_entries : list Entry
}.

(** The variables of the package: [logFile], [logger], [logLevel]. *)
Record State : Type := {
  logFile : option string;
  logger : option Logger;
  logLevel : Level
}.

(** Before any call: both pointers are [nil], the level is zero. *)
Definition start : State :=
  {| logFile := None; logger := None; logLevel := PanicLevel |}.

Section Log.
(** [path.Join] *)
Variable Join : string → string → string.

(** [mkdir_fault] is the failure of [os.MkdirAll], [open_fault] that of
    [os.OpenFile], if there is one. *)
Definition Init (mkdir_fault open_fault : option error)
  (logFilePath logFileName : string) (level : Level) (s : State)
  : State * option error :=
  match mkdir_fault with
  | Some e => (s, Some e)
  | None =>
      let fileName := Join logFilePath logFileName in
      match open_fault with
      | Some e =>
          (* logFile, err = os.OpenFile(...) *)
          ({| logFile := None; logger := logger s; logLevel := logLevel s |},
           Some e)
      | None =>
          ({| logFile := Some fileName;
              logger := Some {| logger_out := fileName;
                                logger_level := level;
                                logger_entries := [] |};
              logLevel := level |},
           None)
      end
  end.

Definition Close (close_fault : option error) (s : State) : option error :=
  match logFile s with
  | None => None
  | Some _ => close_fault
  end.

(** [logger.Debug], [logger.Info], [logger.Warning], [logger.Error]: the
    logger takes the entry when its own level admits it.  On a [nil]
    logger the call panics: there is no state after it. *)
Definition Log (level : Level) (e : Entry) (l : option Logger)
  : option (option Logger) :=
  match l with
  | None => None
  | Some l =>
      Some (Some
        (if (Level_value level <=? Level_value (logger_level l))%nat
         then {| logger_out := logger_out l;
                 logger_level := logger_level l;
                 logger_entries := logger_entries l ++ [e] |}
         else l))
  end.

(** The body that [Debugf], [Infof], [Warningf] and [Errorf] share, each
    with its own level. *)
Definition logf (level : Level) (caller : option (string * nat))
  (format : string) (a : list string) (s : State) : option State :=
  if (Level_value (logLevel s) <? Level_value level)%nat then Some s
  else
    let fullMsg := {| entry_level := level; entry_caller := caller;
                      entry_format := format; entry_args := a |} in
    match Log level fullMsg (logger s) with
    | None => None
    | Some l => Some {| logFile := logFile s; logger := l;
                        logLevel := logLevel s |}
    end.

Definition Debugf := logf DebugLevel.
Definition Infof := logf InfoLevel.
Definition Warningf := logf WarnLevel.
Definition Errorf := logf ErrorLevel.

(** The calls of a program on the package, and a run of them from a
    state; [None] is a panic. *)
Inductive Call : Type :=
| CallInit (mkdir_fault open_fault : option error)
    (logFilePath logFileName : string) (level : Level)
| CallClose (close_fault : option error)
| CallDebugf (caller : option (string * nat)) (format : string)
    (a : list string)
| CallInfof (caller : option (string * nat)) (format : string)
    (a : list string)
| CallWarningf (caller : option (string * nat)) (format : string)
    (a : list string)
| CallErrorf (caller : option (string * nat)) (format : string)
    (a : list string).

Definition call (c : Call) (s : State) : option State :=
  match c with
  | CallInit mkdir_fault open_fault logFilePath logFileName level =>
      Some (Init mkdir_fault open_fault logFilePath logFileName level s).1
  | CallClose _ => Some s
  | CallDebugf caller format a => Debugf caller format a s
  | CallInfof caller format a => Infof caller format a s
  | CallWarningf caller format a => Warningf caller format a s
  | CallErrorf caller format a => Errorf caller format a s
  end.

Fixpoint run (cs : list Call) (s : State) : option State :=
  match cs with
  | [] => Some s
  | c :: cs =>
      match call c s with
      | None => None
      | Some s' => run cs s'
      end
  end.
End Log.

(** What the logger has taken so far. *)
Definition entries (s : State) : list Entry :=
  match logger s with
  | None => []
  | Some l => logger_entries l
  end.

End log.

(* ===================================================================== *)
(** ** pkg/database/database.go *)
(* ===================================================================== *)

Module database.

Definition PluginBridge : string := "bridge".
Definition PluginHostLocal : string := "host-local".

(** A [time.Time] is the number of nanoseconds since the zero [Time]; a
    [time.Duration] is an [int64] count of nanoseconds, and arithmetic on
    it wraps around. *)
Definition int64 (z : Z) : Z := ((z + 2 ^ 63) mod 2 ^ 64 - 2 ^ 63)%Z.
Definition Hour : Z := (3600 * 1000000000)%Z.

Record BaseModel : Type := {
  ID : N;
  Namespace : string;
  Name : string;
  Deleted : bool;
  CreatedAt : Z;
  UpdatedAt : Z
}.

(** host-local reserved IP *)
Record ReservedIP : Type := {
  IPv4 : string;
  IPv6 : string;
  IP_BaseModel : BaseModel
}.

(** bridge reserved MAC *)
Record ReservedMAC : Type := {
  MAC : string;
  MAC_BaseModel : BaseModel
}.

(** The assignments [r.Namespace = ns; r.Name = name; r.Deleted = deleted]
    and [r.Deleted = deleted] on a record. *)
Definition set_identity (ns name : string) (deleted : bool)
  (b : BaseModel) : BaseModel :=
  {| ID := ID b; Namespace := ns; Name := name; Deleted := deleted;
     CreatedAt := CreatedAt b; UpdatedAt := UpdatedAt b |}.

Definition set_deleted (deleted : bool) (b : BaseModel) : BaseModel :=
  set_identity (Namespace b) (Name b) deleted b.

(** What can go wrong with the database, call by call, in one run of a
    function that opens it. *)
Record Faults : Type := {
  db_open : option error;
  db_purge : option error;
  db_take : option error;
  db_save : option error
}.

Definition db_ok : Faults :=
  {| db_open := None; db_purge := None; db_take := None; db_save := None |}.

Definition zeroBase : BaseModel :=
  {| ID := 0; Namespace := ""; Name := ""; Deleted := false;
     CreatedAt := 0; UpdatedAt := 0 |}.

(** What gorm needs of a model: its embedded [BaseModel], a way to store
    one back, and the zero value of the struct. *)
Class Model (R : Type) : Type := {
  base : R → BaseModel;
  with_base : BaseModel → R → R;
  zero : R
}.

#[global] Instance ReservedIP_Model : Model ReservedIP := {|
  base := IP_BaseModel;
  with_base b r := {| IPv4 := IPv4 r; IPv6 := IPv6 r; IP_BaseModel := b |};
  zero := {| IPv4 := ""; IPv6 := ""; IP_BaseModel := zeroBase |}
|}.

#[global] Instance ReservedMAC_Model : Model ReservedMAC := {|
  base := MAC_BaseModel;
  with_base b r := {| MAC := MAC r; MAC_BaseModel := b |};
  zero := {| MAC := ""; MAC_BaseModel := zeroBase |}
|}.

(** The calls on the [*gorm.DB] handle.  A table is the list of its rows in
    row-id order; [fault] is the failure of the driver, if the call meets
    one, and a failed call leaves the table as it was. *)
Section gorm.
Context {R : Type} `{Model R}.

Definition identified (ns name : string) (r : R) : bool :=
  String.eqb (Namespace (base r)) ns && String.eqb (Name (base r)) name.

(** [db.Take(&r, "namespace = ? and name = ?", ns, name)] *)
Definition Take (fault : option error) (ns name : string) (tbl : list R)
  : R * option error :=
  match fault with
  | Some e => (zero, Some e)
  | None =>
      match find (identified ns name) tbl with
      | Some r => (r, None)
      | None => (zero, Some ErrRecordNotFound)
      end
  end.

Definition next_id (tbl : list R) : N :=
  N.succ (foldr (λ r m, N.max (ID (base r)) m) 0%N tbl).

Definition stamp (id : N) (created updated : Z) (r : R) : R :=
  with_base {| ID := id;
               Namespace := Namespace (base r); Name := Name (base r);
               Deleted := Deleted (base r);
               CreatedAt := created; UpdatedAt := updated |} r.

(** A zero time is filled in with the current time when a row is created. *)
Definition or_now (now t : Z) : Z := if (t =? 0)%Z then now else t.

Definition create (now : Z) (id : N) (r : R) (tbl : list R) : list R :=
  tbl ++ [stamp id (or_now now (CreatedAt (base r)))
                   (or_now now (UpdatedAt (base r))) r].

(** [db.Save(r)]: without a primary key the row is created; with one,
    all its columns are updated and [updated_at] is set to the current
    time, and the row is created if no row has that key. *)
Definition Save (fault : option error) (now : Z) (r : R) (tbl : list R)
  : list R * option error :=
  match fault with
  | Some e => (tbl, Some e)
  | None =>
      let id := ID (base r) in
      if (id =? 0)%N then (create now (next_id tbl) r tbl, None)
      else if existsb (λ x, (ID (base x) =? id)%N) tbl
      then (map (λ x, if (ID (base x) =? id)%N
                      then stamp id (CreatedAt (base r)) now r else x) tbl,
            None)
      else (create now id (stamp id (CreatedAt (base r)) now r) tbl, None)
  end.

(** [db.Delete(&R{}, cond)] *)
Definition Delete (fault : option error) (cond : R → bool) (tbl : list R)
  : list R * option error :=
  match fault with
  | Some e => (tbl, Some e)
  | None => (filter (λ r, cond r = false) tbl, None)
  end.

(** [end := time.Now().Add(-time.Duration(days) * 24 * time.Hour)] *)
Definition horizon (now days : Z) : Z :=
  (now + int64 (int64 (int64 (- int64 days) * 24) * Hour))%Z.

(** The condition ["deleted = ? and updated_at < ?", true, end]. *)
Definition expired (end_ : Z) (r : R) : bool :=
  Bool.eqb (Deleted (base r)) true && (UpdatedAt (base r) <? end_)%Z.

Definition PurgeExpired (fault : option error) (now days : Z)
  (tbl : list R) : list R * option error :=
  Delete fault (expired (horizon now days)) tbl.
End gorm.

Definition GetReservedIP (fault : option error) (podNS podName : string)
  (tbl : list ReservedIP) : ReservedIP * option error :=
  Take fault podNS podName tbl.

Definition ReserveIP (fault : option error) (now : Z) (ip : ReservedIP)
  (tbl : list ReservedIP) : list ReservedIP * option error :=
  Save fault now ip tbl.

Definition PurgeExpiredIPs (fault : option error) (now days : Z)
  (tbl : list ReservedIP) : list ReservedIP * option error :=
  PurgeExpired fault now days tbl.

Definition GetReservedMAC (fault : option error) (podNS podName : string)
  (tbl : list ReservedMAC) : ReservedMAC * option error :=
  Take fault podNS podName tbl.

Definition ReserveMAC (fault : option error) (now : Z) (mac : ReservedMAC)
  (tbl : list ReservedMAC) : list ReservedMAC * option error :=
  Save fault now mac tbl.

Definition PurgeExpiredMACs (fault : option error) (now days : Z)
  (tbl : list ReservedMAC) : list ReservedMAC * option error :=
  PurgeExpired fault now days tbl.

Definition IsNotFoundErr (err : option error) : bool :=
  match err with Some ErrRecordNotFound => true | _ => false end.

(** [OpenDB]: the plugin kind selects the database file; [fault] is the
    failure of [ensureDataDir] or of [gorm.Open], if there is one. *)
Definition OpenDB (fault : option error) (network dataDir pluginName : string)
  : option error :=
  if String.eqb pluginName PluginBridge
     || String.eqb pluginName PluginHostLocal
  then fault
  else Some (Errorf "not support plugin %s" [pluginName]).

End database.

(* ===================================================================== *)
(** ** The Go library and the file system *)
(* ===================================================================== *)

(** A data directory: the names of its regular files and what they hold.
    Every name the stores build is free of path separators, so joining it
    to the directory's path names an entry of this map. *)
Abbreviation Dir := (gmap string string).

(** What the code takes from packages [net], [path/filepath] and [runtime].
    [None] stands for a [nil] address; [Glob dir pattern] is the list of the
    names in [dir] that match, or [filepath.ErrBadPattern]. *)
Class GoLib : Type := {
  IP : Type;
  IP_String : IP → string;
  IP_To4 : IP → option IP;
  ParseIP : string → option IP;
  HardwareAddr : Type;
  ParseMAC : string → option HardwareAddr;
  HardwareAddr_String : HardwareAddr → string;
  Glob : Dir → string → list string * option error;
  GOOS_windows : bool
}.

Module os.

(** [os.OpenFile(name, O_RDWR|O_EXCL|O_CREATE, 0644)]: fails with
    [ErrExist] on a name that is taken; otherwise [fault] is what stops
    the creation, if anything does. *)
Definition OpenFile_excl (fault : option error) (name : string) (d : Dir)
  : Dir * option error :=
  match d !! name with
  | Some _ => (d, Some ErrExist)
  | None =>
      match fault with
      | Some e => (d, Some e)
      | None => (<[name := ""]> d, None)
      end
  end.

(** [f.WriteString(s)] on the file created as [name]; a write that fails
    may have put the first [n] bytes in place. *)
Definition WriteString (fault : option (nat * error)) (name s : string)
  (d : Dir) : Dir * option error :=
  match fault with
  | Some (n, e) => (<[name := substring 0 n s]> d, Some e)
  | None => (<[name := s]> d, None)
  end.

(** [f.Close()] *)
Definition Close (fault : option error) : option error := fault.

(** [os.Remove(name)]: a file that is there is removed. *)
Definition Remove (name : string) (d : Dir) : Dir * option error :=
  match d !! name with
  | Some _ => (delete name d, None)
  | None => (d, Some (ErrIO 2))
  end.

(** [ioutil.WriteFile(name, data, 0644)] *)
Definition WriteFile (fault : option error) (name data : string) (d : Dir)
  : Dir * option error :=
  match fault with
  | Some e => (d, Some e)
  | None => (<[name := data]> d, None)
  end.

(** [os.Rename(oldpath, newpath)]: the new name takes the file over, and
    replaces a file that had that name. *)
Definition Rename (fault : option error) (oldpath newpath : string) (d : Dir)
  : Dir * option error :=
  match fault with
  | Some e => (d, Some e)
  | None =>
      match d !! oldpath with
      | Some data => (<[newpath := data]> (delete oldpath d), None)
      | None => (d, Some (ErrIO 2))
      end
  end.

(** [filepath.Walk] with [ioutil.ReadFile] on each regular file: the files
    visited, each with its content.  The callbacks of the stores return
    [nil] whatever happens, so the walk itself returns [nil]. *)
Definition Walk (d : Dir) : list (string * string) := map_to_list d.

(** The same walk with the files in the order [filepath.Walk] visits them,
    the lexical order of their names, for the callers that collect what
    they find. *)
Definition WalkInOrder (d : Dir) : list (string * string) :=
  merge_sort (λ a b, String.leb a.1 b.1) (Walk d).

End os.

(* ===================================================================== *)
(** ** plugins/ipam/host-local/backend/disk/backend.go *)
(* ===================================================================== *)

Module disk.

Definition lastIPFilePrefix : string := "last_reserved_ip.".
Definition LineBreak : string := String "013" (String "010" EmptyString).

(** What can go wrong, call by call, in one run of [Reserve];
    [remove_fault] is the failure of the [os.Remove] that follows a write
    or a close that failed. *)
Record ReserveFaults : Type := {
  open_fault : option error;
  write_fault : option (nat * error);
  close_fault : option error;
  remove_fault : option error;
  last_fault : option error
}.

Definition no_faults : ReserveFaults :=
  {| open_fault := None; write_fault := None;
     close_fault := None; remove_fault := None; last_fault := None |}.

Section Store.
Context {L : GoLib}.

(** The entry of the data directory that [fname] is stored under. *)
Definition GetEscapedPath (fname : string) : string :=
  if GOOS_windows then strings.ReplaceAll fname ":" "_" else fname.

Definition Reserve (flt : ReserveFaults) (id ifname : string) (ip : IP)
  (rangeID : string) (d : Dir) : Dir * (bool * option error) :=
  let fname := GetEscapedPath (IP_String ip) in
  let '(d1, err) := os.OpenFile_excl (open_fault flt) fname d in
  if IsExist err then (d1, (false, None))
  else match err with
  | Some e => (d1, (false, Some e))
  | None =>
      let '(d2, err) :=
        os.WriteString (write_fault flt) fname
          (strings.TrimSpace id +:+ LineBreak +:+ ifname) d1 in
      (* os.Remove(fname): its error is not looked at, and a file that
         could not be removed stays *)
      let removed :=
        match remove_fault flt with
        | Some _ => d2
        | None => (os.Remove fname d2).1
        end in
      match err with
      | Some e => (removed, (false, Some e))
      | None =>
          match os.Close (close_fault flt) with
          | Some e => (removed, (false, Some e))
          | None =>
              (* store the reserved ip in lastIPFile *)
              let ipfile := GetEscapedPath (lastIPFilePrefix +:+ rangeID) in
              let '(d3, err) :=
                os.WriteFile (last_fault flt) ipfile (IP_String ip) d2 in
              match err with
              | Some e => (d3, (false, Some e))
              | None => (d3, (true, None))
              end
          end
      end
  end.

(** LastReservedIP returns the last reserved IP if exists *)
Definition LastReservedIP (rangeID : string) (d : Dir)
  : option IP * option error :=
  match d !! GetEscapedPath (lastIPFilePrefix +:+ rangeID) with
  | None => (None, Some (ErrIO 2))
  | Some data => (ParseIP data, None)
  end.

Definition Release (ip : IP) (d : Dir) : Dir * option error :=
  os.Remove (GetEscapedPath (IP_String ip)) d.

Definition FindByKey (id ifname match_ : string) (d : Dir)
  : bool * option error :=
  (existsb (λ f, String.eqb (strings.TrimSpace f.2) match_) (os.Walk d),
   None).

Definition FindByID (id ifname : string) (d : Dir) : bool :=
  let match_ := strings.TrimSpace id +:+ LineBreak +:+ ifname in
  let '(found, err) := FindByKey id ifname match_ d in
  (* Match anything created by this id *)
  if negb found && bool_decide (err = None)
  then (FindByKey id ifname (strings.TrimSpace id) d).1
  else found.

(** [stuck] tells the files that [os.Remove] fails to remove; the walk
    goes on past them.  The content of a file is read when the walk comes
    to it, and the walk removes no file before it has come to it. *)
Definition ReleaseByKey (stuck : string → bool) (id ifname match_ : string)
  (d : Dir) : Dir * (bool * option error) :=
  let '(d', found) :=
    foldl (λ '(d', found) f,
             if String.eqb (strings.TrimSpace f.2) match_ then
               if stuck f.1 then (d', found) else (delete f.1 d', true)
             else (d', found))
          (d, false) (os.Walk d) in
  (d', (found, None)).

(** N.B. This function eats errors to be tolerant and release as much as
    possible *)
Definition ReleaseByID (stuck : string → bool) (id ifname : string) (d : Dir)
  : Dir * option error :=
  let match_ := strings.TrimSpace id +:+ LineBreak +:+ ifname in
  let '(d1, (found, err)) := ReleaseByKey stuck id ifname match_ d in
  (* For backwards compatibility, look for files written by a previous
     version *)
  if negb found && bool_decide (err = None)
  then
    let '(d2, (_, err)) :=
      ReleaseByKey stuck id ifname (strings.TrimSpace id) d1 in
    (d2, err)
  else (d1, err).

(** GetByID returns the IPs which have been allocated to the specific ID *)
Definition GetByID (id ifname : string) (d : Dir) : list IP :=
  let match_ := strings.TrimSpace id +:+ LineBreak +:+ ifname in
  (* matchOld for backwards compatibility *)
  let matchOld := strings.TrimSpace id in
  (* walk through all ips in this network to get the ones which belong to
     a specific ID *)
  omap (λ f, if String.eqb (strings.TrimSpace f.2) match_
                || String.eqb (strings.TrimSpace f.2) matchOld
             then ParseIP f.1 else None)
       (os.WalkInOrder d).

Definition podFileName (ip ns name : string) : string :=
  if negb (String.length ip =? 0)%nat && negb (String.length ns =? 0)%nat
  then "ip_" +:+ ip +:+ "_" +:+ ns +:+ "_" +:+ name
  else name.

Definition resolvePodFileName (fName : string)
  : string * string * string :=
  match strings.Split fName "_" with
  | [_; ip; ns; name] => (ip, ns, name)
  | _ => ("", "", "")
  end.

Definition findPodFileName (ip ns name : string) (d : Dir)
  : string * option error :=
  let pattern :=
    if negb (String.length ip =? 0)%nat
    then Some ("ip_" +:+ ip +:+ "_*")
    else if negb (String.length ns =? 0)%nat
            && negb (String.length name =? 0)%nat
    then Some ("ip_*_" +:+ ns +:+ "_" +:+ name)
    else None in
  match pattern with
  | None => ("", None)
  | Some pattern =>
      match Glob d (GetEscapedPath pattern) with
      | (_, Some e) => ("", Some e)
      | ([fName], None) =>
          if (strings.Count fName "_" =? 3)%nat then (fName, None)
          else ("", None)
      | (_, None) => ("", None)
      end
  end.

(** edge k8s: HasReservedIP verify the pod already had reserved ip or not.
    and return the reserved ip on the other hand. *)
Definition HasReservedIP (podNs podName : string) (d : Dir)
  : bool * option IP :=
  if (String.length podName =? 0)%nat then (false, None)
  else
    (* Pod, ip mapping info are recorded with file name: PodIP_PodNs_PodName *)
    match findPodFileName "" podNs podName d with
    | (_, Some _) => (false, None)
    | (podIPNsNameFileName, None) =>
        if negb (String.length podIPNsNameFileName =? 0)%nat then
          let '(ipStr, ns, name) := resolvePodFileName podIPNsNameFileName in
          if String.eqb ns podNs && String.eqb name podName then
            match ParseIP ipStr with
            | Some ip => (true, Some ip)
            | None => (false, None)
            end
          else (false, None)
        else (false, None)
    end.

(** What can go wrong in one run of [ReservePodInfo]. *)
Record PodInfoFaults : Type := {
  writefile_fault : option error;
  rename_fault : option error
}.

(** edge k8s: ReservePodInfo create podName file for storing ip or update
    ip file with container id and ifname in terms of podIPIsExist *)
Definition ReservePodInfo (flt : PodInfoFaults) (id ifname : string)
  (ip : IP) (podNs podName : string) (podIPIsExist : bool) (d : Dir)
  : Dir * (bool * option error) :=
  if podIPIsExist then
    (* pod Ns/Name file is exist, update ip file with new container id and ifname. *)
    let fname := GetEscapedPath (IP_String ip) in
    match os.WriteFile (writefile_fault flt) fname
            (strings.TrimSpace id +:+ LineBreak +:+ ifname) d with
    | (d1, Some e) => (d1, (false, Some e))
    | (d1, None) => (d1, (true, None))
    end
  else if negb (String.length podName =? 0)%nat then
    let podIPNsNameFile :=
      GetEscapedPath (podFileName (IP_String ip) podNs podName) in
    match findPodFileName (IP_String ip) "" "" d with
    | (_, Some e) => (d, (false, Some e))
    | (podIPNsNameFileName, None) =>
        if negb (String.length podIPNsNameFileName =? 0)%nat then
          let oldPodIPNsNameFile := GetEscapedPath podIPNsNameFileName in
          match os.Rename (rename_fault flt)
                  oldPodIPNsNameFile podIPNsNameFile d with
          | (d1, Some e) => (d1, (false, Some e))
          | (d1, None) => (d1, (true, None))
          end
        else
          match os.WriteFile (writefile_fault flt) podIPNsNameFile "" d with
          | (d1, Some e) => (d1, (false, Some e))
          | (d1, None) => (d1, (true, None))
          end
    end
  else (d, (true, None)).
End Store.

End disk.

(* ===================================================================== *)
(** ** plugins/main/bridge/store.go *)
(* ===================================================================== *)

Module bridge.

Definition deletionTag : string := "deleted".

Section Store.
Context {L : GoLib}.

(** podFileName mac_PodMAC_PodNs_PodName *)
Definition podFileName (mac ns name : string) : string :=
  if negb (String.length mac =? 0)%nat && negb (String.length ns =? 0)%nat
  then
    (* the mac format is c6-8d-0b-db-4e-83 for getting escaped path in windows OS *)
    let mac := strings.ReplaceAll mac ":" "-" in
    "mac_" +:+ mac +:+ "_" +:+ ns +:+ "_" +:+ name
  else name.

(** mac_podMac_podNs_podName *)
Definition resolvePodFileName (fName : string)
  : string * string * string :=
  match strings.Split fName "_" with
  | [_; mac; ns; name] => (mac, ns, name)
  | _ => ("", "", "")
  end.

Definition findPodFileName (mac ns name : string) (d : Dir)
  : string * option error :=
  let pattern :=
    if negb (String.length mac =? 0)%nat
    then Some ("mac_" +:+ strings.ReplaceAll mac ":" "-" +:+ "_*")
    else if negb (String.length ns =? 0)%nat
            && negb (String.length name =? 0)%nat
    then Some ("mac_*_" +:+ ns +:+ "_" +:+ name)
    else None in
  match pattern with
  | None => ("", None)
  | Some pattern =>
      match Glob d (disk.GetEscapedPath pattern) with
      | (_, Some e) => ("", Some e)
      | ([fName], None) =>
          if (strings.Count fName "_" =? 3)%nat then (fName, None)
          else ("", None)
      | (_, None) => ("", None)
      end
  end.

(** edge k8s: hasReservedMAC verify the pod already had reserved MAC or
    not. and return the reserved mac on the other hand. *)
Definition hasReservedMAC (podNS podName : string) (d : Dir)
  : option HardwareAddr * option error :=
  if (String.length podName =? 0)%nat then (None, None)
  else
    (* Pod, mac mapping info are recorded with file name: mac_PodMAC_PodNs_PodName *)
    match findPodFileName "" podNS podName d with
    | (_, Some e) => (None, Some e)
    | (podFileName, None) =>
        if negb (String.length podFileName =? 0)%nat then
          let '(mac, ns, name) := resolvePodFileName podFileName in
          if String.eqb ns podNS && String.eqb name podName
          then (ParseMAC mac, None)
          else (None, None)
        else (None, None)
    end.

(** edge k8s: reservePodInfo create podName file for storing mac *)
Definition reservePodInfo (flt : disk.PodInfoFaults)
  (mac podNs podName : string) (d : Dir) : Dir * (bool * option error) :=
  if (String.length podName =? 0)%nat then (d, (false, None))
  else if (String.length mac =? 0)%nat then
    (* delete pod *)
    match findPodFileName "" podNs podName d with
    | (_, Some e) => (d, (false, Some e))
    | (podMacNsNameFileName, None) =>
        if (0 <? String.length podMacNsNameFileName)%nat then
          let podMacNsNameFilePath :=
            disk.GetEscapedPath podMacNsNameFileName in
          match os.WriteFile (disk.writefile_fault flt)
                  podMacNsNameFilePath deletionTag d with
          | (d1, Some e) => (d1, (false, Some e))
          | (d1, None) => (d1, (true, None))
          end
        else (d, (true, None))
    end
  else
    (* for adding pod, create a new file named "mac_PodMac_PodNs_PodName",
       if there is already file named with "mac_*_PodNs_PodName", rename
       the old file with new PodNs and PodName. *)
    let targetPodMACNsNameFile := podFileName mac podNs podName in
    let targetPodMACNsNameFilePath :=
      disk.GetEscapedPath targetPodMACNsNameFile in
    match findPodFileName "" podNs podName d with
    | (_, Some e) => (d, (false, Some e))
    | (podMacNsNameFileName, None) =>
        if negb (String.length podMacNsNameFileName =? 0)%nat
           && negb (String.eqb targetPodMACNsNameFile podMacNsNameFileName)
        then
          let oldPodMacNsNameFilePath :=
            disk.GetEscapedPath podMacNsNameFileName in
          match os.Rename (disk.rename_fault flt)
                  oldPodMacNsNameFilePath targetPodMACNsNameFilePath d with
          | (d1, Some e) => (d1, (false, Some e))
          | (d1, None) => (d1, (true, None))
          end
        else
          match os.WriteFile (disk.writefile_fault flt)
                  targetPodMACNsNameFilePath "" d with
          | (d1, Some e) => (d1, (false, Some e))
          | (d1, None) => (d1, (true, None))
          end
    end.

Definition GetContainerMAC (podNS podName : string) (d : Dir)
  : string * option error :=
  match hasReservedMAC podNS podName d with
  | (Some hw, None) => (HardwareAddr_String hw, None)
  | (_, err) => ("", err)
  end.

Definition SaveContainerMac (flt : disk.PodInfoFaults)
  (mac podNs podName : string) (d : Dir) : Dir * option error :=
  let '(d1, (_, err)) := reservePodInfo flt mac podNs podName d in
  (d1, err).

(** [MatchString] is [regexp.MatchString], [ModTime] the modification time
    of each file, [stuck] the files that [os.Remove] fails to remove. *)
Definition RemoveExpiredRecords
  (MatchString : string → string → bool * option error)
  (ModTime : string → Z) (stuck : string → bool) (now : Z)
  (pattern : string) (expirationDays : Z) (d : Dir) : Dir * option error :=
  let removeTime :=
    (now + database.int64 (database.int64 (- database.Hour * 24)
                           * database.int64 expirationDays))%Z in
  (foldl (λ d' f,
            let '(found, err) := MatchString pattern f.1 in
            if negb found || bool_decide (err ≠ None) then d'
            else if (removeTime <? ModTime f.1)%Z then d'
            else if String.eqb (strings.TrimSpace f.2) deletionTag then
              if stuck f.1 then d' else delete f.1 d'
            else d')
         d (os.Walk d),
   None).
End Store.

(** *** The reserved MAC of a pod, kept in the database *)

Record NetConf : Type := {
  Name : string;
  mac : string;
  ReservedMACDays : Z
}.

Section Reserved.
Context {L : GoLib}.

Definition getReservedMAC (flt : database.Faults) (now : Z) (netConf : NetConf)
  (envArgs : string) (tbl : list database.ReservedMAC)
  : NetConf * list database.ReservedMAC :=
  if (0 <? String.length (mac netConf))%nat then
    (* already get mac from MacEnvArgs.MAC *)
    (netConf, tbl)
  else
    let '(podNS, podName, _) :=
      utils.ResolvePodNSAndNameFromEnvArgs envArgs in
    if (String.length podName =? 0)%nat then (netConf, tbl)
    else
      match database.OpenDB (database.db_open flt) (Name netConf) ""
              database.PluginBridge with
      | Some _ => (netConf, tbl)
      | None =>
          let expirationDays := ReservedMACDays netConf in
          let tbl :=
            if (0 <? expirationDays)%Z
            then (database.PurgeExpiredMACs (database.db_purge flt) now
                    expirationDays tbl).1
            else tbl in
          let '(reservedMAC, err) :=
            database.GetReservedMAC (database.db_take flt) podNS podName tbl in
          if bool_decide (err ≠ None) && negb (database.IsNotFoundErr err)
          then (netConf, tbl)
          else if String.eqb (database.MAC reservedMAC) ""
          then (netConf, tbl)
          else
            match ParseMAC (database.MAC reservedMAC) with
            | None => (netConf, tbl)
            | Some _ =>
                ({| Name := Name netConf;
                    mac := database.MAC reservedMAC;
                    ReservedMACDays := ReservedMACDays netConf |}, tbl)
            end
      end.

Definition saveReservedMAC (flt : database.Faults) (now : Z)
  (network envArgs containerMAC : string)
  (tbl : list database.ReservedMAC) : list database.ReservedMAC :=
  let '(podNS, podName, _) :=
    utils.ResolvePodNSAndNameFromEnvArgs envArgs in
  if (String.length podName =? 0)%nat then tbl
  else
    match database.OpenDB (database.db_open flt) network ""
            database.PluginBridge with
    | Some _ => tbl
    | None =>
        let '(reservedMAC, err) :=
          database.GetReservedMAC (database.db_take flt) podNS podName tbl in
        if bool_decide (err ≠ None) && negb (database.IsNotFoundErr err)
        then tbl
        else
          let reservedMAC :=
            {| database.MAC := containerMAC;
               database.MAC_BaseModel :=
                 database.set_identity podNS podName false
                   (database.MAC_BaseModel reservedMAC) |} in
          (database.ReserveMAC (database.db_save flt) now reservedMAC tbl).1
    end.

(** [lock_fault] is the failure of [NewBridgeFileLock], if there is one. *)
Definition releaseMAC (lock_fault : option error) (flt : database.Faults)
  (now : Z) (network envArgs : string) (expirationDays : Z)
  (tbl : list database.ReservedMAC) : list database.ReservedMAC :=
  match lock_fault with
  | Some _ => tbl
  | None =>
      let '(podNS, podName, _) :=
        utils.ResolvePodNSAndNameFromEnvArgs envArgs in
      match database.OpenDB (database.db_open flt) network ""
              database.PluginBridge with
      | Some _ => tbl
      | None =>
          let tbl :=
            if (0 <? expirationDays)%Z
            then (database.PurgeExpiredMACs (database.db_purge flt) now
                    expirationDays tbl).1
            else tbl in
          if (String.length podName =? 0)%nat then tbl
          else
            match database.GetReservedMAC (database.db_take flt) podNS podName tbl
            with
            | (reservedMAC, None) =>
                let reservedMAC :=
                  {| database.MAC := database.MAC reservedMAC;
                     database.MAC_BaseModel :=
                       database.set_deleted true
                         (database.MAC_BaseModel reservedMAC) |} in
                (database.ReserveMAC (database.db_save flt) now reservedMAC tbl).1
            | (_, _) => tbl
            end
      end
  end.
End Reserved.

End bridge.

(* ===================================================================== *)
(** ** plugins/ipam/host-local/backend/allocator/allocator_ext.go *)
(* ===================================================================== *)

Module allocator.

Section Allocator.
Context {L : GoLib}.

Record Range : Type := { Subnet_IP : IP }.

(** A range set is never empty: loading the configuration rejects an
    empty one, so [rangeset[0]] is there. *)
Record RangeSet : Type := { rangeset_0 : Range; rangeset_rest : list Range }.

Record IPConfig : Type := { Address_IP : IP }.

(** What [Get] and [GetIP] return: a configuration and a [nil] error, or
    an error with whatever configuration comes with it. *)
Inductive Allocation : Type :=
| Allocated (ipCfg : IPConfig)
| Failed (ipCfg : option IPConfig) (err : error).

(** The reservation files and the host-local table of reserved IPs. *)
Record World : Type := {
  files : Dir;
  reserved : list database.ReservedIP
}.

(** [a.Get(id, ifname, requestedIP)] of [IPAllocator], which works on the
    reservation files. *)
Variable Get : string → string → option IP → Dir → Dir * Allocation.

Definition getIP (flt : database.Faults) (rangeset : RangeSet)
  (podNS podName network dataDir : string)
  (tbl : list database.ReservedIP) : option IP :=
  if (String.length podName =? 0)%nat then None
  else
    match database.OpenDB (database.db_open flt) network dataDir
            database.PluginHostLocal with
    | Some _ => None
    | None =>
        (* the rangeset has already verified by RangeSet's Canonicalize
           method during loading IPAM config to ensure the address
           families are uniform *)
        let isIPv4 := bool_decide (IP_To4 (Subnet_IP (rangeset_0 rangeset)) ≠ None) in
        match database.GetReservedIP (database.db_take flt) podNS podName tbl
        with
        | (reservedIP, None) =>
            if isIPv4 then ParseIP (database.IPv4 reservedIP)
            else ParseIP (database.IPv6 reservedIP)
        | (_, err) =>
            if database.IsNotFoundErr err then None
            else (* logged; knownIP is still nil *) None
        end
    end.

Definition saveIP (flt : database.Faults) (now : Z)
  (podNS podName network dataDir : string) (ip : IP)
  (tbl : list database.ReservedIP) : list database.ReservedIP :=
  if (String.length podName =? 0)%nat then tbl
  else
    match database.OpenDB (database.db_open flt) network dataDir
            database.PluginHostLocal with
    | Some _ => tbl
    | None =>
        let '(reservedIP, err) :=
          database.GetReservedIP (database.db_take flt) podNS podName tbl in
        if bool_decide (err ≠ None) && negb (database.IsNotFoundErr err)
        then tbl
        else
          let isIPv4 := bool_decide (IP_To4 ip ≠ None) in
          let reservedIP :=
            {| database.IPv4 :=
                 if isIPv4 then IP_String ip else database.IPv4 reservedIP;
               database.IPv6 :=
                 if isIPv4 then database.IPv6 reservedIP else IP_String ip;
               database.IP_BaseModel :=
                 database.set_identity podNS podName false
                   (database.IP_BaseModel reservedIP) |} in
          (database.ReserveIP (database.db_save flt) now reservedIP tbl).1
    end.

(** GetIP allocates an IP or used reserved IP for specified pod.
    [fg] are the database failures met by [getIP], [fs] those met by
    [saveIP]. *)
Definition GetIP (fg fs : database.Faults) (now : Z) (rangeset : RangeSet)
  (network dataDir envArgs id ifname : string) (requestedIP : option IP)
  (w : World) : World * Allocation :=
  let '(podNS, podName, _) :=
    utils.ResolvePodNSAndNameFromEnvArgs envArgs in
  if (String.length podName =? 0)%nat then
    let '(d, r) := Get id ifname requestedIP (files w) in
    ({| files := d; reserved := reserved w |}, r)
  else
    let knownIP :=
      getIP fg rangeset podNS podName network dataDir (reserved w) in
    let knownIP :=
      match knownIP with None => requestedIP | Some _ => knownIP end in
    let '(d, r) := Get id ifname knownIP (files w) in
    match r with
    | Failed ipCfg err =>
        ({| files := d; reserved := reserved w |}, Failed ipCfg err)
    | Allocated ipCfg =>
        ({| files := d;
            reserved := saveIP fs now podNS podName network dataDir
                          (Address_IP ipCfg) (reserved w) |},
         Allocated ipCfg)
    end.

Definition ReleaseExpiredIPs (flt : database.Faults) (now : Z)
  (network dataDir : string) (expirationDays : Z)
  (tbl : list database.ReservedIP) : list database.ReservedIP :=
  if (expirationDays =? 0)%Z then tbl
  else
    match database.OpenDB (database.db_open flt) network dataDir
            database.PluginHostLocal with
    | Some _ => tbl
    | None =>
        (database.PurgeExpiredIPs (database.db_purge flt) now
           expirationDays tbl).1
    end.

Definition markDeletedIP (flt : database.Faults) (now : Z)
  (network dataDir envArgs : string)
  (tbl : list database.ReservedIP) : list database.ReservedIP :=
  let '(podNS, podName, _) :=
    utils.ResolvePodNSAndNameFromEnvArgs envArgs in
  if (String.length podName =? 0)%nat then tbl
  else
    match database.OpenDB (database.db_open flt) network dataDir
            database.PluginHostLocal with
    | Some _ => tbl
    | None =>
        match database.GetReservedIP (database.db_take flt)
                podNS podName tbl with
        | (reservedIP, None) =>
            let reservedIP :=
              {| database.IPv4 := database.IPv4 reservedIP;
                 database.IPv6 := database.IPv6 reservedIP;
                 database.IP_BaseModel :=
                   database.set_deleted true
                     (database.IP_BaseModel reservedIP) |} in
            (database.ReserveIP (database.db_save flt) now reservedIP tbl).1
        | (_, _) => tbl
        end
    end.
End Allocator.

End allocator.

(* ===================================================================== *)
(** ** A concrete library: the addresses of the test suites *)
(* ===================================================================== *)

Module filepath.

(** [filepath.Match] for a pattern in which the star is the only
    metacharacter, as it is in the patterns of [findPodFileName] when the
    address, the namespace and the name have none: a star stands for any
    run of bytes other than the separator. *)
Fixpoint Match (pattern name : string) : bool :=
  match pattern with
  | EmptyString => String.eqb name ""
  | String c rest =>
      if Ascii.eqb c "*" then
        (fix skip (name : string) : bool :=
           Match rest name
           || match name with
              | EmptyString => false
              | String x name' => negb (Ascii.eqb x "/") && skip name'
              end) name
      else
        match name with
        | String x name' => Ascii.eqb x c && Match rest name'
        | EmptyString => false
        end
  end.

(** [filepath.Glob] on such a pattern: the names of the directory that
    match, in lexical order. *)
Definition Glob (d : Dir) (pattern : string) : list string * option error :=
  (merge_sort (λ a b, String.leb a b)
     (filter (λ n, Match pattern n) (map_to_list d).*1), None).

End filepath.

Module fixture.

(** The addresses of [database_test.go], and one IPv6 address. *)
Inductive addr : Type := ip_10_1 | ip_10_2 | ip_10_3 | ip_fd00_1.

Definition addr_String (a : addr) : string :=
  match a with
  | ip_10_1 => "10.10.10.1"
  | ip_10_2 => "10.10.10.2"
  | ip_10_3 => "10.10.10.3"
  | ip_fd00_1 => "fd00::1"
  end.

Definition addr_To4 (a : addr) : option addr :=
  match a with ip_fd00_1 => None | _ => Some a end.

Definition addr_Parse (s : string) : option addr :=
  if String.eqb s "10.10.10.1" then Some ip_10_1
  else if String.eqb s "10.10.10.2" then Some ip_10_2
  else if String.eqb s "10.10.10.3" then Some ip_10_3
  else if String.eqb s "fd00::1" then Some ip_fd00_1
  else None.

Inductive hwaddr : Type := mac_01 | mac_02 | mac_03.

Definition hwaddr_String (h : hwaddr) : string :=
  match h with
  | mac_01 => "02:42:af:a3:d8:01"
  | mac_02 => "02:42:af:a3:d8:02"
  | mac_03 => "02:42:af:a3:d8:03"
  end.

(** [net.ParseMAC] takes the bytes separated by colons or by hyphens. *)
Definition hwaddr_Parse (s : string) : option hwaddr :=
  if String.eqb s "02:42:af:a3:d8:01" || String.eqb s "02-42-af-a3-d8-01"
  then Some mac_01
  else if String.eqb s "02:42:af:a3:d8:02" || String.eqb s "02-42-af-a3-d8-02"
  then Some mac_02
  else if String.eqb s "02:42:af:a3:d8:03" || String.eqb s "02-42-af-a3-d8-03"
  then Some mac_03
  else None.

#[export] Instance lib : GoLib := {|
  IP := addr;
  IP_String := addr_String;
  IP_To4 := addr_To4;
  ParseIP := addr_Parse;
  HardwareAddr := hwaddr;
  ParseMAC := hwaddr_Parse;
  HardwareAddr_String := hwaddr_String;
  Glob := filepath.Glob;
  GOOS_windows := false
|}.

(** Modelled from the spec: [IPAllocator.Get] of allocator.go, which is
    not among the sources.  "Perform the ordinary allocation (range
    iteration + [reserve]) using whichever address resulted from steps 2-3
    as the forced candidate, or unconstrained search if none"; a forced
    candidate that is taken is an error, not a reason to search. *)
Fixpoint search {L : GoLib} (rangeID id ifname : string) (candidates : list IP)
  (d : Dir) : Dir * allocator.Allocation :=
  match candidates with
  | [] =>
      (d, allocator.Failed None
            (Errorf "no IP addresses available in range set" []))
  | ip :: rest =>
      match disk.Reserve disk.no_faults id ifname ip rangeID d with
      | (d1, (_, Some e)) => (d1, allocator.Failed None e)
      | (d1, (true, None)) =>
          (d1, allocator.Allocated {| allocator.Address_IP := ip |})
      | (d1, (false, None)) => search rangeID id ifname rest d1
      end
  end.

Definition Get {L : GoLib} (rangeID : string) (candidates : list IP)
  (id ifname : string) (requestedIP : option IP) (d : Dir)
  : Dir * allocator.Allocation :=
  match requestedIP with
  | Some ip =>
      match disk.Reserve disk.no_faults id ifname ip rangeID d with
      | (d1, (_, Some e)) => (d1, allocator.Failed None e)
      | (d1, (true, None)) =>
          (d1, allocator.Allocated {| allocator.Address_IP := ip |})
      | (d1, (false, None)) =>
          (d1, allocator.Failed None
                 (Errorf "requested IP address %s is not available"
                         [IP_String ip]))
      end
  | None => search rangeID id ifname candidates d
  end.

End fixture.

(* ===================================================================== *)
(** ** Vocabulary of the statements *)
(* ===================================================================== *)

Module envargs.

(** A segment of the argument string is well formed when it splits on
    ['='] into exactly two parts. *)
Definition well_formed (seg : string) : Prop :=
  length (strings.Split seg "=") = 2%nat.

(** The value that the well-formed segments give to [key]: that of the
    last segment with this key, and [acc] if there is none. *)
Fixpoint value_of (key : string) (pairs : list string) (acc : string)
  : string :=
  match pairs with
  | [] => acc
  | seg :: rest =>
      match strings.Split seg "=" with
      | [k; v] => value_of key rest (if String.eqb k key then v else acc)
      | _ => value_of key rest acc
      end
  end.

Definition long_args : string :=
  "K8S_POD_NAMESPACE=" +:+ String.concat "" (repeat "x" 200)
  +:+ ";K8S_POD_NAME=" +:+ String.concat "" (repeat "x" 200).

End envargs.

Module sticky.

(** What a lookup must tolerate in the result of the glob: more than one
    match, or a single match that does not split on ['_'] into exactly
    four parts. *)
Definition ambiguous_or_malformed (podFiles : list string) : Prop :=
  1 < length podFiles
  ∨ ∃ fName, podFiles = [fName] ∧ length (strings.Split fName "_") ≠ 4%nat.

(** The bytes that a part of a mapping-file name must not hold: the
    separator of the parts, the metacharacters of [filepath.Match] and the
    path separator. *)
Definition meta : list ascii := ["_"; "*"; "?"; "["; "\"; "/"]%char.

Definition avoids (cs : list ascii) (s : string) : Prop :=
  Forall (λ c, strings.Count s c = 0) cs.

(** A part that can be told from the file name: not empty, free of the
    bytes above, and written to the file system as it is. *)
Definition plain {L : GoLib} (s : string) : Prop :=
  s ≠ "" ∧ avoids meta s ∧ disk.GetEscapedPath s = s.

(** The bytes that make a pattern more than text and stars within one
    directory: the other metacharacters and the path separator. *)
Definition wild : list ascii := ["?"; "["; "\"; "/"]%char.

(** The library's [Glob] on a pattern free of them: it fails on none and
    returns, in some order, the names that [filepath.Match] accepts. *)
Definition globs_by_star (L : GoLib) : Prop :=
  ∀ (d : Dir) pattern,
    avoids wild pattern →
    ∃ names, Glob d pattern = (names, None)
             ∧ names ≡ₚ (filepath.Glob d pattern).1.

(** The invariant of the index: the files that match the pattern of an
    identity are at most one, and that one has four parts (and a name that
    the file system takes as it is). *)
Definition at_most_one {L : GoLib} (d : Dir) (pattern : string) : Prop :=
  (filepath.Glob d pattern).1 = []
  ∨ ∃ fName, (filepath.Glob d pattern).1 = [fName]
             ∧ strings.Count fName "_" = 3
             ∧ disk.GetEscapedPath fName = fName.

(** Pod [NS2/pod2] holds a mapping file for 10.10.10.2 in the IP store,
    and one for a first MAC in the MAC store. *)
Definition bound_ip : Dir := <["ip_10.10.10.2_NS2_pod2" := ""]> ∅.
Definition bound_mac : Dir := <["mac_02-42-af-a3-d8-01_NS2_pod2" := ""]> ∅.

Definition no_fault : disk.PodInfoFaults :=
  {| disk.writefile_fault := None; disk.rename_fault := None |}.

End sticky.

Module owner.

(** An interface name that does not end in white space ([TrimRightFunc]
    with [unicode.IsSpace] leaves it as it is); the empty name is one. *)
Definition no_trailing_space (s : string) : Prop :=
  strings.TrimRight (list_ascii_of_string s) = list_ascii_of_string s.

End owner.

Module expiry.

(** A day is 24 hours of nanoseconds. *)
Definition day : Z := (24 * database.Hour)%Z.

(** The tombstoned row of [database_test.go], last written one day before
    [now], and a current time: 2026-10-30, in nanoseconds since year 1. *)
Definition now : Z := (739919 * day)%Z.

Definition tombstone : database.ReservedIP :=
  {| database.IPv4 := "10.10.10.1"; database.IPv6 := "";
     database.IP_BaseModel :=
       {| database.ID := 1; database.Namespace := "NS1";
          database.Name := "pod1"; database.Deleted := true;
          database.CreatedAt := now - 3 * day;
          database.UpdatedAt := now - 1 * day |} |}.

Definition tombstone_mac : database.ReservedMAC :=
  {| database.MAC := "02:42:af:a3:d8:01";
     database.MAC_BaseModel :=
       {| database.ID := 1; database.Namespace := "NS1";
          database.Name := "pod1"; database.Deleted := true;
          database.CreatedAt := now - 3 * day;
          database.UpdatedAt := now - 2 * day |} |}.

End expiry.

Module keys.

(** The primary keys of a table come from the database: none is zero,
    the value of a record that was never saved. *)
Definition valid {R : Type} `{database.Model R} (tbl : list R) : Prop :=
  Forall (λ r, database.ID (database.base r) ≠ 0%N) tbl.

End keys.

Module scenario.

(** The scenario of the specification: 10.10.10.2 is the reserved address
    of pod [NS2/pod2], and the reservation file of 10.10.10.2 is held by
    another owner. *)
Definition taken : Dir :=
  <["10.10.10.2" := "other" +:+ disk.LineBreak +:+ "eth0"]> ∅.

Definition pod2 : database.ReservedIP :=
  {| database.IPv4 := "10.10.10.2"; database.IPv6 := "";
     database.IP_BaseModel :=
       {| database.ID := 2; database.Namespace := "NS2";
          database.Name := "pod2"; database.Deleted := false;
          database.CreatedAt := expiry.now; database.UpdatedAt := expiry.now |} |}.

Definition world : allocator.World :=
  {| allocator.files := taken; allocator.reserved := [pod2] |}.

Definition rangeset : allocator.RangeSet (L := fixture.lib) :=
  {| allocator.rangeset_0 :=
       {| allocator.Subnet_IP := (fixture.ip_10_1 : IP (GoLib := fixture.lib)) |};
     allocator.rangeset_rest := [] |}.

Definition config (a : fixture.addr) : allocator.IPConfig :=
  @allocator.Build_IPConfig fixture.lib a.

Definition envArgs : string :=
  "IgnoreUnknown=1;K8S_POD_NAMESPACE=NS2;K8S_POD_NAME=pod2".

Definition candidates : list fixture.addr :=
  [fixture.ip_10_1; fixture.ip_10_2; fixture.ip_10_3].

(** A database that cannot be opened. *)
Definition db_down : database.Faults :=
  {| database.db_open := Some (ErrIO 13); database.db_purge := None;
     database.db_take := None; database.db_save := None |}.

End scenario.

Module policy.

(** The sticky lookup meets a failure of the database: the open fails, or
    the query does. *)
Definition lookup_fails (flt : database.Faults) : Prop :=
  is_Some (database.db_open flt) ∨ is_Some (database.db_take flt).

(** Any call on the database fails. *)
Definition fails (flt : database.Faults) : Prop :=
  is_Some (database.db_open flt) ∨ is_Some (database.db_purge flt)
  ∨ is_Some (database.db_take flt) ∨ is_Some (database.db_save flt).

End policy.

Module held.

(** Some file of the directory has a content that trims to [m]. *)
Definition by_content (d : Dir) (m : string) : Prop :=
  ∃ fname data, d !! fname = Some data ∧ strings.TrimSpace data = m.

(** Every removal succeeds. *)
Definition none_stuck : string → bool := λ _, false.

End held.

Module rows.

Section Rows.
Context {R : Type} `{database.Model R}.

Definition key (r : R) : N := database.ID (database.base r).

(** The pod that a row belongs to. *)
Definition identity (r : R) : string * string :=
  (database.Namespace (database.base r), database.Name (database.base r)).

(** The table as the plugins keep it: the primary keys are set and
    distinct, and no pod has two rows. *)
Definition consistent (tbl : list R) : Prop :=
  keys.valid tbl ∧ NoDup (key <$> tbl) ∧ NoDup (identity <$> tbl).
End Rows.

End rows.

(* ===================================================================== *)
(** * Properties *)
(* ===================================================================== *)

Example resolve_test_args :
  utils.ResolvePodNSAndNameFromEnvArgs
    "IgnoreUnknown=1;K8S_POD_NAMESPACE=testNS;K8S_POD_NAME=testName;K8S_POD_INFRA_CONTAINER_ID=123456"
  = ("testNS", "testName", None).
Proof. reflexivity. Qed.

Example reserve_twice_fixture :
  let d1 := (disk.Reserve (L := fixture.lib) disk.no_faults
               " c1 " "eth0" fixture.ip_10_2 "0" ∅).1 in
  d1 !! "10.10.10.2" = Some ("c1" +:+ disk.LineBreak +:+ "eth0")
  ∧ (disk.Reserve (L := fixture.lib) disk.no_faults
       "c2" "eth1" fixture.ip_10_2 "1" d1).2 = (false, None)
  ∧ disk.FindByID "c1" "eth0" d1 = true.
Proof. vm_compute. auto. Qed.

(* --------------------------------------------------------------------- *)
(** ** The environment-argument resolver *)
(* --------------------------------------------------------------------- *)

Section EnvArgs.
Import envargs.

Lemma resolve_pairs_well_formed pairs : ∀ ns name,
  Forall well_formed pairs →
  utils.resolve_pairs pairs ns name
  = utils.resolve_pairs []
      (value_of "K8S_POD_NAMESPACE" pairs ns)
      (value_of "K8S_POD_NAME" pairs name).
Proof.
  induction pairs as [|seg rest IH]; intros ns name Hwf; [reflexivity|].
  apply Forall_cons in Hwf as [Hseg Hrest].
  unfold well_formed in Hseg.
  cbn [utils.resolve_pairs value_of].
  destruct (strings.Split seg "=") as [|k [|v [|? ?]]]; try discriminate.
  destruct (String.eqb k "K8S_POD_NAMESPACE") eqn:Ens.
  - apply String.eqb_eq in Ens as ->. cbn. by apply IH.
  - destruct (String.eqb k "K8S_POD_NAME"); by apply IH.
Qed.

Lemma resolve_pairs_malformed pairs : ∀ ns name,
  Exists (λ seg, ¬ well_formed seg) pairs →
  ∃ seg, seg ∈ pairs ∧ ¬ well_formed seg
         ∧ (utils.resolve_pairs pairs ns name).2
           = Some (Errorf "ARGS: invalid pair %q" [seg]).
Proof.
  induction pairs as [|seg rest IH]; intros ns name Hex.
  - by apply Exists_nil in Hex.
  - destruct (decide (length (strings.Split seg "=") = 2%nat)) as [Hseg|Hseg].
    + apply Exists_cons in Hex as [Hbad|Hex]; [by destruct Hbad|].
      cbn [utils.resolve_pairs].
      destruct (strings.Split seg "=") as [|k [|v [|? ?]]]; try discriminate.
      assert (∀ ns name, ∃ seg0, seg0 ∈ rest ∧ ¬ well_formed seg0
                ∧ (utils.resolve_pairs rest ns name).2
                  = Some (Errorf "ARGS: invalid pair %q" [seg0])) as IH'
        by (intros; by apply IH).
      destruct (String.eqb k "K8S_POD_NAMESPACE");
        [|destruct (String.eqb k "K8S_POD_NAME")];
        (edestruct IH' as (seg0 & Hin & Hbad & Heq);
         exists seg0; split; [by right|]; split; [done|exact Heq]).
    + exists seg. split; [by left|]. split; [exact Hseg|].
      cbn [utils.resolve_pairs].
      destruct (strings.Split seg "=") as [|k [|v [|? ?]]];
        try reflexivity.
      by destruct Hseg.
Qed.
End EnvArgs.

(** C8. [ResolvePodNSAndNameFromEnvArgs] returns empty strings and no error
    on the empty input; on any other input it returns the length-limit error
    (and empty strings) when every segment is well formed and the namespace
    and the name these segments give are longer than 230 bytes together, and
    the invalid-pair error of a segment that does not split on ['='] into
    exactly two parts when there is such a segment. *)
Theorem resolve_env_args_contract :
  utils.ResolvePodNSAndNameFromEnvArgs "" = ("", "", None)
  ∧ (∀ envArgs,
       envArgs ≠ "" →
       Forall envargs.well_formed (strings.Split envArgs ";") →
       230 < String.length
               (envargs.value_of "K8S_POD_NAMESPACE"
                  (strings.Split envArgs ";") "")
             + String.length
                 (envargs.value_of "K8S_POD_NAME"
                    (strings.Split envArgs ";") "") →
       utils.ResolvePodNSAndNameFromEnvArgs envArgs
       = ("", "",
          Some (Errorf
                  "ARGS: length of pod ns and name exceed the length limit"
                  [])))
  ∧ (∀ envArgs,
       envArgs ≠ "" →
       Exists (λ seg, ¬ envargs.well_formed seg) (strings.Split envArgs ";") →
       ∃ seg, seg ∈ strings.Split envArgs ";"
              ∧ ¬ envargs.well_formed seg
              ∧ (utils.ResolvePodNSAndNameFromEnvArgs envArgs).2
                = Some (Errorf "ARGS: invalid pair %q" [seg])).
Proof.
  split; [reflexivity|]. split.
  - intros envArgs Hne Hwf Hlen.
    unfold utils.ResolvePodNSAndNameFromEnvArgs.
    destruct (String.eqb_spec envArgs "") as [->|_]; [done|].
    rewrite resolve_pairs_well_formed by done.
    cbn [utils.resolve_pairs].
    by apply Nat.ltb_lt in Hlen as ->.
  - intros envArgs Hne Hex.
    unfold utils.ResolvePodNSAndNameFromEnvArgs.
    destruct (String.eqb_spec envArgs "") as [->|_]; [done|].
    by apply resolve_pairs_malformed.
Qed.

Lemma resolve_env_args_contract_witness :
  utils.ResolvePodNSAndNameFromEnvArgs envargs.long_args
  = ("", "",
     Some (Errorf
             "ARGS: length of pod ns and name exceed the length limit" []))
  ∧ ∃ seg, seg ∈ strings.Split "K8S_POD_NAME=a=b;x=1" ";"
           ∧ ¬ envargs.well_formed seg
           ∧ (utils.ResolvePodNSAndNameFromEnvArgs "K8S_POD_NAME=a=b;x=1").2
             = Some (Errorf "ARGS: invalid pair %q" [seg]).
Proof.
  destruct resolve_env_args_contract as (_ & Hlimit & Hpair).
  split.
  - apply Hlimit.
    + discriminate.
    + vm_compute. repeat constructor.
    + vm_compute. lia.
  - apply Hpair.
    + discriminate.
    + apply Exists_cons_hd. vm_compute. lia.
Defined.

(* --------------------------------------------------------------------- *)
(** ** The flat-file store: [Reserve] *)
(* --------------------------------------------------------------------- *)

Section Reserve.
Context {L : GoLib}.

(** A run of [Reserve] that reports success went through all four calls. *)
Lemma Reserve_true_inv flt id ifname ip rangeID (d d1 : Dir) :
  disk.Reserve flt id ifname ip rangeID d = (d1, (true, None)) →
  d !! disk.GetEscapedPath (IP_String ip) = None
  ∧ d1 = <[disk.GetEscapedPath (disk.lastIPFilePrefix +:+ rangeID)
           := IP_String ip]>
           (<[disk.GetEscapedPath (IP_String ip)
              := strings.TrimSpace id +:+ disk.LineBreak +:+ ifname]>
              (<[disk.GetEscapedPath (IP_String ip) := ""]> d)).
Proof.
  unfold disk.Reserve, os.OpenFile_excl, os.WriteString, os.Close,
    os.WriteFile, os.Remove.
  destruct (d !! disk.GetEscapedPath (IP_String ip)) as [c|] eqn:Hd;
    cbn; [discriminate|].
  destruct (disk.open_fault flt) as [[]|]; cbn; try discriminate.
  destruct (disk.write_fault flt) as [[n e]|]; cbn; [discriminate|].
  destruct (disk.close_fault flt) as [e|]; cbn; [discriminate|].
  destruct (disk.last_fault flt) as [e|]; cbn; [discriminate|].
  intros [= <-]. done.
Qed.

Lemma Reserve_taken flt id ifname ip rangeID (d : Dir) :
  is_Some (d !! disk.GetEscapedPath (IP_String ip)) →
  disk.Reserve flt id ifname ip rangeID d = (d, (false, None)).
Proof.
  intros [c Hc]. unfold disk.Reserve, os.OpenFile_excl. by rewrite Hc.
Qed.
End Reserve.

(** C1. After a successful [Reserve] of an address, a second [Reserve] of
    the same address, by whatever owner, for whatever range and whatever
    the environment lets through, returns [(false, nil)] and leaves the
    directory as the first call left it: the reservation file is still
    there, and it still holds the owner id and interface name of the first
    call (when it is not the file of the range's last-reserved marker). *)
Theorem reserve_twice {L : GoLib} flt1 flt2 id ifname id2 ifname2
    (ip : IP) rangeID rangeID2 (d d1 : Dir) :
  disk.Reserve flt1 id ifname ip rangeID d = (d1, (true, None)) →
  disk.Reserve flt2 id2 ifname2 ip rangeID2 d1 = (d1, (false, None))
  ∧ is_Some (d1 !! disk.GetEscapedPath (IP_String ip))
  ∧ (disk.GetEscapedPath (disk.lastIPFilePrefix +:+ rangeID)
       ≠ disk.GetEscapedPath (IP_String ip) →
     d1 !! disk.GetEscapedPath (IP_String ip)
     = Some (strings.TrimSpace id +:+ disk.LineBreak +:+ ifname)).
Proof.
  intros [Hfree ->]%Reserve_true_inv.
  assert (is_Some
            ((<[disk.GetEscapedPath (disk.lastIPFilePrefix +:+ rangeID)
                := IP_String ip]>
                (<[disk.GetEscapedPath (IP_String ip)
                   := strings.TrimSpace id +:+ disk.LineBreak +:+ ifname]>
                   (<[disk.GetEscapedPath (IP_String ip) := ""]> d)) : Dir)
               !! disk.GetEscapedPath (IP_String ip))) as Hsome.
  { rewrite lookup_insert. case_decide; [done|].
    rewrite lookup_insert_eq. done. }
  split; [by apply Reserve_taken|]. split; [exact Hsome|].
  intros Hne. rewrite lookup_insert_ne by done. by rewrite lookup_insert_eq.
Qed.

Lemma reserve_twice_witness :
  let d1 : Dir :=
    <["last_reserved_ip.0" := "10.10.10.2"]>
      (<["10.10.10.2" := "c1" +:+ disk.LineBreak +:+ "eth0"]> ∅) in
  disk.Reserve (L := fixture.lib) disk.no_faults
    "c2" "eth1" fixture.ip_10_2 "1" d1 = (d1, (false, None))
  ∧ is_Some (d1 !! "10.10.10.2")
  ∧ ("last_reserved_ip.0" ≠ "10.10.10.2" →
     d1 !! "10.10.10.2" = Some ("c1" +:+ disk.LineBreak +:+ "eth0")).
Proof.
  apply (reserve_twice (L := fixture.lib) disk.no_faults disk.no_faults
           " c1 " "eth0" "c2" "eth1" fixture.ip_10_2 "0" "1" ∅).
  vm_compute. reflexivity.
Defined.

(** C6, as stated, fails when the removal fails too: [Reserve] does not
    look at the error of [os.Remove].  With a write that stops after three
    bytes and a removal that is refused, the reservation file stays with
    the three bytes that were written. *)
Lemma reserve_failed_write_leaves_partial_file :
  let flt := {| disk.open_fault := None;
                disk.write_fault := Some (3, ErrIO 28);
                disk.close_fault := None;
                disk.remove_fault := Some (ErrIO 13);
                disk.last_fault := None |} in
  (∅ : Dir) !! "10.10.10.2" = None
  ∧ disk.open_fault flt = None
  ∧ is_Some (disk.write_fault flt)
  ∧ disk.Reserve (L := fixture.lib) flt "c1" "eth0" fixture.ip_10_2 "0" ∅
    = (<["10.10.10.2" := String "c" (String "1" (String "013" ""))]> ∅,
       (false, Some (ErrIO 28))).
Proof.
  split; [reflexivity|]. split; [reflexivity|]. split; [by eexists|].
  vm_compute. reflexivity.
Qed.

(** C6, amended.  When [Reserve] has created the reservation file and the
    write of the owner id and interface name fails, or the close of the
    file does, [Reserve] removes the file and returns the error of the
    write or of the close, whatever the removal does.  When the removal
    works, the directory is again what it was before the call, with no
    file for the address; when the removal fails, the file stays with
    what was written of it. *)
Theorem reserve_failed_write_removes_file {L : GoLib} flt id ifname
    (ip : IP) rangeID (d : Dir) :
  d !! disk.GetEscapedPath (IP_String ip) = None →
  disk.open_fault flt = None →
  is_Some (disk.write_fault flt) ∨ is_Some (disk.close_fault flt) →
  ∃ d' e,
    disk.Reserve flt id ifname ip rangeID d = (d', (false, Some e))
    ∧ (disk.write_fault flt = None → disk.close_fault flt = Some e)
    ∧ (∀ n e', disk.write_fault flt = Some (n, e') → e = e')
    ∧ (disk.remove_fault flt = None →
       d' !! disk.GetEscapedPath (IP_String ip) = None ∧ d' = d)
    ∧ (is_Some (disk.remove_fault flt) →
       d' = <[disk.GetEscapedPath (IP_String ip)
              := match disk.write_fault flt with
                 | Some (n, _) =>
                     substring 0 n
                       (strings.TrimSpace id +:+ disk.LineBreak +:+ ifname)
                 | None => strings.TrimSpace id +:+ disk.LineBreak +:+ ifname
                 end]> d).
Proof.
  intros Hfree Hopen Hfail.
  unfold disk.Reserve, os.OpenFile_excl, os.WriteString, os.Close, os.Remove.
  rewrite Hfree, Hopen. cbn.
  destruct (disk.write_fault flt) as [[n e]|] eqn:Hw; cbn.
  - rewrite lookup_insert_eq. cbn.
    eexists _, e. split; [reflexivity|].
    split; [done|]. split; [by intros ?? [= _ <-]|].
    rewrite insert_insert_eq. split.
    + intros ->. rewrite delete_insert_eq.
      split; [by rewrite lookup_delete_None; left | by apply delete_id].
    + by intros [? ->].
  - destruct Hfail as [[? ?]|[e He]]; [done|]. rewrite He. cbn.
    rewrite lookup_insert_eq. cbn.
    eexists _, e. split; [reflexivity|].
    split; [done|]. split; [done|].
    rewrite insert_insert_eq. split.
    + intros ->. rewrite delete_insert_eq.
      split; [by rewrite lookup_delete_None; left | by apply delete_id].
    + by intros [? ->].
Qed.

Lemma reserve_failed_write_removes_file_witness :
  ∃ d' e,
    disk.Reserve (L := fixture.lib)
      {| disk.open_fault := None; disk.write_fault := Some (3, ErrIO 28);
         disk.close_fault := None; disk.remove_fault := None;
         disk.last_fault := None |}
      "c1" "eth0" fixture.ip_10_2 "0" ∅ = (d', (false, Some e))
    ∧ e = ErrIO 28
    ∧ d' = ∅.
Proof.
  destruct (reserve_failed_write_removes_file (L := fixture.lib)
              {| disk.open_fault := None;
                 disk.write_fault := Some (3, ErrIO 28);
                 disk.close_fault := None; disk.remove_fault := None;
                 disk.last_fault := None |}
              "c1" "eth0" fixture.ip_10_2 "0" ∅)
    as (d' & e & Hres & _ & He & Hclean & _).
  - reflexivity.
  - reflexivity.
  - left. eexists. reflexivity.
  - exists d', e. split; [exact Hres|].
    split; [exact (He 3 (ErrIO 28) eq_refl)|].
    exact (proj2 (Hclean eq_refl)).
Defined.


(* --------------------------------------------------------------------- *)
(** ** The sticky-identity index: lookup *)
(* --------------------------------------------------------------------- *)

Lemma Split_length s c :
  length (strings.Split s c) = S (strings.Count s c).
Proof.
  induction s as [|x s IH]; [reflexivity|].
  cbn [strings.Split strings.Count].
  destruct (Ascii.eqb x c); cbn [length]; [by rewrite IH|].
  destruct (strings.Split s c); cbn in *; lia.
Qed.

Lemma malformed_single_match fName :
  length (strings.Split fName "_") ≠ 4%nat →
  (strings.Count fName "_" =? 3)%nat = false.
Proof.
  rewrite Split_length. intros Hne. apply Nat.eqb_neq. lia.
Qed.

(** C7. Whatever the identity and the directory, when the glob of the
    lookup pattern returns more than one name, or a single name that does
    not split into exactly four ['_']-delimited parts, [findPodFileName]
    returns the empty name and no error, [HasReservedIP] reports that
    nothing is reserved and [hasReservedMAC] returns no address and no
    error, in the IP store and in the MAC store alike. *)
Theorem sticky_lookup_tolerates_bad_state {L : GoLib} (ns name : string) :
  (∀ (d : Dir) podFiles,
     Glob d (disk.GetEscapedPath ("ip_*_" +:+ ns +:+ "_" +:+ name))
     = (podFiles, None) →
     sticky.ambiguous_or_malformed podFiles →
     disk.findPodFileName "" ns name d = ("", None)
     ∧ disk.HasReservedIP ns name d = (false, None))
  ∧ (∀ (d : Dir) podFiles,
     Glob d (disk.GetEscapedPath ("mac_*_" +:+ ns +:+ "_" +:+ name))
     = (podFiles, None) →
     sticky.ambiguous_or_malformed podFiles →
     bridge.findPodFileName "" ns name d = ("", None)
     ∧ bridge.hasReservedMAC ns name d = (None, None)).
Proof.
  split; intros d podFiles Hglob Hbad.
  - assert (disk.findPodFileName "" ns name d = ("", None)) as Hfind.
    { unfold disk.findPodFileName. cbn [String.length Nat.eqb negb].
      destruct (negb (String.length ns =? 0)%nat
                && negb (String.length name =? 0)%nat); [|done].
      rewrite Hglob.
      destruct Hbad as [Hmany|(fName & -> & Hparts)].
      + destruct podFiles as [|? [|? ?]]; cbn in Hmany; try lia; done.
      + by rewrite malformed_single_match. }
    split; [done|]. unfold disk.HasReservedIP. rewrite Hfind.
    by destruct (String.length name =? 0)%nat.
  - assert (bridge.findPodFileName "" ns name d = ("", None)) as Hfind.
    { unfold bridge.findPodFileName. cbn [String.length Nat.eqb negb].
      destruct (negb (String.length ns =? 0)%nat
                && negb (String.length name =? 0)%nat); [|done].
      rewrite Hglob.
      destruct Hbad as [Hmany|(fName & -> & Hparts)].
      + destruct podFiles as [|? [|? ?]]; cbn in Hmany; try lia; done.
      + by rewrite malformed_single_match. }
    split; [done|]. unfold bridge.hasReservedMAC. rewrite Hfind.
    by destruct (String.length name =? 0)%nat.
Qed.

Lemma sticky_lookup_tolerates_bad_state_witness :
  let two : Dir := <["ip_10.10.10.1_NS1_pod1" := ""]>
                     (<["ip_10.10.10.2_NS1_pod1" := ""]> ∅) in
  let odd : Dir := <["mac_02-42_af_NS1_pod1" := ""]> ∅ in
  (disk.findPodFileName (L := fixture.lib) "" "NS1" "pod1" two = ("", None)
   ∧ disk.HasReservedIP (L := fixture.lib) "NS1" "pod1" two = (false, None))
  ∧ (bridge.findPodFileName (L := fixture.lib) "" "NS1" "pod1" odd = ("", None)
     ∧ bridge.hasReservedMAC (L := fixture.lib) "NS1" "pod1" odd
       = (None, None)).
Proof.
  destruct (sticky_lookup_tolerates_bad_state (L := fixture.lib) "NS1" "pod1")
    as [Hip Hmac].
  split.
  - eapply Hip; [vm_compute; reflexivity|]. left. cbn. lia.
  - eapply Hmac; [vm_compute; reflexivity|]. right.
    eexists. split; [reflexivity|]. vm_compute. lia.
Defined.


(* --------------------------------------------------------------------- *)
(** ** The reservation database: expiry *)
(* --------------------------------------------------------------------- *)

Section Expiry.
Context {R : Type} `{database.Model R}.

Lemma int64_small z :
  (- 2 ^ 63 ≤ z < 2 ^ 63)%Z → database.int64 z = z.
Proof.
  intros Hz. unfold database.int64.
  rewrite Z.mod_small; lia.
Qed.

(** Within 106751 days the product fits a [Duration]. *)
Lemma horizon_exact now days :
  (- 106751 ≤ days ≤ 106751)%Z →
  database.horizon now days = (now - days * expiry.day)%Z.
Proof.
  intros Hd. unfold database.horizon, expiry.day, database.Hour.
  rewrite (int64_small days) by lia.
  rewrite (int64_small (- days)) by lia.
  rewrite (int64_small (- days * 24)) by lia.
  rewrite int64_small by lia. lia.
Qed.

Lemma purge_removes_iff (tbl : list R) now days N r :
  (- 106751 ≤ days ≤ 106751)%Z →
  r ∈ tbl →
  database.Deleted (database.base r) = true →
  database.UpdatedAt (database.base r) = (now - N * expiry.day)%Z →
  r ∉ (database.PurgeExpired None now days tbl).1 ↔ (days < N)%Z.
Proof.
  intros Hd Hin Hdel Hupd.
  unfold database.PurgeExpired, database.Delete. cbn [fst].
  rewrite list_elem_of_filter.
  unfold database.expired. rewrite Hdel, Hupd, horizon_exact by done.
  cbn [Bool.eqb andb]. unfold expiry.day, database.Hour.
  destruct (Z.ltb_spec (now - N * (24 * (3600 * 1000000000)))
              (now - days * (24 * (3600 * 1000000000)))) as [Hlt|Hge].
  - split; [lia|]. intros _ [? _]. done.
  - split; [|lia]. intros Hnot. destruct Hnot. done.
Qed.

Lemma purge_keeps_live flt (tbl : list R) now days r :
  r ∈ tbl →
  database.Deleted (database.base r) = false →
  r ∈ (database.PurgeExpired flt now days tbl).1.
Proof.
  intros Hin Hlive.
  unfold database.PurgeExpired, database.Delete.
  destruct flt; cbn [fst]; [done|].
  apply list_elem_of_filter. split; [|done].
  unfold database.expired. by rewrite Hlive.
Qed.
End Expiry.

(** C5, as stated, fails where the retention in nanoseconds no longer fits
    a [Duration]: with 106752 days the product wraps around to a positive
    duration, the horizon lies in the future, and a row tombstoned one day
    ago is removed although 106752 is not below 1. *)
Lemma purge_expired_wraps_around :
  expiry.tombstone ∈ [expiry.tombstone]
  ∧ database.Deleted (database.base expiry.tombstone) = true
  ∧ database.UpdatedAt (database.base expiry.tombstone)
    = (expiry.now - 1 * expiry.day)%Z
  ∧ ¬ (expiry.tombstone
         ∉ (database.PurgeExpiredIPs None expiry.now 106752
              [expiry.tombstone]).1
       ↔ (106752 < 1)%Z).
Proof.
  split; [by left|]. split; [reflexivity|]. split; [reflexivity|].
  intros [Hremoved _].
  assert ((database.PurgeExpiredIPs None expiry.now 106752
             [expiry.tombstone]).1 = []) as Hempty by (vm_compute; reflexivity).
  rewrite Hempty in Hremoved.
  specialize (Hremoved (not_elem_of_nil _)). lia.
Qed.

(** C5, amended.  For a retention of at most 106751 days (either sign), a
    tombstoned row last written [N] days before the current time is removed
    by a [PurgeExpiredIPs] or [PurgeExpiredMACs] that succeeds if and only
    if [days < N]; and no such call, for any number of days and whether it
    succeeds or fails, removes a row that is not tombstoned. *)
Theorem purge_expired_contract :
  (∀ (tbl : list database.ReservedIP) now days N r,
     (- 106751 ≤ days ≤ 106751)%Z →
     r ∈ tbl →
     database.Deleted (database.base r) = true →
     database.UpdatedAt (database.base r) = (now - N * expiry.day)%Z →
     r ∉ (database.PurgeExpiredIPs None now days tbl).1 ↔ (days < N)%Z)
  ∧ (∀ (tbl : list database.ReservedMAC) now days N r,
     (- 106751 ≤ days ≤ 106751)%Z →
     r ∈ tbl →
     database.Deleted (database.base r) = true →
     database.UpdatedAt (database.base r) = (now - N * expiry.day)%Z →
     r ∉ (database.PurgeExpiredMACs None now days tbl).1 ↔ (days < N)%Z)
  ∧ (∀ flt (tbl : list database.ReservedIP) now days r,
     r ∈ tbl →
     database.Deleted (database.base r) = false →
     r ∈ (database.PurgeExpiredIPs flt now days tbl).1)
  ∧ (∀ flt (tbl : list database.ReservedMAC) now days r,
     r ∈ tbl →
     database.Deleted (database.base r) = false →
     r ∈ (database.PurgeExpiredMACs flt now days tbl).1).
Proof.
  repeat split.
  - by apply purge_removes_iff.
  - by apply purge_removes_iff.
  - by apply purge_removes_iff.
  - by apply purge_removes_iff.
  - intros. by apply purge_keeps_live.
  - intros. by apply purge_keeps_live.
Qed.

Lemma purge_expired_contract_witness :
  (expiry.tombstone
     ∉ (database.PurgeExpiredIPs None expiry.now 0 [expiry.tombstone]).1
   ↔ (0 < 1)%Z)
  ∧ (expiry.tombstone_mac
       ∉ (database.PurgeExpiredMACs None expiry.now 1
            [expiry.tombstone_mac]).1
     ↔ (1 < 2)%Z).
Proof.
  destruct purge_expired_contract as (Hip & Hmac & _ & _).
  split.
  - apply Hip; [lia | by left | reflexivity | reflexivity].
  - apply Hmac; [lia | by left | reflexivity | reflexivity].
Defined.


(* --------------------------------------------------------------------- *)
(** ** The reservation database: saving one family of a dual-stack pod *)
(* --------------------------------------------------------------------- *)

Section SaveIP.
Context {L : GoLib}.
Implicit Types (tbl : list database.ReservedIP) (r : database.ReservedIP).

Lemma find_app_None {A} (f : A → bool) (l : list A) x :
  find f l = None → find f (l ++ [x]) = find f [x].
Proof.
  induction l as [|y l IH]; [done|]. cbn.
  destruct (f y); [done|]. exact IH.
Qed.

Lemma next_id_nonzero tbl : database.next_id tbl ≠ 0%N.
Proof. unfold database.next_id. lia. Qed.

(** Saving a record that carries the key of the row found for its identity
    makes [Take] find the saved fields. *)
Lemma find_after_update ns name now r tbl r0 :
  find (database.identified ns name) tbl = Some r0 →
  database.ID (database.base r) = database.ID (database.base r0) →
  database.Namespace (database.base r) = ns →
  database.Name (database.base r) = name →
  let saved := database.stamp (database.ID (database.base r))
                 (database.CreatedAt (database.base r)) now r in
  find (database.identified ns name)
    (map (λ x, if (database.ID (database.base x)
                   =? database.ID (database.base r))%N
               then saved else x) tbl)
  = Some saved
  ∧ existsb (λ x, (database.ID (database.base x)
                   =? database.ID (database.base r))%N) tbl = true.
Proof.
  intros Hfind Hid Hns Hname saved.
  assert (database.identified ns name saved = true) as Hsaved.
  { unfold database.identified, saved. cbn in Hns, Hname |- *.
    rewrite Hns, Hname. by rewrite !String.eqb_refl. }
  induction tbl as [|x tbl IH]; [discriminate|].
  cbn [find map existsb] in *.
  destruct (N.eqb_spec (database.ID (database.base x))
              (database.ID (database.base r))) as [Heq|Hne].
  - rewrite Hsaved. done.
  - destruct (database.identified ns name x) eqn:Hx.
    + injection Hfind as ->. congruence.
    + cbn. by apply IH.
Qed.

Lemma Take_found ns name tbl r0 :
  find (database.identified ns name) tbl = Some r0 →
  database.Take None ns name tbl = (r0, None).
Proof. intros Hfind. unfold database.Take. by rewrite Hfind. Qed.

Lemma find_identified ns name tbl r0 :
  find (database.identified ns name) tbl = Some r0 →
  r0 ∈ tbl ∧ database.Namespace (database.base r0) = ns
  ∧ database.Name (database.base r0) = name.
Proof.
  intros Hfind. apply find_some in Hfind as [Hin Hid].
  apply list_elem_of_In in Hin.
  unfold database.identified in Hid.
  apply andb_true_iff in Hid as [Hns%String.eqb_eq Hname%String.eqb_eq].
  done.
Qed.

Lemma Save_valid now r tbl :
  keys.valid tbl → keys.valid (database.Save None now r tbl).1.
Proof.
  intros Hvalid. unfold database.Save, database.create. cbn [fst].
  destruct (N.eqb_spec (database.ID (database.base r)) 0) as [Hz|Hnz].
  - apply Forall_app. split; [done|]. constructor; [|constructor].
    cbn. apply next_id_nonzero.
  - destruct (existsb _ tbl); cbn [fst].
    + unfold keys.valid. rewrite Forall_map.
      eapply Forall_impl; [exact Hvalid|]. intros x Hx. cbn beta.
      destruct (_ =? _)%N; [exact Hnz|exact Hx].
    + apply Forall_app. split; [done|]. constructor; [|constructor].
      exact Hnz.
Qed.

Lemma OpenDB_host_local fault network dataDir :
  database.OpenDB fault network dataDir database.PluginHostLocal = fault.
Proof. reflexivity. Qed.

Lemma OpenDB_bridge fault network dataDir :
  database.OpenDB fault network dataDir database.PluginBridge = fault.
Proof. reflexivity. Qed.

Lemma Take_missing ns name tbl :
  find (database.identified ns name) tbl = None →
  database.Take None ns name tbl = (database.zero, Some ErrRecordNotFound).
Proof. intros Hfind. unfold database.Take. by rewrite Hfind. Qed.

(** What [saveIP] leaves for the identity when the database answers. *)
Lemma saveIP_saved now ns name network dataDir (ip : IP) tbl :
  name ≠ "" →
  keys.valid tbl →
  ∃ r,
    database.GetReservedIP None ns name
      (allocator.saveIP database.db_ok now ns name network dataDir ip tbl)
    = (r, None)
    ∧ database.IPv4 r
      = (if bool_decide (IP_To4 ip ≠ None) then IP_String ip
         else database.IPv4 (database.GetReservedIP None ns name tbl).1)
    ∧ database.IPv6 r
      = (if bool_decide (IP_To4 ip ≠ None)
         then database.IPv6 (database.GetReservedIP None ns name tbl).1
         else IP_String ip)
    ∧ database.Deleted (database.base r) = false
    ∧ keys.valid
        (allocator.saveIP database.db_ok now ns name network dataDir ip tbl).
Proof.
  intros Hname Hvalid.
  unfold allocator.saveIP.
  destruct (String.length name =? 0)%nat eqn:Hlen.
  { destruct name; [done|discriminate]. }
  rewrite OpenDB_host_local.
  unfold database.GetReservedIP, database.ReserveIP.
  cbn [database.db_ok database.db_open database.db_take database.db_save].
  destruct (find (database.identified ns name) tbl) as [r0|] eqn:Hfind.
  - (* the identity has a row: it is updated in place *)
    rewrite (Take_found _ _ _ _ Hfind).
    rewrite bool_decide_eq_false_2 by (intros Hne; by apply Hne).
    cbn [andb fst].
    destruct (find_identified _ _ _ _ Hfind) as (Hin & Hns & Hnm).
    assert (database.ID (database.base r0) ≠ 0%N) as Hkey.
    { unfold keys.valid in Hvalid. rewrite Forall_forall in Hvalid.
      by apply Hvalid. }
    set (new := {| database.IPv4 := _ |}).
    assert (database.ID (database.base new)
            = database.ID (database.base r0)) as Hid by reflexivity.
    destruct (find_after_update ns name now new tbl r0 Hfind Hid eq_refl eq_refl)
      as [Hfound Hexists].
    assert ((database.Save None now new tbl).1
            = map (λ x, if (database.ID (database.base x)
                            =? database.ID (database.base new))%N
                        then database.stamp (database.ID (database.base new))
                               (database.CreatedAt (database.base new)) now new
                        else x) tbl) as Hsave.
    { unfold database.Save. rewrite Hexists.
      destruct (N.eqb_spec (database.ID (database.base new)) 0) as [Hz|_];
        [congruence|done]. }
    eexists. split.
    { rewrite Hsave. apply Take_found. exact Hfound. }
    split; [reflexivity|]. split; [reflexivity|]. split; [reflexivity|].
    by apply Save_valid.
  - (* no row yet: one is created *)
    rewrite (Take_missing _ _ _ Hfind).
    cbn [database.IsNotFoundErr negb andb fst]. rewrite andb_false_r.
    set (new := {| database.IPv4 := _ |}).
    assert ((database.Save None now new tbl).1
            = database.create now (database.next_id tbl) new tbl) as Hsave
      by reflexivity.
    eexists. split.
    { rewrite Hsave. apply Take_found. unfold database.create.
      rewrite find_app_None by done. cbn [find].
      assert (database.identified ns name
                (database.stamp (database.next_id tbl)
                   (database.or_now now (database.CreatedAt (database.base new)))
                   (database.or_now now (database.UpdatedAt (database.base new)))
                   new) = true) as ->; [|reflexivity].
      unfold database.identified. cbn. by rewrite !String.eqb_refl. }
    split; [reflexivity|]. split; [reflexivity|]. split; [reflexivity|].
    by apply Save_valid.
Qed.
End SaveIP.

(** C9. [saveIP] writes the text of the address into the field of its
    family only.  With the database answering and a table of valid keys:
    after saving an IPv4 address the record of the identity holds it as
    [IPv4] and has the [IPv6] string it had before, after saving an IPv6
    address it holds it as [IPv6] and has the [IPv4] string it had before;
    hence after saving one address of each family, in either order, the
    record holds both. *)
Theorem saveIP_updates_one_family {L : GoLib} now ns name network dataDir
    (ip : IP) (tbl : list database.ReservedIP) :
  name ≠ "" →
  keys.valid tbl →
  let old := (database.GetReservedIP None ns name tbl).1 in
  let tbl1 := allocator.saveIP database.db_ok now ns name network dataDir
                ip tbl in
  ∃ r,
    database.GetReservedIP None ns name tbl1 = (r, None)
    ∧ (IP_To4 ip ≠ None →
       database.IPv4 r = IP_String ip
       ∧ database.IPv6 r = database.IPv6 old)
    ∧ (IP_To4 ip = None →
       database.IPv6 r = IP_String ip
       ∧ database.IPv4 r = database.IPv4 old)
    ∧ ∀ now' (ip' : IP),
        ∃ r',
          database.GetReservedIP None ns name
            (allocator.saveIP database.db_ok now' ns name network dataDir
               ip' tbl1)
          = (r', None)
          ∧ (IP_To4 ip ≠ None → IP_To4 ip' = None →
             database.IPv4 r' = IP_String ip
             ∧ database.IPv6 r' = IP_String ip')
          ∧ (IP_To4 ip = None → IP_To4 ip' ≠ None →
             database.IPv4 r' = IP_String ip'
             ∧ database.IPv6 r' = IP_String ip).
Proof.
  intros Hname Hvalid old tbl1.
  destruct (saveIP_saved now ns name network dataDir ip tbl Hname Hvalid)
    as (r & Hget & H4 & H6 & _ & Hvalid1).
  fold tbl1 in Hget, Hvalid1. fold old in H4, H6.
  exists r. split; [exact Hget|].
  split; [|split].
  - intros Hv4. rewrite H4, H6.
    by rewrite bool_decide_eq_true_2.
  - intros Hv6. rewrite H4, H6.
    by rewrite bool_decide_eq_false_2 by (intros Hne; by apply Hne).
  - intros now' ip'.
    destruct (saveIP_saved now' ns name network dataDir ip' tbl1 Hname Hvalid1)
      as (r' & Hget' & H4' & H6' & _ & _).
    rewrite Hget in H4', H6'. cbn [fst] in H4', H6'.
    exists r'. split; [exact Hget'|]. split.
    + intros Hv4 Hv6'. rewrite H4', H6', H4.
      rewrite (bool_decide_eq_false_2 (IP_To4 ip' ≠ None))
        by (intros Hne; by apply Hne).
      by rewrite bool_decide_eq_true_2.
    + intros Hv6 Hv4'. rewrite H4', H6', H6.
      rewrite (bool_decide_eq_true_2 (IP_To4 ip' ≠ None)) by done.
      by rewrite bool_decide_eq_false_2 by (intros Hne; by apply Hne).
Qed.

Lemma saveIP_updates_one_family_witness :
  let tbl1 := allocator.saveIP (L := fixture.lib) database.db_ok expiry.now
                "NS2" "pod2" "net" "" fixture.ip_10_2 [] in
  ∃ r,
    database.GetReservedIP None "NS2" "pod2" tbl1 = (r, None)
    ∧ (Some fixture.ip_10_2 ≠ None →
       database.IPv4 r = "10.10.10.2" ∧ database.IPv6 r = "")
    ∧ (Some fixture.ip_10_2 = None →
       database.IPv6 r = "10.10.10.2" ∧ database.IPv4 r = "")
    ∧ ∀ now' (ip' : fixture.addr),
        ∃ r',
          database.GetReservedIP None "NS2" "pod2"
            (allocator.saveIP (L := fixture.lib) database.db_ok now'
               "NS2" "pod2" "net" "" ip' tbl1)
          = (r', None)
          ∧ (Some fixture.ip_10_2 ≠ None → fixture.addr_To4 ip' = None →
             database.IPv4 r' = "10.10.10.2"
             ∧ database.IPv6 r' = fixture.addr_String ip')
          ∧ (Some fixture.ip_10_2 = None → fixture.addr_To4 ip' ≠ None →
             database.IPv4 r' = fixture.addr_String ip'
             ∧ database.IPv6 r' = "10.10.10.2").
Proof.
  apply (saveIP_updates_one_family (L := fixture.lib) expiry.now
           "NS2" "pod2" "net" "" fixture.ip_10_2 []).
  - discriminate.
  - constructor.
Defined.


(* --------------------------------------------------------------------- *)
(** ** The allocation orchestrator *)
(* --------------------------------------------------------------------- *)

Section Orchestrator.
Context {L : GoLib}.
Variable Get : string → string → option IP → Dir → Dir * allocator.Allocation.

Lemma getIP_lookup_fails flt rangeset ns name network dataDir tbl :
  policy.lookup_fails flt →
  allocator.getIP flt rangeset ns name network dataDir tbl = None.
Proof.
  intros Hfail. unfold allocator.getIP.
  destruct (String.length name =? 0)%nat; [done|].
  rewrite OpenDB_host_local.
  destruct (database.db_open flt) as [e|] eqn:Hopen; [done|].
  destruct Hfail as [[? ?]|[e He]]; [congruence|].
  unfold database.GetReservedIP, database.Take. rewrite He.
  by destruct (database.IsNotFoundErr (Some e)).
Qed.

Lemma getIP_no_record flt rangeset ns name network dataDir :
  allocator.getIP flt rangeset ns name network dataDir [] = None.
Proof.
  unfold allocator.getIP.
  destruct (String.length name =? 0)%nat; [done|].
  rewrite OpenDB_host_local.
  destruct (database.db_open flt); [done|].
  unfold database.GetReservedIP, database.Take.
  destruct (database.db_take flt) as [[]|]; reflexivity.
Qed.

(** [GetIP] hands back what [Get] returned for the candidate address, and
    the reservation files as [Get] left them. *)
Lemma GetIP_is_Get fg fs now rangeset network dataDir envArgs id ifname
    requestedIP (w : allocator.World) :
  let '(ns, name, _) := utils.ResolvePodNSAndNameFromEnvArgs envArgs in
  let knownIP :=
    if (String.length name =? 0)%nat then requestedIP
    else match allocator.getIP fg rangeset ns name network dataDir
                 (allocator.reserved w) with
         | Some k => Some k
         | None => requestedIP
         end in
  let out := allocator.GetIP Get fg fs now rangeset network dataDir envArgs
               id ifname requestedIP w in
  (allocator.files out.1, out.2)
  = Get id ifname knownIP (allocator.files w).
Proof.
  unfold allocator.GetIP.
  destruct (utils.ResolvePodNSAndNameFromEnvArgs envArgs) as [[ns name] err].
  destruct (String.length name =? 0)%nat.
  - by destruct (Get id ifname requestedIP (allocator.files w)).
  - destruct (allocator.getIP fg rangeset ns name network dataDir
                (allocator.reserved w)) as [k|].
    + by destruct (Get id ifname (Some k) (allocator.files w)) as [d []].
    + by destruct (Get id ifname requestedIP (allocator.files w)) as [d []].
Qed.
End Orchestrator.

(** C2, as stated, fails: the pod's reserved address 10.10.10.2 is found,
    its reservation file is held by another owner, an unconstrained search
    of the range would allocate 10.10.10.1, and [GetIP] returns the failure
    of the forced allocation. *)
Lemma GetIP_does_not_fall_back :
  allocator.getIP (L := fixture.lib) database.db_ok scenario.rangeset
    "NS2" "pod2" "net" "" (allocator.reserved scenario.world)
  = Some fixture.ip_10_2
  ∧ (fixture.Get (L := fixture.lib) "0" scenario.candidates "c9" "eth0" None
       (allocator.files scenario.world)).2
    = allocator.Allocated (scenario.config fixture.ip_10_1)
  ∧ (allocator.GetIP (L := fixture.lib)
       (fixture.Get (L := fixture.lib) "0" scenario.candidates)
       database.db_ok database.db_ok expiry.now scenario.rangeset
       "net" "" scenario.envArgs "c9" "eth0" None scenario.world).2
    = allocator.Failed None
        (Errorf "requested IP address %s is not available" ["10.10.10.2"]).
Proof. vm_compute. auto. Qed.

(** C2, amended.  When a sticky address is found for the identity and the
    allocation with that forced address fails, [GetIP] returns that failure
    to the caller unchanged: [Get] is run once, with the sticky address, the
    reservation files are as it left them, and the table of reserved IPs is
    not written. *)
Theorem GetIP_returns_forced_failure {L : GoLib}
    (Get : string → string → option IP → Dir → Dir * allocator.Allocation)
    fg fs now rangeset network dataDir envArgs id ifname requestedIP
    (w : allocator.World) ns name uerr known d' ipCfg err :
  utils.ResolvePodNSAndNameFromEnvArgs envArgs = (ns, name, uerr) →
  name ≠ "" →
  allocator.getIP fg rangeset ns name network dataDir (allocator.reserved w)
  = Some known →
  Get id ifname (Some known) (allocator.files w)
  = (d', allocator.Failed ipCfg err) →
  allocator.GetIP Get fg fs now rangeset network dataDir envArgs
    id ifname requestedIP w
  = ({| allocator.files := d'; allocator.reserved := allocator.reserved w |},
     allocator.Failed ipCfg err).
Proof.
  intros Hargs Hname Hknown Hget. unfold allocator.GetIP.
  rewrite Hargs.
  destruct (String.length name =? 0)%nat eqn:Hlen.
  { destruct name; [done|discriminate]. }
  by rewrite Hknown, Hget.
Qed.

Lemma GetIP_returns_forced_failure_witness :
  allocator.GetIP (L := fixture.lib)
    (fixture.Get (L := fixture.lib) "0" scenario.candidates)
    database.db_ok database.db_ok expiry.now scenario.rangeset
    "net" "" scenario.envArgs "c9" "eth0" None scenario.world
  = ({| allocator.files := scenario.taken;
        allocator.reserved := allocator.reserved scenario.world |},
     allocator.Failed None
       (Errorf "requested IP address %s is not available" ["10.10.10.2"])).
Proof.
  apply (GetIP_returns_forced_failure (L := fixture.lib)
           (fixture.Get (L := fixture.lib) "0" scenario.candidates)
           database.db_ok database.db_ok expiry.now scenario.rangeset
           "net" "" scenario.envArgs "c9" "eth0" None scenario.world
           "NS2" "pod2" None fixture.ip_10_2).
  - reflexivity.
  - discriminate.
  - reflexivity.
  - vm_compute. reflexivity.
Defined.

Section Release.
Context {L : GoLib}.

Lemma markDeletedIP_failure flt now network dataDir envArgs
    (tbl : list database.ReservedIP) :
  is_Some (database.db_open flt) ∨ is_Some (database.db_take flt)
  ∨ is_Some (database.db_save flt) →
  allocator.markDeletedIP flt now network dataDir envArgs tbl = tbl.
Proof.
  intros Hfail. unfold allocator.markDeletedIP.
  destruct (utils.ResolvePodNSAndNameFromEnvArgs envArgs) as [[ns name] err].
  destruct (String.length name =? 0)%nat; [done|].
  rewrite OpenDB_host_local.
  destruct (database.db_open flt) as [e|] eqn:Hopen; [done|].
  unfold database.GetReservedIP, database.ReserveIP, database.Take,
    database.Save.
  destruct (database.db_take flt) as [e|] eqn:Htake; [done|].
  destruct Hfail as [[? ?]|[[? ?]|[e He]]]; try congruence.
  rewrite He. by destruct (find _ tbl).
Qed.

Lemma ReleaseExpiredIPs_failure flt now network dataDir days
    (tbl : list database.ReservedIP) :
  is_Some (database.db_open flt) ∨ is_Some (database.db_purge flt) →
  allocator.ReleaseExpiredIPs flt now network dataDir days tbl = tbl.
Proof.
  intros Hfail. unfold allocator.ReleaseExpiredIPs.
  destruct (days =? 0)%Z; [done|].
  rewrite OpenDB_host_local.
  destruct (database.db_open flt) as [e|] eqn:Hopen; [done|].
  destruct Hfail as [[? ?]|[e He]]; [congruence|].
  unfold database.PurgeExpiredIPs, database.PurgeExpired, database.Delete.
  by rewrite He.
Qed.

Lemma getReservedMAC_failure flt now netConf envArgs
    (tbl : list database.ReservedMAC) :
  policy.lookup_fails flt →
  (bridge.getReservedMAC flt now netConf envArgs tbl).1 = netConf.
Proof.
  intros Hfail. unfold bridge.getReservedMAC.
  destruct (0 <? String.length (bridge.mac netConf))%nat; [done|].
  destruct (utils.ResolvePodNSAndNameFromEnvArgs envArgs) as [[ns name] err].
  destruct (String.length name =? 0)%nat; [done|].
  rewrite OpenDB_bridge.
  destruct (database.db_open flt) as [e|] eqn:Hopen; [done|].
  destruct Hfail as [[? ?]|[e He]]; [congruence|].
  unfold database.GetReservedMAC, database.Take. rewrite He.
  destruct e; reflexivity.
Qed.
End Release.

(** C3. Failures of the database never reach the caller and never change
    what the flat-file allocation does.  When the open or the query of the
    sticky lookup fails, [GetIP] returns what [Get] returns for the
    requested address, with the reservation files as [Get] left them: the
    outcome of a run with no record at all and a database in order.  A
    failure while saving changes neither the result nor the files, and
    what [GetIP] returns is in every case the result of its one call of
    [Get].  On the
    release path a failing open, query, save or purge leaves the table as
    it was, as for an identity without a record; and the bridge's lookup of
    a reserved MAC leaves the configuration without one. *)
Theorem database_failures_are_not_fatal {L : GoLib} :
  (∀ Get fg fs now rangeset network dataDir envArgs id ifname requestedIP
     (w : allocator.World),
     policy.lookup_fails fg →
     let out := allocator.GetIP Get fg fs now rangeset network dataDir
                  envArgs id ifname requestedIP w in
     let plain := allocator.GetIP Get database.db_ok database.db_ok now
                    rangeset network dataDir envArgs id ifname requestedIP
                    {| allocator.files := allocator.files w;
                       allocator.reserved := [] |} in
     (allocator.files out.1, out.2)
     = Get id ifname requestedIP (allocator.files w)
     ∧ (allocator.files out.1, out.2) = (allocator.files plain.1, plain.2))
  ∧ (∀ Get fg fs now rangeset network dataDir envArgs id ifname requestedIP
       (w : allocator.World),
       let out := allocator.GetIP Get fg fs now rangeset network dataDir
                    envArgs id ifname requestedIP w in
       let saved := allocator.GetIP Get fg database.db_ok now rangeset
                      network dataDir envArgs id ifname requestedIP w in
       (allocator.files out.1, out.2) = (allocator.files saved.1, saved.2)
       ∧ ∃ candidate,
           (allocator.files out.1, out.2)
           = Get id ifname candidate (allocator.files w))
  ∧ (∀ flt now network dataDir envArgs (tbl : list database.ReservedIP),
       is_Some (database.db_open flt) ∨ is_Some (database.db_take flt)
       ∨ is_Some (database.db_save flt) →
       allocator.markDeletedIP flt now network dataDir envArgs tbl = tbl)
  ∧ (∀ flt now network dataDir days (tbl : list database.ReservedIP),
       is_Some (database.db_open flt) ∨ is_Some (database.db_purge flt) →
       allocator.ReleaseExpiredIPs flt now network dataDir days tbl = tbl)
  ∧ (∀ flt now netConf envArgs (tbl : list database.ReservedMAC),
       policy.lookup_fails flt →
       (bridge.getReservedMAC flt now netConf envArgs tbl).1 = netConf).
Proof.
  split; [|split; [|split; [|split]]].
  - intros Get fg fs now rangeset network dataDir envArgs id ifname
      requestedIP w Hfail out plain.
    pose proof (GetIP_is_Get Get fg fs now rangeset network dataDir envArgs
                  id ifname requestedIP w) as Hout.
    pose proof (GetIP_is_Get Get database.db_ok database.db_ok now rangeset
                  network dataDir envArgs id ifname requestedIP
                  {| allocator.files := allocator.files w;
                     allocator.reserved := [] |}) as Hplain.
    destruct (utils.ResolvePodNSAndNameFromEnvArgs envArgs) as [[ns name] err].
    cbn [allocator.reserved allocator.files] in Hplain.
    rewrite getIP_lookup_fails in Hout by done.
    rewrite getIP_no_record in Hplain.
    fold out in Hout. fold plain in Hplain.
    destruct (String.length name =? 0)%nat; cbn zeta in Hout, Hplain;
      by rewrite Hout, Hplain.
  - intros Get fg fs now rangeset network dataDir envArgs id ifname
      requestedIP w out saved.
    pose proof (GetIP_is_Get Get fg fs now rangeset network dataDir envArgs
                  id ifname requestedIP w) as Hout.
    pose proof (GetIP_is_Get Get fg database.db_ok now rangeset network
                  dataDir envArgs id ifname requestedIP w) as Hsaved.
    destruct (utils.ResolvePodNSAndNameFromEnvArgs envArgs) as [[ns name] err].
    fold out in Hout. fold saved in Hsaved. cbn zeta in Hout, Hsaved.
    split; [by rewrite Hout, Hsaved|]. eauto.
  - intros. by apply markDeletedIP_failure.
  - intros. by apply ReleaseExpiredIPs_failure.
  - intros. by apply getReservedMAC_failure.
Qed.

Lemma database_failures_are_not_fatal_witness :
  let Get := fixture.Get (L := fixture.lib) "0" scenario.candidates in
  let out := allocator.GetIP (L := fixture.lib) Get scenario.db_down
               database.db_ok expiry.now scenario.rangeset "net" ""
               scenario.envArgs "c9" "eth0" None scenario.world in
  let plain := allocator.GetIP (L := fixture.lib) Get database.db_ok
                 database.db_ok expiry.now scenario.rangeset "net" ""
                 scenario.envArgs "c9" "eth0" None
                 {| allocator.files := scenario.taken;
                    allocator.reserved := [] |} in
  ((allocator.files out.1, out.2) = Get "c9" "eth0" None scenario.taken
   ∧ (allocator.files out.1, out.2) = (allocator.files plain.1, plain.2))
  ∧ allocator.markDeletedIP scenario.db_down expiry.now
      "net" "" scenario.envArgs [scenario.pod2] = [scenario.pod2].
Proof.
  destruct (database_failures_are_not_fatal (L := fixture.lib))
    as (Halloc & _ & Hmark & _ & _).
  split.
  - apply (Halloc (fixture.Get (L := fixture.lib) "0" scenario.candidates)
             scenario.db_down database.db_ok expiry.now scenario.rangeset
             "net" "" scenario.envArgs "c9" "eth0" None scenario.world).
    left. eexists. reflexivity.
  - apply Hmark. left. eexists. reflexivity.
Defined.


(* --------------------------------------------------------------------- *)
(** ** Package strings: trimming *)
(* --------------------------------------------------------------------- *)

Section TrimRunes.
Variable p1 : ascii → bool.
Variable p2 : ascii → ascii → bool.
Variable p3 : ascii → ascii → ascii → bool.

Local Abbreviation T := (strings.trim_runes p1 p2 p3).
Local Abbreviation w := (strings.rune_width p1 p2 p3).

Lemma trim_runes_step l :
  T l = if (w l =? 0)%nat then l else T (drop (w l) l).
Proof.
  destruct l as [|a [|b [|c t]]]; cbn; [done|..].
  - by destruct (p1 a).
  - destruct (p1 a); [done|]. by destruct (p2 a b).
  - destruct (p1 a); [done|]. destruct (p2 a b); [done|].
    by destruct (p3 a b c).
Qed.

Lemma rune_width_le l : w l ≤ length l.
Proof.
  destruct l as [|a [|b [|c t]]]; cbn; [lia|..].
  - destruct (p1 a); lia.
  - destruct (p1 a); [lia|]. destruct (p2 a b); lia.
  - destruct (p1 a); [lia|]. destruct (p2 a b); [lia|].
    destruct (p3 a b c); lia.
Qed.

(** Induction along the runs of [trim_runes]. *)
Lemma trim_runes_ind (P : list ascii → Prop) :
  (∀ l, w l = 0%nat → P l) →
  (∀ l, w l ≠ 0%nat → P (drop (w l) l) → P l) →
  ∀ l, P l.
Proof.
  intros Hstop Hstep l.
  remember (length l) as n eqn:Hn. revert l Hn.
  induction n as [n IH] using lt_wf_ind. intros l ->.
  destruct (decide (w l = 0%nat)) as [Hz|Hnz]; [by apply Hstop|].
  apply Hstep; [done|].
  apply (IH (length (drop (w l) l))); [|done].
  rewrite length_drop. pose proof (rune_width_le l). lia.
Qed.

Lemma trim_runes_width l : w (T l) = 0%nat.
Proof.
  induction l as [l Hz|l Hnz IH] using trim_runes_ind;
    rewrite trim_runes_step.
  - by rewrite Hz.
  - by destruct (Nat.eqb_spec (w l) 0).
Qed.

Lemma trim_runes_id l : w l = 0%nat → T l = l.
Proof. intros Hz. rewrite trim_runes_step. by rewrite Hz. Qed.

Lemma trim_runes_id_inv l : T l = l → w l = 0%nat.
Proof. intros Hid. rewrite <- Hid. apply trim_runes_width. Qed.

Lemma trim_runes_suffix l : ∃ pre, l = pre ++ T l.
Proof.
  induction l as [l Hz|l Hnz [pre IH]] using trim_runes_ind.
  - exists []. by rewrite trim_runes_id.
  - exists (take (w l) l ++ pre).
    rewrite (trim_runes_step l).
    destruct (Nat.eqb_spec (w l) 0) as [|_]; [done|].
    rewrite <- app_assoc, <- IH. by rewrite take_drop.
Qed.

(** A rune found at the front stays one when bytes are appended. *)
Lemma rune_width_app l l' : w l ≠ 0%nat → w (l ++ l') = w l.
Proof.
  destruct l as [|a [|b [|c t]]]; cbn; [done|..].
  - by destruct (p1 a).
  - destruct (p1 a); [done|]. by destruct (p2 a b).
  - destruct (p1 a); [done|]. by destruct (p2 a b).
Qed.

(** A byte that is in no rune of two or three bytes, placed after a
    sequence that does not start with a rune, does not make one. *)
Lemma rune_width_sep (q : ascii → bool) l s rest :
  (∀ a b, q b = true → p2 a b = false) →
  (∀ a b c, q b = true ∨ q c = true → p3 a b c = false) →
  w l = 0%nat → l ≠ [] → q s = true →
  w (l ++ s :: rest) = 0%nat.
Proof.
  intros Hq2 Hq3 Hz Hne Hs.
  destruct l as [|a [|b [|c t]]]; cbn in *; [done|..].
  - destruct (p1 a); [done|]. rewrite Hq2 by done.
    destruct rest; [done|]. by rewrite Hq3 by auto.
  - destruct (p1 a); [done|]. destruct (p2 a b); [done|].
    by rewrite Hq3 by auto.
  - done.
Qed.
End TrimRunes.

Section TrimSpace.

Local Abbreviation wL := (strings.rune_width strings.asciiSpace
                            strings.space2 strings.space3).
Local Abbreviation wR := (strings.rune_width strings.asciiSpace
                            (λ b a, strings.space2 a b)
                            (λ c b a, strings.space3 a b c)).

Ltac byte_facts :=
  apply not_true_is_false; intros ?;
  unfold strings.asciiSpace, strings.space2, strings.space3,
    strings.byte_is, strings.byte_in in *;
  repeat first [ rewrite andb_true_iff in * | rewrite orb_true_iff in *
               | rewrite N.eqb_eq in * | rewrite N.leb_le in * ];
  lia.

(** The bytes of the runes of two and three bytes are all above 0x7F. *)
Lemma space2_not_ascii a b :
  strings.asciiSpace a = true ∨ strings.asciiSpace b = true →
  strings.space2 a b = false.
Proof. intros Hs. byte_facts. Qed.

Lemma space3_not_ascii a b c :
  strings.asciiSpace a = true ∨ strings.asciiSpace b = true
  ∨ strings.asciiSpace c = true →
  strings.space3 a b c = false.
Proof. intros Hs. byte_facts. Qed.

Lemma list_ascii_of_append a b :
  list_ascii_of_string (a +:+ b)
  = list_ascii_of_string a ++ list_ascii_of_string b.
Proof. induction a as [|x a IH]; [done|]. simpl. by f_equal. Qed.

Lemma TrimSpace_list s :
  list_ascii_of_string (strings.TrimSpace s)
  = strings.TrimRight (strings.TrimLeft (list_ascii_of_string s)).
Proof. apply list_ascii_of_string_of_list_ascii. Qed.

(** The result of [TrimSpace] ends with no white-space rune... *)
Lemma TrimSpace_right_trimmed s :
  wR (rev (list_ascii_of_string (strings.TrimSpace s))) = 0.
Proof.
  rewrite TrimSpace_list. unfold strings.TrimRight.
  rewrite rev_involutive. apply trim_runes_width.
Qed.

(** ... and starts with none: it is a prefix of what [TrimLeft] left. *)
Lemma TrimSpace_left_trimmed s :
  wL (list_ascii_of_string (strings.TrimSpace s)) = 0.
Proof.
  rewrite TrimSpace_list.
  set (y := strings.TrimLeft (list_ascii_of_string s)).
  assert (wL y = 0) as Hy by apply trim_runes_width.
  unfold strings.TrimRight.
  destruct (trim_runes_suffix strings.asciiSpace
              (λ b a, strings.space2 a b) (λ c b a, strings.space3 a b c)
              (rev y)) as [pre Hpre].
  set (x := strings.trim_runes _ _ _ (rev y)) in *.
  assert (y = rev x ++ rev pre) as Hsplit.
  { rewrite <- rev_app_distr, <- Hpre. by rewrite rev_involutive. }
  destruct (decide (wL (rev x) = 0)) as [Hz|Hnz]; [done|].
  rewrite Hsplit, rune_width_app in Hy by done. done.
Qed.

Lemma TrimSpace_fixed s :
  wL (list_ascii_of_string s) = 0 →
  wR (rev (list_ascii_of_string s)) = 0 →
  strings.TrimSpace s = s.
Proof.
  intros Hl Hr. unfold strings.TrimSpace, strings.TrimLeft, strings.TrimRight.
  rewrite (trim_runes_id _ _ _ _ Hl), (trim_runes_id _ _ _ _ Hr).
  rewrite rev_involutive. apply string_of_list_ascii_of_string.
Qed.

Lemma no_trailing_space_width ifname :
  owner.no_trailing_space ifname →
  wR (rev (list_ascii_of_string ifname)) = 0.
Proof.
  unfold owner.no_trailing_space, strings.TrimRight. intros Hid.
  apply trim_runes_id_inv.
  rewrite <- (rev_involutive (strings.trim_runes _ _ _ _)).
  by rewrite Hid.
Qed.

Lemma list_ascii_nonempty s : s ≠ "" → list_ascii_of_string s ≠ [].
Proof. by destruct s. Qed.

(** What [Reserve] writes for a non-empty trimmed id and an interface name
    that does not end in white space is left as it is by [TrimSpace]... *)
Lemma TrimSpace_written id ifname :
  strings.TrimSpace id ≠ "" →
  ifname ≠ "" →
  owner.no_trailing_space ifname →
  strings.TrimSpace (strings.TrimSpace id +:+ disk.LineBreak +:+ ifname)
  = strings.TrimSpace id +:+ disk.LineBreak +:+ ifname.
Proof.
  intros Hid Hif Htrail. apply TrimSpace_fixed.
  - rewrite list_ascii_of_append. cbn [disk.LineBreak String.append
      list_ascii_of_string].
    apply (rune_width_sep _ _ _ strings.asciiSpace).
    + intros a b Hb. apply space2_not_ascii. by right.
    + intros a b c [Hb|Hc]; apply space3_not_ascii; auto.
    + apply TrimSpace_left_trimmed.
    + by apply list_ascii_nonempty.
    + reflexivity.
  - rewrite !list_ascii_of_append. cbn [disk.LineBreak list_ascii_of_string].
    rewrite !rev_app_distr. cbn [rev app]. rewrite <- !app_assoc.
    cbn [app].
    apply (rune_width_sep _ _ _ strings.asciiSpace).
    + intros a b Hb. apply space2_not_ascii. by left.
    + intros a b c [Hb|Hc]; apply space3_not_ascii; auto.
    + by apply no_trailing_space_width.
    + intros Hnil. apply (list_ascii_nonempty ifname Hif).
      by rewrite <- (rev_involutive (list_ascii_of_string ifname)), Hnil.
    + reflexivity.
Qed.

(** ... and with an empty interface name it is trimmed to the id alone. *)
Lemma TrimSpace_written_legacy id :
  strings.TrimSpace id ≠ "" →
  strings.TrimSpace (strings.TrimSpace id +:+ disk.LineBreak +:+ "")
  = strings.TrimSpace id.
Proof.
  intros Hid.
  etransitivity;
    [|apply (string_of_list_ascii_of_string (strings.TrimSpace id))].
  unfold strings.TrimSpace at 1. f_equal.
  rewrite list_ascii_of_append.
  change (list_ascii_of_string (disk.LineBreak +:+ ""))
    with ["013"%char; "010"%char].
  unfold strings.TrimLeft.
  rewrite trim_runes_id.
  2:{ apply (rune_width_sep _ _ _ strings.asciiSpace).
      - intros a b Hb. apply space2_not_ascii. by right.
      - intros a b c [Hb|Hc]; apply space3_not_ascii; auto.
      - apply TrimSpace_left_trimmed.
      - by apply list_ascii_nonempty.
      - reflexivity. }
  unfold strings.TrimRight. rewrite rev_app_distr. cbn [rev app].
  change (strings.trim_runes strings.asciiSpace
            (λ b a, strings.space2 a b) (λ c b a, strings.space3 a b c)
            ("010"%char :: "013"%char
               :: rev (list_ascii_of_string (strings.TrimSpace id))))
    with (strings.trim_runes strings.asciiSpace
            (λ b a, strings.space2 a b) (λ c b a, strings.space3 a b c)
            (rev (list_ascii_of_string (strings.TrimSpace id)))).
  rewrite trim_runes_id by apply TrimSpace_right_trimmed.
  apply rev_involutive.
Qed.
End TrimSpace.

(* --------------------------------------------------------------------- *)
(** ** The flat-file store: finding the owner of a reservation *)
(* --------------------------------------------------------------------- *)

Lemma FindByKey_found id ifname match_ (d : Dir) fname data :
  d !! fname = Some data →
  strings.TrimSpace data = match_ →
  disk.FindByKey id ifname match_ d = (true, None).
Proof.
  intros Hfile Htrim. unfold disk.FindByKey, os.Walk. f_equal.
  apply existsb_exists. exists (fname, data). split.
  - apply list_elem_of_In. by apply elem_of_map_to_list.
  - cbn [snd]. rewrite Htrim. apply String.eqb_refl.
Qed.

(** A file that holds the trimmed id with the interface name answers the
    first match of [FindByID]; a file that holds the trimmed id alone, or
    trims to it, answers the second. *)
Lemma FindByID_current id ifname (d : Dir) fname data :
  d !! fname = Some data →
  strings.TrimSpace data
  = strings.TrimSpace id +:+ disk.LineBreak +:+ ifname →
  disk.FindByID id ifname d = true.
Proof.
  intros Hfile Htrim. unfold disk.FindByID.
  by rewrite (FindByKey_found id ifname _ d fname data Hfile Htrim).
Qed.

Lemma FindByID_legacy id ifname (d : Dir) fname data :
  d !! fname = Some data →
  strings.TrimSpace data = strings.TrimSpace id →
  disk.FindByID id ifname d = true.
Proof.
  intros Hfile Htrim. unfold disk.FindByID.
  rewrite (FindByKey_found id ifname (strings.TrimSpace id) d fname data)
    by done.
  unfold disk.FindByKey. cbn [fst].
  destruct (existsb _ (os.Walk d)); cbn [negb andb]; [done|].
  by rewrite bool_decide_eq_true_2.
Qed.

(** In a directory where no file has blank content, the reservation of an
    id of white space only is not found either: its content is trimmed to
    the interface name. *)
Example FindByID_blank_id :
  let blank := disk.Reserve (L := fixture.lib) disk.no_faults
                 " " "eth0" fixture.ip_10_2 "0" ∅ in
  blank.2 = (true, None) ∧ disk.FindByID " " "eth0" blank.1 = false.
Proof. vm_compute. auto. Qed.

(** C10, as stated, fails for an interface name that ends in white space:
    the content is trimmed as a whole when it is read, and then equals
    neither the trimmed id with the interface name nor the trimmed id
    alone.  The directory holds the mapping file of a pod as well. *)
Lemma FindByID_misses_own_reservation :
  let padded := disk.Reserve (L := fixture.lib) disk.no_faults
                  "c1" "eth0 " fixture.ip_10_2 "0" sticky.bound_ip in
  padded.2 = (true, None)
  ∧ padded.1 !! "10.10.10.2" = Some ("c1" +:+ disk.LineBreak +:+ "eth0 ")
  ∧ disk.FindByID "c1" "eth0 " padded.1 = false.
Proof. vm_compute. auto. Qed.

(** C10, amended.  For every owner id (leading and trailing white space
    included) and every interface name that does not end in white space
    (the empty name included), after a successful
    [Reserve(id, ifname, ip, rangeID)] - the file of the range's
    last-reserved marker being another file than that of the address -
    [FindByID(id, ifname)] returns true, provided the id is not empty once
    trimmed, or some file of the directory has blank content: the content
    written is the trimmed id, the line break and the interface name, and
    trimming it on the read path gives it back, or gives the trimmed id when
    the name is empty; an id that is empty once trimmed is found through
    the second match only, against a file of blank content. *)
Theorem reserve_then_FindByID {L : GoLib} flt id ifname (ip : IP) rangeID
    (d d1 : Dir) :
  disk.Reserve flt id ifname ip rangeID d = (d1, (true, None)) →
  disk.GetEscapedPath (disk.lastIPFilePrefix +:+ rangeID)
  ≠ disk.GetEscapedPath (IP_String ip) →
  owner.no_trailing_space ifname →
  strings.TrimSpace id ≠ ""
  ∨ (∃ fname data, d1 !! fname = Some data ∧ strings.TrimSpace data = "") →
  disk.FindByID id ifname d1 = true.
Proof.
  intros Hreserve Hmarker Htrail Hid.
  destruct (decide (strings.TrimSpace id = "")) as [Hblank|Hfull].
  - (* the id is blank: a blank file answers the second match *)
    destruct Hid as [|(fname & data & Hfile & Htrim)]; [done|].
    apply (FindByID_legacy id ifname d1 fname data Hfile). congruence.
  - apply Reserve_true_inv in Hreserve as [_ ->].
    set (fname := disk.GetEscapedPath (IP_String ip)) in *.
    set (content := strings.TrimSpace id +:+ disk.LineBreak +:+ ifname).
    set (d1 := <[_ := IP_String ip]> _) in *.
    assert (d1 !! fname = Some content) as Hfile.
    { unfold d1. rewrite lookup_insert_ne by done. apply lookup_insert_eq. }
    destruct (decide (ifname = "")) as [->|Hif].
    + apply (FindByID_legacy id "" d1 fname content Hfile).
      by apply TrimSpace_written_legacy.
    + apply (FindByID_current id ifname d1 fname content Hfile).
      by apply TrimSpace_written.
Qed.

Lemma reserve_then_FindByID_witness :
  disk.FindByID "  c1 " "eth0"
    (<["last_reserved_ip.0" := "10.10.10.2"]>
       (<["10.10.10.2" := "c1" +:+ disk.LineBreak +:+ "eth0"]> ∅)) = true.
Proof.
  apply (reserve_then_FindByID (L := fixture.lib) disk.no_faults
           "  c1 " "eth0" fixture.ip_10_2 "0" ∅).
  - vm_compute. reflexivity.
  - discriminate.
  - vm_compute. reflexivity.
  - left. vm_compute. discriminate.
Defined.

(* --------------------------------------------------------------------- *)
(** ** The sticky-identity index: binding *)
(* --------------------------------------------------------------------- *)

(** C4, as stated, fails in the IP store: [ReservePodInfo] looks for the
    mapping file of the address, not of the identity.  Binding 10.10.10.3
    to a pod whose mapping file records 10.10.10.2 writes a second mapping
    file, both files remain, and the lookup of the pod then finds
    nothing. *)
Lemma ReservePodInfo_duplicates_mapping :
  let out := disk.ReservePodInfo (L := fixture.lib) sticky.no_fault
               "c1" "eth0" fixture.ip_10_3 "NS2" "pod2" false
               sticky.bound_ip in
  out.2 = (true, None)
  ∧ (filepath.Glob out.1 "ip_*_NS2_pod2").1
    = ["ip_10.10.10.2_NS2_pod2"; "ip_10.10.10.3_NS2_pod2"]
  ∧ disk.HasReservedIP (L := fixture.lib) "NS2" "pod2" out.1 = (false, None).
Proof. vm_compute. auto. Qed.

Example reservePodInfo_renames_mapping :
  let out := bridge.reservePodInfo (L := fixture.lib) sticky.no_fault
               "02:42:af:a3:d8:02" "NS2" "pod2" sticky.bound_mac in
  out.2 = (true, None)
  ∧ (filepath.Glob out.1 "mac_*_NS2_pod2").1
    = ["mac_02-42-af-a3-d8-02_NS2_pod2"]
  ∧ bridge.hasReservedMAC (L := fixture.lib) "NS2" "pod2" out.1
    = (Some fixture.mac_02, None).
Proof. vm_compute. auto. Qed.

Section Names.

Lemma append_assoc a b c : (a +:+ b) +:+ c = a +:+ b +:+ c.
Proof.
  induction a as [|x a IH]; [done|].
  change (String x ((a +:+ b) +:+ c) = String x (a +:+ b +:+ c)).
  by f_equal.
Qed.

Lemma Count_app a b c :
  strings.Count (a +:+ b) c = strings.Count a c + strings.Count b c.
Proof.
  induction a as [|x a IH]; [done|]. simpl. rewrite IH. lia.
Qed.

Lemma avoids_app cs a b :
  sticky.avoids cs a → sticky.avoids cs b → sticky.avoids cs (a +:+ b).
Proof.
  unfold sticky.avoids. rewrite !Forall_forall. intros Ha Hb c Hc.
  rewrite Count_app, Ha, Hb by done. done.
Qed.

Lemma avoids_elem cs s c :
  sticky.avoids cs s → c ∈ cs → strings.Count s c = 0.
Proof. unfold sticky.avoids. rewrite Forall_forall. auto. Qed.

Lemma avoids_subseteq cs cs' s :
  cs' ⊆ cs → sticky.avoids cs s → sticky.avoids cs' s.
Proof.
  unfold sticky.avoids. rewrite !Forall_forall. intros Hsub Hs c Hc.
  apply Hs, Hsub, Hc.
Qed.

Lemma Split_without s c : strings.Count s c = 0 → strings.Split s c = [s].
Proof.
  induction s as [|x s IH]; [done|]. simpl.
  destruct (Ascii.eqb x c); [done|]. intros Hs. by rewrite IH.
Qed.

Lemma Split_app_sep a b c :
  strings.Count a c = 0 →
  strings.Split (a +:+ String c b) c = a :: strings.Split b c.
Proof.
  induction a as [|x a IH]; simpl.
  - intros _. by rewrite Ascii.eqb_refl.
  - destruct (Ascii.eqb x c); [done|]. intros Ha. by rewrite IH.
Qed.

Lemma ReplaceAll_app a b old new :
  strings.ReplaceAll (a +:+ b) old new
  = strings.ReplaceAll a old new +:+ strings.ReplaceAll b old new.
Proof. induction a as [|x a IH]; [done|]. simpl. by rewrite IH. Qed.

Lemma ReplaceAll_Count old new s :
  old ≠ new → strings.Count (strings.ReplaceAll s old new) old = 0.
Proof.
  intros Hne. induction s as [|x s IH]; [done|]. simpl.
  destruct (Ascii.eqb_spec x old) as [->|Hx].
  - by destruct (Ascii.eqb_spec new old) as [->|_].
  - by destruct (Ascii.eqb_spec x old).
Qed.

Lemma ReplaceAll_without old new s :
  strings.Count s old = 0 → strings.ReplaceAll s old new = s.
Proof.
  induction s as [|x s IH]; [done|]. simpl.
  destruct (Ascii.eqb x old); [done|]. intros Hs. by rewrite IH.
Qed.

Lemma length_nonempty s : s ≠ "" → (String.length s =? 0) = false.
Proof. by destruct s. Qed.

Lemma Count_nonempty s c : strings.Count s c = 3 → s ≠ "".
Proof. by destruct s. Qed.

Context {L : GoLib}.

Lemma GetEscapedPath_app a b :
  disk.GetEscapedPath (a +:+ b)
  = disk.GetEscapedPath a +:+ disk.GetEscapedPath b.
Proof.
  unfold disk.GetEscapedPath. destruct GOOS_windows; [|done].
  apply ReplaceAll_app.
Qed.

Lemma GetEscapedPath_without s :
  strings.Count s ":" = 0 → disk.GetEscapedPath s = s.
Proof.
  intros Hs. unfold disk.GetEscapedPath. destruct GOOS_windows; [|done].
  by apply ReplaceAll_without.
Qed.

(** A MAC address in the form of the file names holds no colon. *)
Lemma GetEscapedPath_mac mac :
  disk.GetEscapedPath (strings.ReplaceAll mac ":" "-")
  = strings.ReplaceAll mac ":" "-".
Proof. apply GetEscapedPath_without. by apply ReplaceAll_Count. Qed.
End Names.

Section Match.

Lemma Match_star_unfold post f :
  filepath.Match (String "*" post) f
  = filepath.Match post f
    || match f with
       | EmptyString => false
       | String x f' =>
           negb (Ascii.eqb x "/") && filepath.Match (String "*" post) f'
       end.
Proof. by destruct f. Qed.

Lemma Match_literal p : strings.Count p "*" = 0 → filepath.Match p p = true.
Proof.
  induction p as [|x p IH]; [done|]. simpl.
  destruct (Ascii.eqb x "*") eqn:Hx; [done|]. intros Hp.
  rewrite Ascii.eqb_refl. by apply IH.
Qed.

Lemma Match_star_suffix post mid :
  strings.Count post "*" = 0 →
  strings.Count mid "/" = 0 →
  filepath.Match (String "*" post) (mid +:+ post) = true.
Proof.
  intros Hpost. induction mid as [|x mid IH]; intros Hmid.
  - rewrite Match_star_unfold.
    change ("" +:+ post) with post. by rewrite Match_literal.
  - change (String x mid +:+ post) with (String x (mid +:+ post)).
    rewrite Match_star_unfold. simpl in Hmid.
    destruct (Ascii.eqb x "/"); [done|].
    rewrite IH by done. apply orb_true_r.
Qed.

Lemma Match_prefix pre rest f :
  strings.Count pre "*" = 0 →
  filepath.Match rest f = true →
  filepath.Match (pre +:+ rest) (pre +:+ f) = true.
Proof.
  intros Hpre Hrest. induction pre as [|x pre IH]; [done|].
  simpl in Hpre |- *. destruct (Ascii.eqb x "*") eqn:Hx; [done|].
  rewrite Ascii.eqb_refl. by apply IH.
Qed.

(** The names that have the literal prefix and suffix of a pattern with
    one star, and no separator in between, match it. *)
Lemma Match_one_star pre post mid :
  strings.Count pre "*" = 0 →
  strings.Count post "*" = 0 →
  strings.Count mid "/" = 0 →
  filepath.Match (pre +:+ String "*" post) (pre +:+ mid +:+ post) = true.
Proof.
  intros Hpre Hpost Hmid. apply Match_prefix; [done|].
  by apply Match_star_suffix.
Qed.
End Match.

Ltac in_list :=
  unfold sticky.meta;
  repeat first [ apply list_elem_of_here | apply list_elem_of_further ].

Section Glob.
Implicit Types (d : Dir) (g : string).

Lemma elem_of_Glob d pat g :
  g ∈ (filepath.Glob d pat).1
  ↔ is_Some (d !! g) ∧ filepath.Match pat g = true.
Proof.
  unfold filepath.Glob. cbn [fst]. rewrite merge_sort_Permutation.
  rewrite list_elem_of_filter, list_elem_of_fmap. split.
  - intros [Hm ([g' v] & -> & Hin)]. apply elem_of_map_to_list in Hin.
    split; [by exists v | by apply Is_true_true].
  - intros [[v Hv] Hm]. split; [by apply Is_true_true|].
    exists (g, v). split; [done|]. by apply elem_of_map_to_list.
Qed.

Lemma NoDup_Glob d pat : NoDup (filepath.Glob d pat).1.
Proof.
  unfold filepath.Glob. cbn [fst]. rewrite merge_sort_Permutation.
  apply NoDup_filter, NoDup_fst_map_to_list.
Qed.

Lemma NoDup_only (l : list string) a :
  NoDup l → (∀ x, x ∈ l ↔ x = a) → l = [a].
Proof.
  intros Hnd Hl. destruct l as [|x [|y l]].
  - pose proof (proj2 (Hl a) eq_refl) as Hin. by apply elem_of_nil in Hin.
  - f_equal. apply Hl. by left.
  - assert (x = a) as -> by (apply Hl; by left).
    assert (y = a) as -> by (apply Hl; right; by left).
    apply NoDup_cons in Hnd as [Hnotin _]. destruct Hnotin. by left.
Qed.

Lemma Glob_only d pat a :
  (∀ g, is_Some (d !! g) ∧ filepath.Match pat g = true ↔ g = a) →
  (filepath.Glob d pat).1 = [a].
Proof.
  intros Ha. apply NoDup_only; [apply NoDup_Glob|].
  intros g. by rewrite elem_of_Glob.
Qed.

Lemma NoDup_two (l : list string) a b :
  a ∈ l → b ∈ l → a ≠ b → 2 ≤ length l.
Proof.
  intros Ha Hb Hne. destruct l as [|x [|y l]]; cbn; [|..|lia].
  - by apply elem_of_nil in Ha.
  - apply list_elem_of_singleton in Ha, Hb. congruence.
Qed.

Context {L : GoLib}.
Hypothesis Hglob : sticky.globs_by_star L.

Lemma lib_Glob_nil d pat :
  sticky.avoids sticky.wild pat →
  (filepath.Glob d pat).1 = [] →
  Glob d pat = ([], None).
Proof.
  intros Hpat Hnil. destruct (Hglob d pat Hpat) as (names & -> & Hperm).
  rewrite Hnil in Hperm. by apply Permutation_nil_r in Hperm as ->.
Qed.

Lemma lib_Glob_single d pat fName :
  sticky.avoids sticky.wild pat →
  (filepath.Glob d pat).1 = [fName] →
  Glob d pat = ([fName], None).
Proof.
  intros Hpat Hone. destruct (Hglob d pat Hpat) as (names & -> & Hperm).
  rewrite Hone in Hperm. by apply Permutation_singleton_r in Hperm as ->.
Qed.

Lemma lib_Glob_many d pat a b :
  sticky.avoids sticky.wild pat →
  a ∈ (filepath.Glob d pat).1 → b ∈ (filepath.Glob d pat).1 → a ≠ b →
  ∃ x y rest, Glob d pat = (x :: y :: rest, None).
Proof.
  intros Hpat Ha Hb Hne. destruct (Hglob d pat Hpat) as (names & -> & Hperm).
  pose proof (NoDup_two _ a b Ha Hb Hne) as Hlen.
  rewrite <- Hperm in Hlen.
  destruct names as [|x [|y rest]]; cbn in Hlen; try lia. eauto.
Qed.

Lemma plain_nonempty s : sticky.plain s → s ≠ "".
Proof. by intros [? _]. Qed.

Lemma plain_escaped s : sticky.plain s → disk.GetEscapedPath s = s.
Proof. by intros (_ & _ & ?). Qed.

Lemma plain_Count s c : sticky.plain s → c ∈ sticky.meta → strings.Count s c = 0.
Proof. intros (_ & Hs & _). by apply avoids_elem. Qed.

Lemma plain_avoids s :
  sticky.plain s → sticky.avoids sticky.wild s.
Proof.
  intros Hs. unfold sticky.avoids.
  repeat constructor; (apply plain_Count; [done|in_list]).
Qed.

(** A name [tag ++ a ++ "_" ++ b] built from plain parts. *)
Lemma built_escaped tag a rest :
  strings.Count tag ":" = 0 →
  sticky.plain a →
  disk.GetEscapedPath rest = rest →
  disk.GetEscapedPath (tag +:+ a +:+ rest) = tag +:+ a +:+ rest.
Proof.
  intros Htag Ha Hrest. rewrite !GetEscapedPath_app.
  by rewrite (GetEscapedPath_without tag), plain_escaped, Hrest.
Qed.

Lemma built_avoids tag a rest :
  sticky.avoids sticky.wild tag →
  sticky.plain a →
  sticky.avoids sticky.wild rest →
  sticky.avoids sticky.wild (tag +:+ a +:+ rest).
Proof.
  intros Htag Ha Hrest. repeat apply avoids_app; try done.
  by apply plain_avoids.
Qed.
End Glob.

(** The mapping files of one identity, for a store whose file names start
    with [tag]: ["ip"] or ["mac"]. *)
Section Index.
Context {L : GoLib}.
Hypothesis Hglob : sticky.globs_by_star L.
Variables tag ns name : string.
Hypothesis Htag : sticky.avoids (":"%char :: sticky.meta) tag.
Hypothesis Hns : sticky.plain ns.
Hypothesis Hname : sticky.plain name.
Implicit Types (d : Dir) (addr : string).

Local Abbreviation pattern := (tag +:+ "_*_" +:+ ns +:+ "_" +:+ name).
Local Abbreviation target addr :=
  (tag +:+ "_" +:+ addr +:+ "_" +:+ ns +:+ "_" +:+ name).

Lemma tag_Count c :
  c ∈ (":"%char :: sticky.meta) → strings.Count tag c = 0.
Proof. by apply avoids_elem. Qed.

Lemma identity_escaped :
  disk.GetEscapedPath ("_" +:+ ns +:+ "_" +:+ name)
  = "_" +:+ ns +:+ "_" +:+ name.
Proof.
  rewrite !GetEscapedPath_app.
  rewrite (plain_escaped ns), (plain_escaped name) by done.
  by rewrite (GetEscapedPath_without "_").
Qed.

Lemma pattern_escaped : disk.GetEscapedPath pattern = pattern.
Proof.
  change pattern with (tag +:+ "_*" +:+ "_" +:+ ns +:+ "_" +:+ name).
  rewrite GetEscapedPath_app, (GetEscapedPath_app "_*").
  rewrite identity_escaped.
  rewrite (GetEscapedPath_without tag), (GetEscapedPath_without "_*"); try done.
  apply tag_Count. in_list.
Qed.

Lemma pattern_avoids : sticky.avoids sticky.wild pattern.
Proof.
  apply avoids_app.
  { repeat constructor; (apply tag_Count; in_list). }
  apply avoids_app; [repeat constructor|].
  apply avoids_app; [by apply plain_avoids|].
  apply avoids_app; [repeat constructor|by apply plain_avoids].
Qed.

Lemma target_escaped addr :
  disk.GetEscapedPath addr = addr →
  disk.GetEscapedPath (target addr) = target addr.
Proof.
  intros Haddr. rewrite GetEscapedPath_app, (GetEscapedPath_app "_").
  rewrite (GetEscapedPath_app addr), identity_escaped, Haddr.
  rewrite (GetEscapedPath_without tag), (GetEscapedPath_without "_"); try done.
  apply tag_Count. in_list.
Qed.

Lemma target_matches addr :
  strings.Count addr "/" = 0 →
  filepath.Match pattern (target addr) = true.
Proof.
  intros Haddr.
  replace pattern
    with ((tag +:+ "_") +:+ String "*" ("_" +:+ ns +:+ "_" +:+ name))
    by (rewrite append_assoc; reflexivity).
  replace (target addr)
    with ((tag +:+ "_") +:+ addr +:+ ("_" +:+ ns +:+ "_" +:+ name))
    by (rewrite append_assoc; reflexivity).
  apply Match_one_star; [| |done].
  - rewrite Count_app, tag_Count; [done|in_list].
  - rewrite !Count_app, (plain_Count ns "*"), (plain_Count name "*");
      try done; in_list.
Qed.

Lemma target_Split addr :
  strings.Count addr "_" = 0 →
  strings.Split (target addr) "_" = [tag; addr; ns; name].
Proof.
  intros Haddr.
  change (target addr)
    with (tag +:+ String "_" (addr +:+ String "_" (ns +:+ String "_" name))).
  rewrite !Split_app_sep, Split_without; try done;
    try (apply plain_Count; [done|in_list]).
  apply tag_Count. in_list.
Qed.

Lemma target_Count addr :
  strings.Count addr "_" = 0 → strings.Count (target addr) "_" = 3.
Proof.
  intros Haddr. pose proof (Split_length (target addr) "_") as Hlen.
  rewrite target_Split in Hlen by done. cbn in Hlen. lia.
Qed.

(** The lookup finds a mapping file that is alone. *)
Lemma lib_Glob_target d addr :
  (filepath.Glob d pattern).1 = [target addr] →
  Glob d (disk.GetEscapedPath pattern) = ([target addr], None).
Proof.
  intros Hone. rewrite pattern_escaped.
  apply lib_Glob_single; [done|apply pattern_avoids|done].
Qed.

(** Writing the mapping file when the identity has none, or has this one. *)
Lemma Glob_after_write d addr data :
  strings.Count addr "/" = 0 →
  (filepath.Glob d pattern).1 = []
  ∨ (filepath.Glob d pattern).1 = [target addr] →
  (filepath.Glob (<[target addr := data]> d) pattern).1 = [target addr].
Proof.
  intros Haddr Hbefore. apply Glob_only. intros g. split.
  - intros [Hg Hm]. destruct (decide (g = target addr)) as [|Hne]; [done|].
    rewrite lookup_insert_ne in Hg by done.
    assert (g ∈ (filepath.Glob d pattern).1) as Hin
      by by apply elem_of_Glob.
    destruct Hbefore as [Hb|Hb]; rewrite Hb in Hin.
    + by apply elem_of_nil in Hin.
    + by apply list_elem_of_singleton in Hin.
  - intros ->. split; [|by apply target_matches].
    rewrite lookup_insert_eq. by eexists.
Qed.

(** Renaming the mapping file of the identity to the new name. *)
Lemma Glob_after_rename d addr old data :
  strings.Count addr "/" = 0 →
  (filepath.Glob d pattern).1 = [old] →
  (filepath.Glob (<[target addr := data]> (delete old d)) pattern).1
  = [target addr].
Proof.
  intros Haddr Hbefore. apply Glob_only. intros g. split.
  - intros [Hg Hm]. destruct (decide (g = target addr)) as [|Hne]; [done|].
    rewrite lookup_insert_ne in Hg by done.
    destruct (decide (g = old)) as [->|Hold].
    { rewrite lookup_delete_eq in Hg. by destruct Hg. }
    rewrite lookup_delete_ne in Hg by done.
    assert (g ∈ (filepath.Glob d pattern).1) as Hin
      by by apply elem_of_Glob.
    rewrite Hbefore in Hin. by apply list_elem_of_singleton in Hin.
  - intros ->. split; [|by apply target_matches].
    rewrite lookup_insert_eq. by eexists.
Qed.

(** Writing a second mapping file next to the one of the identity. *)
Lemma lib_Glob_after_second d addr old data :
  strings.Count addr "/" = 0 →
  (filepath.Glob d pattern).1 = [old] →
  old ≠ target addr →
  ∃ x y rest,
    Glob (<[target addr := data]> d) (disk.GetEscapedPath pattern)
    = (x :: y :: rest, None).
Proof.
  intros Haddr Hbefore Hne. rewrite pattern_escaped.
  apply (lib_Glob_many Hglob _ _ old (target addr));
    [apply pattern_avoids| | |done].
  - assert (old ∈ (filepath.Glob d pattern).1) as [Hold Hm]%elem_of_Glob
      by (rewrite Hbefore; by left).
    apply elem_of_Glob. split; [|done]. by rewrite lookup_insert_ne.
  - apply elem_of_Glob. split; [|by apply target_matches].
    rewrite lookup_insert_eq. by eexists.
Qed.
End Index.

Section Bind.
Context {L : GoLib}.
Hypothesis Hglob : sticky.globs_by_star L.
Variables ns name : string.
Hypothesis Hns : sticky.plain ns.
Hypothesis Hname : sticky.plain name.
Implicit Types (d : Dir).

Lemma tag_mac : sticky.avoids (":"%char :: sticky.meta) "mac".
Proof. repeat constructor. Qed.

Lemma tag_ip : sticky.avoids (":"%char :: sticky.meta) "ip".
Proof. repeat constructor. Qed.

Lemma plain_Count_sep s : sticky.plain s → strings.Count s "_" = 0.
Proof. intros Hs. apply plain_Count; [done|in_list]. Qed.

Lemma plain_Count_slash s : sticky.plain s → strings.Count s "/" = 0.
Proof. intros Hs. apply plain_Count; [done|in_list]. Qed.

(** *** The MAC store *)

Local Abbreviation mac_pattern := ("mac_*_" +:+ ns +:+ "_" +:+ name).
Local Abbreviation mac_target addr :=
  ("mac_" +:+ addr +:+ "_" +:+ ns +:+ "_" +:+ name).

Lemma mac_pattern_escaped : disk.GetEscapedPath mac_pattern = mac_pattern.
Proof. exact (pattern_escaped "mac" ns name tag_mac Hns Hname). Qed.

Lemma mac_pattern_avoids : sticky.avoids sticky.wild mac_pattern.
Proof. exact (pattern_avoids "mac" ns name tag_mac Hns Hname). Qed.

Lemma mac_target_escaped addr :
  disk.GetEscapedPath addr = addr →
  disk.GetEscapedPath (mac_target addr) = mac_target addr.
Proof. exact (target_escaped "mac" ns name tag_mac Hns Hname addr). Qed.

Lemma mac_target_Split addr :
  strings.Count addr "_" = 0 →
  strings.Split (mac_target addr) "_" = ["mac"; addr; ns; name].
Proof. exact (target_Split "mac" ns name tag_mac Hns Hname addr). Qed.

Lemma mac_target_Count addr :
  strings.Count addr "_" = 0 → strings.Count (mac_target addr) "_" = 3.
Proof. exact (target_Count "mac" ns name tag_mac Hns Hname addr). Qed.

Lemma mac_Glob_after_write d addr data :
  strings.Count addr "/" = 0 →
  (filepath.Glob d mac_pattern).1 = []
  ∨ (filepath.Glob d mac_pattern).1 = [mac_target addr] →
  (filepath.Glob (<[mac_target addr := data]> d) mac_pattern).1
  = [mac_target addr].
Proof.
  exact (Glob_after_write "mac" ns name tag_mac Hns Hname d addr data).
Qed.

Lemma mac_Glob_after_rename d addr old data :
  strings.Count addr "/" = 0 →
  (filepath.Glob d mac_pattern).1 = [old] →
  (filepath.Glob (<[mac_target addr := data]> (delete old d)) mac_pattern).1
  = [mac_target addr].
Proof.
  exact (Glob_after_rename "mac" ns name tag_mac Hns Hname d addr old data).
Qed.

Lemma bridge_find_single d fName :
  (filepath.Glob d mac_pattern).1 = [fName] →
  strings.Count fName "_" = 3 →
  bridge.findPodFileName "" ns name d = (fName, None).
Proof.
  intros Hone Hparts. unfold bridge.findPodFileName.
  cbn [String.length Nat.eqb negb].
  rewrite !length_nonempty by by apply plain_nonempty. cbn [negb andb].
  rewrite mac_pattern_escaped.
  rewrite (lib_Glob_single Hglob d _ fName mac_pattern_avoids Hone).
  by rewrite Hparts.
Qed.

Lemma bridge_find_none d :
  (filepath.Glob d mac_pattern).1 = [] →
  bridge.findPodFileName "" ns name d = ("", None).
Proof.
  intros Hnone. unfold bridge.findPodFileName.
  cbn [String.length Nat.eqb negb].
  rewrite !length_nonempty by by apply plain_nonempty. cbn [negb andb].
  rewrite mac_pattern_escaped.
  by rewrite (lib_Glob_nil Hglob d _ mac_pattern_avoids Hnone).
Qed.

Lemma bridge_target mac :
  sticky.plain (strings.ReplaceAll mac ":" "-") →
  bridge.podFileName mac ns name
  = mac_target (strings.ReplaceAll mac ":" "-")
  ∧ (String.length mac =? 0) = false.
Proof.
  intros Hmac. unfold bridge.podFileName.
  assert (mac ≠ "") as Hne.
  { intros ->. by apply plain_nonempty in Hmac. }
  rewrite !length_nonempty by (done || by apply plain_nonempty). done.
Qed.

Lemma hasReservedMAC_bound d addr :
  sticky.plain addr →
  (filepath.Glob d mac_pattern).1 = [mac_target addr] →
  bridge.hasReservedMAC ns name d = (ParseMAC addr, None).
Proof.
  intros Haddr Hone. unfold bridge.hasReservedMAC.
  pose proof (mac_target_Count addr (plain_Count_sep addr Haddr)) as Hparts.
  rewrite (length_nonempty name) by by apply plain_nonempty.
  rewrite (bridge_find_single d _ Hone Hparts).
  rewrite length_nonempty by by apply (Count_nonempty _ "_").
  cbn [negb]. unfold bridge.resolvePodFileName.
  rewrite mac_target_Split by by apply plain_Count_sep.
  by rewrite !String.eqb_refl.
Qed.

Lemma reservePodInfo_bound flt mac d d' :
  sticky.plain (strings.ReplaceAll mac ":" "-") →
  sticky.at_most_one d mac_pattern →
  bridge.reservePodInfo flt mac ns name d = (d', (true, None)) →
  (filepath.Glob d' mac_pattern).1 = [bridge.podFileName mac ns name]
  ∧ ∀ old,
      (filepath.Glob d mac_pattern).1 = [old] →
      old ≠ bridge.podFileName mac ns name →
      d' !! old = None ∧ d' !! bridge.podFileName mac ns name = d !! old.
Proof.
  intros Hmac Honly. destruct (bridge_target mac Hmac) as [Htarget Hlen].
  set (addr := strings.ReplaceAll mac ":" "-") in *.
  unfold bridge.reservePodInfo.
  rewrite (length_nonempty name) by by apply plain_nonempty.
  rewrite Hlen, Htarget.
  assert (disk.GetEscapedPath (mac_target addr) = mac_target addr) as Hesc
    by apply mac_target_escaped, GetEscapedPath_mac.
  assert (strings.Count addr "/" = 0) as Hslash by by apply plain_Count_slash.
  rewrite Hesc.
  destruct Honly as [Hnone|(fName & Hone & Hparts & Hf)].
  - (* no mapping file yet *)
    rewrite (bridge_find_none d Hnone). cbn [String.length Nat.eqb negb andb].
    unfold os.WriteFile. destruct (disk.writefile_fault flt); [done|].
    intros [= <-]. split.
    + apply mac_Glob_after_write; auto.
    + intros old Hold. by rewrite Hnone in Hold.
  - rewrite (bridge_find_single d fName Hone Hparts).
    rewrite (length_nonempty fName) by by apply (Count_nonempty _ "_").
    cbn [negb andb]. rewrite Hf.
    assert (fName ∈ (filepath.Glob d mac_pattern).1)
      as [[data Hdata] _]%elem_of_Glob by (rewrite Hone; by left).
    destruct (String.eqb_spec (mac_target addr) fName) as [<-|Hne];
      cbn [negb].
    + (* the mapping file has the name already *)
      unfold os.WriteFile. destruct (disk.writefile_fault flt); [done|].
      intros [= <-]. split.
      * apply mac_Glob_after_write; auto.
      * intros old Hold Hdiff. rewrite Hone in Hold. congruence.
    + (* the mapping file is renamed *)
      unfold os.Rename. destruct (disk.rename_fault flt); [done|].
      rewrite Hdata. intros [= <-]. split.
      * by apply mac_Glob_after_rename.
      * intros old Hold Hdiff. rewrite Hone in Hold. injection Hold as <-.
        split.
        -- rewrite lookup_insert_ne by done. apply lookup_delete_eq.
        -- by rewrite lookup_insert_eq.
Qed.
(** *** The IP store *)

Local Abbreviation ip_pattern := ("ip_*_" +:+ ns +:+ "_" +:+ name).
Local Abbreviation ip_target addr :=
  ("ip_" +:+ addr +:+ "_" +:+ ns +:+ "_" +:+ name).

Lemma ip_pattern_escaped : disk.GetEscapedPath ip_pattern = ip_pattern.
Proof. exact (pattern_escaped "ip" ns name tag_ip Hns Hname). Qed.

Lemma ip_pattern_avoids : sticky.avoids sticky.wild ip_pattern.
Proof. exact (pattern_avoids "ip" ns name tag_ip Hns Hname). Qed.

Lemma ip_target_escaped addr :
  disk.GetEscapedPath addr = addr →
  disk.GetEscapedPath (ip_target addr) = ip_target addr.
Proof. exact (target_escaped "ip" ns name tag_ip Hns Hname addr). Qed.

Lemma ip_target_Split addr :
  strings.Count addr "_" = 0 →
  strings.Split (ip_target addr) "_" = ["ip"; addr; ns; name].
Proof. exact (target_Split "ip" ns name tag_ip Hns Hname addr). Qed.

Lemma ip_target_Count addr :
  strings.Count addr "_" = 0 → strings.Count (ip_target addr) "_" = 3.
Proof. exact (target_Count "ip" ns name tag_ip Hns Hname addr). Qed.

Lemma ip_Glob_after_write d addr data :
  strings.Count addr "/" = 0 →
  (filepath.Glob d ip_pattern).1 = []
  ∨ (filepath.Glob d ip_pattern).1 = [ip_target addr] →
  (filepath.Glob (<[ip_target addr := data]> d) ip_pattern).1
  = [ip_target addr].
Proof.
  exact (Glob_after_write "ip" ns name tag_ip Hns Hname d addr data).
Qed.

Lemma ip_Glob_after_second d addr old data :
  strings.Count addr "/" = 0 →
  (filepath.Glob d ip_pattern).1 = [old] →
  old ≠ ip_target addr →
  ∃ x y rest,
    Glob (<[ip_target addr := data]> d) (disk.GetEscapedPath ip_pattern)
    = (x :: y :: rest, None).
Proof.
  exact (lib_Glob_after_second Hglob "ip" ns name tag_ip Hns Hname
           d addr old data).
Qed.

(** The pattern that finds the mapping file of an address. *)
Lemma address_pattern addr :
  sticky.plain addr →
  disk.GetEscapedPath ("ip_" +:+ addr +:+ "_*") = "ip_" +:+ addr +:+ "_*"
  ∧ sticky.avoids sticky.wild ("ip_" +:+ addr +:+ "_*").
Proof.
  intros Haddr. split.
  - rewrite !GetEscapedPath_app, (plain_escaped addr) by done.
    by rewrite (GetEscapedPath_without "ip_"), (GetEscapedPath_without "_*").
  - apply avoids_app; [repeat constructor|].
    apply avoids_app; [by apply plain_avoids|repeat constructor].
Qed.

Lemma disk_find_address_none d addr :
  sticky.plain addr →
  (filepath.Glob d ("ip_" +:+ addr +:+ "_*")).1 = [] →
  disk.findPodFileName addr "" "" d = ("", None).
Proof.
  intros Haddr Hnone. destruct (address_pattern addr Haddr) as [Hesc Hav].
  unfold disk.findPodFileName.
  rewrite (length_nonempty addr) by by apply plain_nonempty. cbn [negb].
  rewrite Hesc. by rewrite (lib_Glob_nil Hglob d _ Hav Hnone).
Qed.

Lemma disk_find_single d fName :
  (filepath.Glob d ip_pattern).1 = [fName] →
  strings.Count fName "_" = 3 →
  disk.findPodFileName "" ns name d = (fName, None).
Proof.
  intros Hone Hparts. unfold disk.findPodFileName.
  cbn [String.length Nat.eqb negb].
  rewrite !length_nonempty by by apply plain_nonempty. cbn [negb andb].
  rewrite ip_pattern_escaped.
  rewrite (lib_Glob_single Hglob d _ fName ip_pattern_avoids Hone).
  by rewrite Hparts.
Qed.

Lemma HasReservedIP_bound d addr :
  sticky.plain addr →
  (filepath.Glob d ip_pattern).1 = [ip_target addr] →
  disk.HasReservedIP ns name d
  = match ParseIP addr with
    | Some ip => (true, Some ip)
    | None => (false, None)
    end.
Proof.
  intros Haddr Hone. unfold disk.HasReservedIP.
  pose proof (ip_target_Count addr (plain_Count_sep addr Haddr)) as Hparts.
  rewrite (length_nonempty name) by by apply plain_nonempty.
  rewrite (disk_find_single d _ Hone Hparts).
  rewrite length_nonempty by by apply (Count_nonempty _ "_").
  cbn [negb]. unfold disk.resolvePodFileName.
  rewrite ip_target_Split by by apply plain_Count_sep.
  by rewrite !String.eqb_refl.
Qed.

Lemma HasReservedIP_ambiguous d x y rest :
  Glob d (disk.GetEscapedPath ip_pattern) = (x :: y :: rest, None) →
  disk.HasReservedIP ns name d = (false, None).
Proof.
  intros Hmany. unfold disk.HasReservedIP, disk.findPodFileName.
  cbn [String.length Nat.eqb negb].
  rewrite !length_nonempty by by apply plain_nonempty. cbn [negb andb].
  by rewrite Hmany.
Qed.

(** [ReservePodInfo] for an address that has no mapping file writes one
    under the name of the identity. *)
Lemma ReservePodInfo_fresh flt id ifname (ip : IP) d d' :
  sticky.plain (IP_String ip) →
  (filepath.Glob d ("ip_" +:+ IP_String ip +:+ "_*")).1 = [] →
  disk.ReservePodInfo flt id ifname ip ns name false d = (d', (true, None)) →
  d' = <[ip_target (IP_String ip) := ""]> d.
Proof.
  intros Haddr Hnone. unfold disk.ReservePodInfo.
  rewrite (length_nonempty name) by by apply plain_nonempty. cbn [negb].
  rewrite (disk_find_address_none d _ Haddr Hnone).
  cbn [String.length Nat.eqb negb]. unfold disk.podFileName.
  rewrite !length_nonempty by by apply plain_nonempty. cbn [negb andb].
  rewrite ip_target_escaped by by apply plain_escaped.
  unfold os.WriteFile. destruct (disk.writefile_fault flt); [done|].
  by intros [= <-].
Qed.
End Bind.

Section BindIP.
Context {L : GoLib}.
Hypothesis Hglob : sticky.globs_by_star L.
Variables ns name : string.
Hypothesis Hns : sticky.plain ns.
Hypothesis Hname : sticky.plain name.
Variable ip : IP.
Hypothesis Haddr : sticky.plain (IP_String ip).
Implicit Types (d : Dir).

Local Abbreviation by_identity := ("ip_*_" +:+ ns +:+ "_" +:+ name).
Local Abbreviation by_address := ("ip_" +:+ IP_String ip +:+ "_*").
Local Abbreviation mapping :=
  ("ip_" +:+ IP_String ip +:+ "_" +:+ ns +:+ "_" +:+ name).

Lemma Match_star f :
  strings.Count f "/" = 0 → filepath.Match "*" f = true.
Proof.
  induction f as [|x f IH]; [done|]. intros Hf.
  rewrite Match_star_unfold. cbn [strings.Count] in Hf.
  destruct (Ascii.eqb x "/"); [done|]. rewrite IH by done.
  apply orb_true_r.
Qed.

(** The mapping file of the identity for the address is a mapping file of
    the address. *)
Lemma mapping_by_address : filepath.Match by_address mapping = true.
Proof.
  replace by_address with (("ip_" +:+ IP_String ip +:+ "_") +:+ "*")
    by (by rewrite !append_assoc).
  replace mapping
    with (("ip_" +:+ IP_String ip +:+ "_") +:+ ns +:+ "_" +:+ name)
    by (by rewrite !append_assoc).
  apply Match_prefix.
  - rewrite !Count_app, (plain_Count (IP_String ip) "*") by (done || in_list).
    done.
  - apply Match_star.
    rewrite !Count_app, (plain_Count_slash ns), (plain_Count_slash name)
      by done. done.
Qed.

Lemma mapping_by_identity : filepath.Match by_identity mapping = true.
Proof.
  apply (target_matches "ip" ns name tag_ip Hns Hname).
  by apply plain_Count_slash.
Qed.

Lemma mapping_name : disk.podFileName (IP_String ip) ns name = mapping.
Proof.
  unfold disk.podFileName.
  by rewrite !length_nonempty by by apply plain_nonempty.
Qed.

Lemma mapping_escaped : disk.GetEscapedPath mapping = mapping.
Proof. apply ip_target_escaped; [done..|]. by apply plain_escaped. Qed.

Lemma disk_find_address_single d fName :
  (filepath.Glob d by_address).1 = [fName] →
  strings.Count fName "_" = 3 →
  disk.findPodFileName (IP_String ip) "" "" d = (fName, None).
Proof.
  intros Hone Hparts.
  destruct (address_pattern (IP_String ip) Haddr) as [Hesc Hav].
  unfold disk.findPodFileName.
  rewrite (length_nonempty (IP_String ip)) by by apply plain_nonempty.
  cbn [negb]. rewrite Hesc.
  rewrite (lib_Glob_single Hglob d _ fName Hav Hone).
  by rewrite Hparts.
Qed.

(** What a [ReservePodInfo] that succeeds does for an address that has at
    most one mapping file: it writes the mapping file of the identity, or
    gives its name to the mapping file of the address. *)
Lemma ReservePodInfo_moves flt id ifname d d' :
  sticky.at_most_one d by_address →
  disk.ReservePodInfo flt id ifname ip ns name false d = (d', (true, None)) →
  ((filepath.Glob d by_address).1 = [] ∧ d' = <[mapping := ""]> d)
  ∨ ∃ old data,
      (filepath.Glob d by_address).1 = [old]
      ∧ d !! old = Some data
      ∧ d' = <[mapping := data]> (delete old d).
Proof.
  intros [Hnone|(old & Hone & Hparts & Hesc)] Hbind.
  - left. split; [done|].
    by apply (ReservePodInfo_fresh Hglob ns name Hns Hname flt id ifname ip).
  - right. revert Hbind. unfold disk.ReservePodInfo.
    rewrite (length_nonempty name) by by apply plain_nonempty.
    cbn [negb]. rewrite (disk_find_address_single d old Hone Hparts).
    rewrite (length_nonempty old) by by apply (Count_nonempty _ "_").
    cbn [negb]. rewrite Hesc, mapping_name, mapping_escaped.
    assert (old ∈ (filepath.Glob d by_address).1)
      as [[data Hdata] _]%elem_of_Glob by (rewrite Hone; by left).
    unfold os.Rename. destruct (disk.rename_fault flt); [done|].
    rewrite Hdata. intros [= <-]. by exists old, data.
Qed.

(** For an identity that has no mapping file of another address, the
    binding leaves the one mapping file that the lookup reads. *)
Lemma ReservePodInfo_bound flt id ifname d d' :
  sticky.at_most_one d by_address →
  (∀ g, g ∈ (filepath.Glob d by_identity).1 →
        g ∈ (filepath.Glob d by_address).1) →
  disk.ReservePodInfo flt id ifname ip ns name false d = (d', (true, None)) →
  (filepath.Glob d' by_identity).1 = [mapping]
  ∧ ∀ old,
      (filepath.Glob d by_address).1 = [old] →
      old ≠ mapping →
      d' !! old = None ∧ d' !! mapping = d !! old.
Proof.
  intros Honly Hsub Hbind.
  destruct (ReservePodInfo_moves flt id ifname d d' Honly Hbind)
    as [[Hnone ->]|(old & data & Hone & Hdata & ->)].
  - split.
    + apply ip_Glob_after_write; [done..|by apply plain_Count_slash|].
      left. destruct (filepath.Glob d by_identity).1 as [|g l]; [done|].
      specialize (Hsub g (list_elem_of_here _ _)).
      rewrite Hnone in Hsub. by apply elem_of_nil in Hsub.
    + intros old Hold. by rewrite Hnone in Hold.
  - split.
    + apply Glob_only. intros g. split.
      * intros [Hg Hm]. destruct (decide (g = mapping)) as [|Hne]; [done|].
        rewrite lookup_insert_ne in Hg by done.
        destruct (decide (g = old)) as [->|Hold].
        { rewrite lookup_delete_eq in Hg. by destruct Hg. }
        rewrite lookup_delete_ne in Hg by done.
        assert (g ∈ (filepath.Glob d by_address).1) as Hin
          by by apply Hsub, elem_of_Glob.
        rewrite Hone in Hin. by apply list_elem_of_singleton in Hin.
      * intros ->. split; [|apply mapping_by_identity].
        rewrite lookup_insert_eq. by eexists.
    + intros old' Hold' Hdiff. rewrite Hone in Hold'.
      injection Hold' as <-. split.
      * rewrite lookup_insert_ne by done. apply lookup_delete_eq.
      * by rewrite lookup_insert_eq.
Qed.

(** For an identity that has a mapping file of another address, the
    binding leaves two mapping files, and the lookup finds nothing. *)
Lemma ReservePodInfo_second flt id ifname d d' old :
  sticky.at_most_one d by_address →
  old ∈ (filepath.Glob d by_identity).1 →
  old ∉ (filepath.Glob d by_address).1 →
  disk.ReservePodInfo flt id ifname ip ns name false d = (d', (true, None)) →
  d' !! old = d !! old
  ∧ is_Some (d' !! mapping)
  ∧ disk.HasReservedIP ns name d' = (false, None).
Proof.
  intros Honly Hold Hother Hbind.
  apply elem_of_Glob in Hold as [Hthere Hmatch].
  assert (old ≠ mapping) as Hdiff.
  { intros ->. apply Hother, elem_of_Glob.
    split; [done|apply mapping_by_address]. }
  assert (d' !! old = d !! old ∧ is_Some (d' !! mapping)) as [Hkept Hnew].
  { destruct (ReservePodInfo_moves flt id ifname d d' Honly Hbind)
      as [[Hnone ->]|(f & data & Hone & Hdata & ->)].
    - split; [by rewrite lookup_insert_ne|].
      rewrite lookup_insert_eq. by eexists.
    - assert (old ≠ f) as Hf.
      { intros ->. apply Hother. rewrite Hone. by left. }
      split; [by rewrite lookup_insert_ne, lookup_delete_ne|].
      rewrite lookup_insert_eq. by eexists. }
  split; [done|]. split; [done|].
  destruct (lib_Glob_many Hglob d' by_identity old mapping)
    as (x & y & rest & Hmany).
  - by apply ip_pattern_avoids.
  - apply elem_of_Glob. split; [by rewrite Hkept|done].
  - apply elem_of_Glob. split; [done|apply mapping_by_identity].
  - done.
  - apply (HasReservedIP_ambiguous ns name Hns Hname d' x y rest).
    by rewrite ip_pattern_escaped.
Qed.
End BindIP.

(** C4, amended.  For an identity whose namespace and name are plain, and
    a [Glob] that matches by the star:
    - in the MAC store, when the identity has at most one mapping file,
      binding an address and then looking the identity up returns that
      address (parsed from the form with hyphens), and exactly one mapping
      file of the identity is left; a mapping file with another address is
      renamed: its old name is gone and the new name holds its content;
    - in the IP store, where the existing mapping file is looked for by
      address, when the address has at most one mapping file: if every
      mapping file of the identity is a mapping file of the address,
      binding the address and then looking the identity up returns that
      address (parsed from its text) and leaves exactly one mapping file
      of the identity, the mapping file of the address being renamed,
      whichever identity it names; if the identity has a mapping file that
      is not one of the address, that file stays, the mapping file for
      the address is there beside it, and the lookup then finds
      nothing. *)
Theorem sticky_bind_then_lookup {L : GoLib} ns name :
  sticky.globs_by_star L →
  sticky.plain ns →
  sticky.plain name →
  (∀ flt mac (d d' : Dir),
     sticky.plain (strings.ReplaceAll mac ":" "-") →
     sticky.at_most_one d ("mac_*_" +:+ ns +:+ "_" +:+ name) →
     bridge.reservePodInfo flt mac ns name d = (d', (true, None)) →
     bridge.hasReservedMAC ns name d'
     = (ParseMAC (strings.ReplaceAll mac ":" "-"), None)
     ∧ (filepath.Glob d' ("mac_*_" +:+ ns +:+ "_" +:+ name)).1
       = [bridge.podFileName mac ns name]
     ∧ ∀ old,
         (filepath.Glob d ("mac_*_" +:+ ns +:+ "_" +:+ name)).1 = [old] →
         old ≠ bridge.podFileName mac ns name →
         d' !! old = None
         ∧ d' !! bridge.podFileName mac ns name = d !! old)
  ∧ (∀ flt id ifname (ip : IP) (d d' : Dir),
       sticky.plain (IP_String ip) →
       sticky.at_most_one d ("ip_" +:+ IP_String ip +:+ "_*") →
       disk.ReservePodInfo flt id ifname ip ns name false d
       = (d', (true, None)) →
       ((∀ g, g ∈ (filepath.Glob d ("ip_*_" +:+ ns +:+ "_" +:+ name)).1 →
              g ∈ (filepath.Glob d ("ip_" +:+ IP_String ip +:+ "_*")).1) →
        disk.HasReservedIP ns name d'
        = match ParseIP (IP_String ip) with
          | Some ip' => (true, Some ip')
          | None => (false, None)
          end
        ∧ (filepath.Glob d' ("ip_*_" +:+ ns +:+ "_" +:+ name)).1
          = [disk.podFileName (IP_String ip) ns name]
        ∧ ∀ old,
            (filepath.Glob d ("ip_" +:+ IP_String ip +:+ "_*")).1 = [old] →
            old ≠ disk.podFileName (IP_String ip) ns name →
            d' !! old = None
            ∧ d' !! disk.podFileName (IP_String ip) ns name = d !! old)
       ∧ ∀ old,
           old ∈ (filepath.Glob d ("ip_*_" +:+ ns +:+ "_" +:+ name)).1 →
           old ∉ (filepath.Glob d ("ip_" +:+ IP_String ip +:+ "_*")).1 →
           d' !! old = d !! old
           ∧ is_Some (d' !! disk.podFileName (IP_String ip) ns name)
           ∧ disk.HasReservedIP ns name d' = (false, None)).
Proof.
  intros Hglob Hns Hname. split.
  - intros flt mac d d' Hmac Honly Hbind.
    destruct (reservePodInfo_bound Hglob ns name Hns Hname flt mac d d'
                Hmac Honly Hbind) as [Hone Hold].
    split; [|by split].
    apply (hasReservedMAC_bound Hglob ns name Hns Hname); [done|].
    by rewrite <- (proj1 (bridge_target ns name Hns mac Hmac)).
  - intros flt id ifname ip d d' Haddr Honly Hbind.
    rewrite (mapping_name ns name Hns ip Haddr). split.
    + intros Hsub.
      destruct (ReservePodInfo_bound Hglob ns name Hns Hname ip Haddr
                  flt id ifname d d' Honly Hsub Hbind) as [Hone Hold].
      split; [|by split].
      by apply (HasReservedIP_bound Hglob ns name Hns Hname).
    + intros old Hold Hother.
      by apply (ReservePodInfo_second Hglob ns name Hns Hname ip Haddr
                  flt id ifname d d' old).
Qed.

Lemma fixture_globs_by_star : sticky.globs_by_star fixture.lib.
Proof. intros d pattern _. by exists (filepath.Glob d pattern).1. Qed.

Lemma sticky_bind_then_lookup_witness :
  (let d' := (bridge.reservePodInfo (L := fixture.lib) sticky.no_fault
                "02:42:af:a3:d8:02" "NS2" "pod2" sticky.bound_mac).1 in
   bridge.hasReservedMAC (L := fixture.lib) "NS2" "pod2" d'
   = (Some fixture.mac_02, None)
   ∧ (filepath.Glob d' "mac_*_NS2_pod2").1
     = ["mac_02-42-af-a3-d8-02_NS2_pod2"])
  ∧ (let d' := (disk.ReservePodInfo (L := fixture.lib) sticky.no_fault
                  "c1" "eth0" fixture.ip_10_3 "NS2" "pod2" false ∅).1 in
     disk.HasReservedIP (L := fixture.lib) "NS2" "pod2" d'
     = (true, Some fixture.ip_10_3))
  ∧ (let d' := (disk.ReservePodInfo (L := fixture.lib) sticky.no_fault
                  "c1" "eth0" fixture.ip_10_2 "NS1" "pod1" false
                  sticky.bound_ip).1 in
     disk.HasReservedIP (L := fixture.lib) "NS1" "pod1" d'
     = (true, Some fixture.ip_10_2)
     ∧ (filepath.Glob d' "ip_*_NS1_pod1").1 = ["ip_10.10.10.2_NS1_pod1"]
     ∧ d' !! "ip_10.10.10.2_NS2_pod2" = None).
Proof.
  assert (∀ s, s ≠ "" → sticky.avoids (":"%char :: sticky.meta) s →
               sticky.plain (L := fixture.lib) s) as Hplain.
  { intros s Hne Hs. split; [done|]. split; [|done].
    by apply Forall_cons in Hs as [_ Hs]. }
  split; [|split].
  - destruct (sticky_bind_then_lookup (L := fixture.lib) "NS2" "pod2")
      as [Hmac _].
    + exact fixture_globs_by_star.
    + apply Hplain; [discriminate|repeat constructor].
    + apply Hplain; [discriminate|repeat constructor].
    + destruct (Hmac sticky.no_fault "02:42:af:a3:d8:02" sticky.bound_mac
                  (bridge.reservePodInfo (L := fixture.lib) sticky.no_fault
                     "02:42:af:a3:d8:02" "NS2" "pod2" sticky.bound_mac).1)
        as (Hlook & Hone & _).
      * apply Hplain; [discriminate|repeat constructor].
      * right. exists "mac_02-42-af-a3-d8-01_NS2_pod2". by vm_compute.
      * by vm_compute.
      * split; [exact Hlook|exact Hone].
  - destruct (sticky_bind_then_lookup (L := fixture.lib) "NS2" "pod2")
      as [_ Hip].
    + exact fixture_globs_by_star.
    + apply Hplain; [discriminate|repeat constructor].
    + apply Hplain; [discriminate|repeat constructor].
    + destruct (Hip sticky.no_fault "c1" "eth0" fixture.ip_10_3 ∅
                  (disk.ReservePodInfo (L := fixture.lib) sticky.no_fault
                     "c1" "eth0" fixture.ip_10_3 "NS2" "pod2" false ∅).1)
        as [Hfresh _].
      * apply Hplain; [discriminate|repeat constructor].
      * left. by vm_compute.
      * by vm_compute.
      * apply Hfresh. intros g Hg. vm_compute in Hg. inversion Hg.
  - destruct (sticky_bind_then_lookup (L := fixture.lib) "NS1" "pod1")
      as [_ Hip].
    + exact fixture_globs_by_star.
    + apply Hplain; [discriminate|repeat constructor].
    + apply Hplain; [discriminate|repeat constructor].
    + destruct (Hip sticky.no_fault "c1" "eth0" fixture.ip_10_2
                  sticky.bound_ip
                  (disk.ReservePodInfo (L := fixture.lib) sticky.no_fault
                     "c1" "eth0" fixture.ip_10_2 "NS1" "pod1" false
                     sticky.bound_ip).1)
        as [Hmoved _].
      * apply Hplain; [discriminate|repeat constructor].
      * right. exists "ip_10.10.10.2_NS2_pod2". by vm_compute.
      * by vm_compute.
      * destruct Hmoved as (Hlook & Hone & Hold).
        { intros g Hg. vm_compute in Hg. inversion Hg. }
        split; [exact Hlook|]. split; [exact Hone|].
        apply (Hold "ip_10.10.10.2_NS2_pod2"); [by vm_compute|discriminate].
Defined.

(* ===================================================================== *)
(** * Further properties *)
(* ===================================================================== *)

(* --------------------------------------------------------------------- *)
(** ** The environment-argument resolver: what it returns *)
(* --------------------------------------------------------------------- *)

Lemma resolve_pairs_stops good : ∀ bad rest ns name,
  Forall envargs.well_formed good →
  ¬ envargs.well_formed bad →
  utils.resolve_pairs (good ++ bad :: rest) ns name
  = (envargs.value_of "K8S_POD_NAMESPACE" good ns,
     envargs.value_of "K8S_POD_NAME" good name,
     Some (Errorf "ARGS: invalid pair %q" [bad])).
Proof.
  induction good as [|seg good IH]; intros bad rest ns name Hgood Hbad.
  - cbn [app utils.resolve_pairs envargs.value_of].
    unfold envargs.well_formed in Hbad.
    destruct (strings.Split bad "=") as [|k [|v [|? ?]]]; try reflexivity.
    by destruct Hbad.
  - apply Forall_cons in Hgood as [Hseg Hgood].
    unfold envargs.well_formed in Hseg.
    cbn [app utils.resolve_pairs envargs.value_of].
    destruct (strings.Split seg "=") as [|k [|v [|? ?]]]; try discriminate.
    destruct (String.eqb k "K8S_POD_NAMESPACE") eqn:Ens.
    + apply String.eqb_eq in Ens as ->. cbn. by apply IH.
    + destruct (String.eqb k "K8S_POD_NAME"); by apply IH.
Qed.

(** X1. On a non-empty argument string whose segments all split on ['=']
    into two parts, [ResolvePodNSAndNameFromEnvArgs] returns, with no
    error, the value of the last [K8S_POD_NAMESPACE] segment and the value
    of the last [K8S_POD_NAME] segment (empty when there is none), other
    keys being ignored - provided the two values are at most 230 bytes
    together. *)
Theorem resolve_env_args_values envArgs :
  envArgs ≠ "" →
  Forall envargs.well_formed (strings.Split envArgs ";") →
  String.length
    (envargs.value_of "K8S_POD_NAMESPACE" (strings.Split envArgs ";") "")
  + String.length
      (envargs.value_of "K8S_POD_NAME" (strings.Split envArgs ";") "")
  ≤ 230 →
  utils.ResolvePodNSAndNameFromEnvArgs envArgs
  = (envargs.value_of "K8S_POD_NAMESPACE" (strings.Split envArgs ";") "",
     envargs.value_of "K8S_POD_NAME" (strings.Split envArgs ";") "",
     None).
Proof.
  intros Hne Hwf Hlen. unfold utils.ResolvePodNSAndNameFromEnvArgs.
  destruct (String.eqb_spec envArgs "") as [->|_]; [done|].
  rewrite resolve_pairs_well_formed by done.
  cbn [utils.resolve_pairs].
  destruct (Nat.ltb_spec 230
              (String.length
                 (envargs.value_of "K8S_POD_NAMESPACE"
                    (strings.Split envArgs ";") "")
               + String.length
                   (envargs.value_of "K8S_POD_NAME"
                      (strings.Split envArgs ";") ""))); [lia|done].
Qed.

Lemma resolve_env_args_values_witness :
  utils.ResolvePodNSAndNameFromEnvArgs
    "K8S_POD_NAME=old;X=1;K8S_POD_NAMESPACE=NS2;K8S_POD_NAME=pod2"
  = ("NS2", "pod2", None).
Proof.
  apply (resolve_env_args_values
           "K8S_POD_NAME=old;X=1;K8S_POD_NAMESPACE=NS2;K8S_POD_NAME=pod2").
  - discriminate.
  - vm_compute. repeat constructor.
  - vm_compute. lia.
Defined.

(** X2. When a segment of a non-empty argument string does not split into
    two parts, the resolver stops at the first such segment and returns,
    beside the invalid-pair error for it, the namespace and name gathered
    from the segments before it - whatever their length: the limit of 230
    bytes is not checked on this path. *)
Theorem resolve_env_args_partial envArgs good bad rest :
  envArgs ≠ "" →
  strings.Split envArgs ";" = good ++ bad :: rest →
  Forall envargs.well_formed good →
  ¬ envargs.well_formed bad →
  utils.ResolvePodNSAndNameFromEnvArgs envArgs
  = (envargs.value_of "K8S_POD_NAMESPACE" good "",
     envargs.value_of "K8S_POD_NAME" good "",
     Some (Errorf "ARGS: invalid pair %q" [bad])).
Proof.
  intros Hne Hsplit Hgood Hbad. unfold utils.ResolvePodNSAndNameFromEnvArgs.
  destruct (String.eqb_spec envArgs "") as [->|_]; [done|].
  rewrite Hsplit. by apply resolve_pairs_stops.
Qed.

Lemma resolve_env_args_partial_witness :
  utils.ResolvePodNSAndNameFromEnvArgs
    "K8S_POD_NAMESPACE=NS2;K8S_POD_NAME=pod2;broken;K8S_POD_NAME=late"
  = ("NS2", "pod2", Some (Errorf "ARGS: invalid pair %q" ["broken"])).
Proof.
  apply (resolve_env_args_partial
           "K8S_POD_NAMESPACE=NS2;K8S_POD_NAME=pod2;broken;K8S_POD_NAME=late"
           ["K8S_POD_NAMESPACE=NS2"; "K8S_POD_NAME=pod2"] "broken"
           ["K8S_POD_NAME=late"]).
  - discriminate.
  - reflexivity.
  - vm_compute. repeat constructor.
  - vm_compute. lia.
Defined.

(* --------------------------------------------------------------------- *)
(** ** The flat-file store: the marker, and releasing an address *)
(* --------------------------------------------------------------------- *)

(** X3. After a successful [Reserve] for a range, [LastReservedIP] of that
    range returns the address parsed from the text that was reserved, and
    no error; the marker of a range that is kept in another file (which is
    not the reservation file either) reads as before the call. *)
Theorem reserve_then_LastReservedIP {L : GoLib} flt id ifname (ip : IP)
    rangeID (d d1 : Dir) :
  disk.Reserve flt id ifname ip rangeID d = (d1, (true, None)) →
  disk.LastReservedIP rangeID d1 = (ParseIP (IP_String ip), None)
  ∧ ∀ rangeID',
      disk.GetEscapedPath (disk.lastIPFilePrefix +:+ rangeID')
      ≠ disk.GetEscapedPath (disk.lastIPFilePrefix +:+ rangeID) →
      disk.GetEscapedPath (disk.lastIPFilePrefix +:+ rangeID')
      ≠ disk.GetEscapedPath (IP_String ip) →
      disk.LastReservedIP rangeID' d1 = disk.LastReservedIP rangeID' d.
Proof.
  intros [_ ->]%Reserve_true_inv. unfold disk.LastReservedIP. split.
  - by rewrite lookup_insert_eq.
  - intros rangeID' Hmarker Hfile.
    by rewrite !lookup_insert_ne by done.
Qed.

Lemma reserve_then_LastReservedIP_witness :
  let d1 := (disk.Reserve (L := fixture.lib) disk.no_faults
               "c1" "eth0" fixture.ip_10_2 "0" ∅).1 in
  disk.LastReservedIP (L := fixture.lib) "0" d1
  = (Some fixture.ip_10_2, None)
  ∧ ∀ rangeID',
      disk.lastIPFilePrefix +:+ rangeID' ≠ disk.lastIPFilePrefix +:+ "0" →
      disk.lastIPFilePrefix +:+ rangeID' ≠ "10.10.10.2" →
      disk.LastReservedIP (L := fixture.lib) rangeID' d1
      = disk.LastReservedIP (L := fixture.lib) rangeID' ∅.
Proof.
  apply (reserve_then_LastReservedIP (L := fixture.lib) disk.no_faults
           "c1" "eth0" fixture.ip_10_2 "0" ∅).
  vm_compute. reflexivity.
Defined.

(** X4. [Release] undoes a successful [Reserve]: it removes the reservation
    file without an error and leaves the directory as it was before the
    reservation but for the range's marker; the address can then be
    reserved again, by any owner, and a second [Release] of it is an error
    that changes nothing. *)
Theorem reserve_release_reserve {L : GoLib} flt id ifname id2 ifname2
    (ip : IP) rangeID rangeID2 (d d1 : Dir) :
  disk.Reserve flt id ifname ip rangeID d = (d1, (true, None)) →
  disk.GetEscapedPath (disk.lastIPFilePrefix +:+ rangeID)
  ≠ disk.GetEscapedPath (IP_String ip) →
  let released :=
    <[disk.GetEscapedPath (disk.lastIPFilePrefix +:+ rangeID)
      := IP_String ip]> d in
  disk.Release ip d1 = (released, None)
  ∧ (disk.Reserve disk.no_faults id2 ifname2 ip rangeID2 released).2
    = (true, None)
  ∧ disk.Release ip released = (released, Some (ErrIO 2)).
Proof.
  intros [Hfree ->]%Reserve_true_inv Hmarker released.
  assert (released !! disk.GetEscapedPath (IP_String ip) = None) as Hgone.
  { unfold released. by rewrite lookup_insert_ne. }
  split; [|split].
  - unfold disk.Release, os.Remove.
    rewrite lookup_insert_ne, lookup_insert_eq by done. f_equal.
    rewrite delete_insert_ne by done.
    rewrite insert_insert_eq, delete_insert_eq. by rewrite delete_id.
  - unfold disk.Reserve, os.OpenFile_excl. rewrite Hgone. reflexivity.
  - unfold disk.Release, os.Remove. by rewrite Hgone.
Qed.

Lemma reserve_release_reserve_witness :
  let released : Dir := <["last_reserved_ip.0" := "10.10.10.2"]> ∅ in
  disk.Release (L := fixture.lib) fixture.ip_10_2
    (<["last_reserved_ip.0" := "10.10.10.2"]>
       (<["10.10.10.2" := "c1" +:+ disk.LineBreak +:+ "eth0"]>
          (<["10.10.10.2" := ""]> ∅)))
  = (released, None)
  ∧ (disk.Reserve (L := fixture.lib) disk.no_faults
       "c2" "eth1" fixture.ip_10_2 "1" released).2 = (true, None)
  ∧ disk.Release (L := fixture.lib) fixture.ip_10_2 released
    = (released, Some (ErrIO 2)).
Proof.
  apply (reserve_release_reserve (L := fixture.lib) disk.no_faults
           "c1" "eth0" "c2" "eth1" fixture.ip_10_2 "0" "1" ∅).
  - vm_compute. reflexivity.
  - discriminate.
Defined.


(* --------------------------------------------------------------------- *)
(** ** The flat-file store: releasing and listing by owner *)
(* --------------------------------------------------------------------- *)

Section ReleaseByKey.
Variable stuck : string → bool.
Variable match_ : string.
Implicit Types (d acc : Dir) (l : list (string * string)).

Local Abbreviation hit :=
  (λ f : string * string,
     String.eqb (strings.TrimSpace f.2) match_ && negb (stuck f.1)).

Lemma release_fold l : ∀ acc found,
  foldl (λ '(d', found) f,
           if String.eqb (strings.TrimSpace f.2) match_ then
             if stuck f.1 then (d', found) else (delete f.1 d', true)
           else (d', found))
        (acc, found) l
  = (foldl (λ a f, if hit f then delete f.1 a else a) acc l,
     found || existsb hit l).
Proof.
  induction l as [|f l IH]; intros acc found; cbn [foldl existsb].
  - by rewrite orb_false_r.
  - destruct (String.eqb (strings.TrimSpace f.2) match_); cbn [andb].
    + destruct (stuck f.1); cbn [negb]; rewrite IH; [done|].
      by rewrite orb_true_r.
    + by rewrite IH.
Qed.

Lemma release_fold_lookup l g : ∀ acc,
  foldl (λ a f, if hit f then delete f.1 a else a) acc l !! g
  = if existsb (λ f, String.eqb f.1 g && hit f) l then None else acc !! g.
Proof.
  induction l as [|f l IH]; intros acc; cbn [foldl existsb]; [done|].
  rewrite IH. destruct (existsb _ l); [by rewrite orb_true_r|].
  rewrite orb_false_r. destruct (String.eqb_spec f.1 g) as [<-|Hne].
  - cbn [andb]. destruct (hit f); [apply lookup_delete_eq|done].
  - cbn [andb]. destruct (hit f); [by apply lookup_delete_ne|done].
Qed.

(** What a walk of [ReleaseByKey] leaves of each file. *)
Lemma ReleaseByKey_lookup id ifname d g :
  (disk.ReleaseByKey stuck id ifname match_ d).1 !! g
  = match d !! g with
    | Some data =>
        if String.eqb (strings.TrimSpace data) match_ && negb (stuck g)
        then None else Some data
    | None => None
    end.
Proof.
  unfold disk.ReleaseByKey, os.Walk. rewrite release_fold. cbn [fst].
  rewrite release_fold_lookup.
  destruct (d !! g) as [data|] eqn:Hg.
  - destruct (String.eqb (strings.TrimSpace data) match_ && negb (stuck g))
      eqn:Hhit.
    + assert (existsb (λ f, String.eqb f.1 g && hit f) (map_to_list d) = true)
        as ->; [|done].
      apply existsb_exists. exists (g, data). split.
      * apply list_elem_of_In. by apply elem_of_map_to_list.
      * cbn [fst snd]. by rewrite String.eqb_refl, Hhit.
    + assert (existsb (λ f, String.eqb f.1 g && hit f) (map_to_list d) = false)
        as ->; [|done].
      apply not_true_is_false. intros [[g' data'] [Hin Hf]]%existsb_exists.
      apply list_elem_of_In, elem_of_map_to_list in Hin.
      cbn [fst snd] in Hf. apply andb_true_iff in Hf as [Hg' Hh].
      apply String.eqb_eq in Hg' as ->.
      rewrite Hg in Hin. injection Hin as <-. congruence.
  - by destruct (existsb _ _).
Qed.

Lemma ReleaseByKey_result id ifname d :
  (disk.ReleaseByKey stuck id ifname match_ d).2
  = (existsb hit (map_to_list d), None).
Proof. unfold disk.ReleaseByKey, os.Walk. by rewrite release_fold. Qed.
End ReleaseByKey.

Lemma length_app a b :
  String.length (a +:+ b) = String.length a + String.length b.
Proof.
  induction a as [|x a IH]; [done|].
  change (S (String.length (a +:+ b)) = S (String.length a + String.length b)).
  by rewrite IH.
Qed.

Section ReleaseByID.
Variables id ifname : string.
Implicit Types (d : Dir).

Local Abbreviation current :=
  (strings.TrimSpace id +:+ disk.LineBreak +:+ ifname).
Local Abbreviation legacy := (strings.TrimSpace id).

Lemma existsb_by_content d m :
  existsb (λ f, String.eqb (strings.TrimSpace f.2) m) (map_to_list d) = true
  ↔ held.by_content d m.
Proof.
  rewrite existsb_exists. split.
  - intros ([g data] & Hin & Hm). exists g, data.
    apply list_elem_of_In, elem_of_map_to_list in Hin.
    by apply String.eqb_eq in Hm.
  - intros (g & data & Hin & Hm). exists (g, data). split.
    + by apply list_elem_of_In, elem_of_map_to_list.
    + by apply String.eqb_eq.
Qed.

Lemma FindByID_iff d :
  disk.FindByID id ifname d = true
  ↔ held.by_content d current ∨ held.by_content d legacy.
Proof.
  unfold disk.FindByID, disk.FindByKey, os.Walk. cbn [fst].
  rewrite <- !existsb_by_content.
  destruct (existsb _ (map_to_list d)); cbn [negb andb]; [tauto|].
  rewrite bool_decide_eq_true_2 by done.
  split; [tauto|]. by intros [|].
Qed.

Lemma current_not_legacy : current ≠ legacy.
Proof.
  intros Heq. apply (f_equal String.length) in Heq.
  rewrite !length_app in Heq. cbn in Heq. lia.
Qed.

(** Files in blank: what [ReleaseByKey] leaves when every removal works. *)
Lemma by_content_after_release m m' d :
  held.by_content (disk.ReleaseByKey held.none_stuck id ifname m d).1 m'
  ↔ held.by_content d m' ∧ m' ≠ m.
Proof.
  unfold held.by_content. split.
  - intros (g & data & Hg & Hm). rewrite ReleaseByKey_lookup in Hg.
    destruct (d !! g) as [data'|] eqn:Hd; [|done].
    unfold held.none_stuck in Hg. cbn [negb] in Hg. rewrite andb_true_r in Hg.
    destruct (String.eqb_spec (strings.TrimSpace data') m) as [|Hne];
      [done|].
    injection Hg as ->. split; [by exists g, data|congruence].
  - intros [(g & data & Hg & Hm) Hne]. exists g, data. split; [|done].
    rewrite ReleaseByKey_lookup, Hg.
    destruct (String.eqb_spec (strings.TrimSpace data) m) as [|_];
      [congruence|done].
Qed.

Lemma ReleaseByID_cases stuck d :
  disk.ReleaseByID stuck id ifname d
  = if existsb (λ f, String.eqb (strings.TrimSpace f.2) current
                     && negb (stuck f.1)) (map_to_list d)
    then ((disk.ReleaseByKey stuck id ifname current d).1, None)
    else ((disk.ReleaseByKey stuck id ifname legacy
             (disk.ReleaseByKey stuck id ifname current d).1).1, None).
Proof.
  unfold disk.ReleaseByID.
  pose proof (ReleaseByKey_result stuck current id ifname d) as Hfirst.
  destruct (disk.ReleaseByKey stuck id ifname current d)
    as [d1 [found err]]. cbn [snd fst] in *. injection Hfirst as -> ->.
  destruct (existsb _ (map_to_list d)); cbn [negb andb]; [done|].
  rewrite bool_decide_eq_true_2 by done.
  pose proof (ReleaseByKey_result stuck legacy id ifname d1) as Hsecond.
  destruct (disk.ReleaseByKey stuck id ifname legacy d1)
    as [d2 [found err]]. cbn [snd fst] in *. by injection Hsecond as _ ->.
Qed.

Lemma none_stuck_hit d m :
  existsb (λ f, String.eqb (strings.TrimSpace f.2) m
                && negb (held.none_stuck f.1)) (map_to_list d)
  = existsb (λ f, String.eqb (strings.TrimSpace f.2) m) (map_to_list d).
Proof.
  induction (map_to_list d) as [|f l IH]; [done|]. cbn [existsb].
  rewrite IH. unfold held.none_stuck. cbn [negb]. by rewrite andb_true_r.
Qed.

(** One [ReleaseByID], every removal working: what is left of the two
    formats. *)
Lemma by_content_after_ReleaseByID d m' :
  held.by_content (disk.ReleaseByID held.none_stuck id ifname d).1 m'
  ↔ held.by_content d m' ∧ m' ≠ current
    ∧ (held.by_content d current ∨ m' ≠ legacy).
Proof.
  rewrite ReleaseByID_cases, none_stuck_hit.
  destruct (existsb _ (map_to_list d)) eqn:Hcur; cbn [fst].
  - apply existsb_by_content in Hcur.
    rewrite by_content_after_release. tauto.
  - assert (¬ held.by_content d current) as Hnone.
    { rewrite <- existsb_by_content. by rewrite Hcur. }
    rewrite !by_content_after_release. tauto.
Qed.
End ReleaseByID.

Section ByOwner.
Context {L : GoLib}.
Implicit Types (d : Dir).

Lemma elem_of_WalkInOrder d f : f ∈ os.WalkInOrder d ↔ d !! f.1 = Some f.2.
Proof.
  unfold os.WalkInOrder, os.Walk. rewrite merge_sort_Permutation.
  destruct f as [g data]. apply elem_of_map_to_list.
Qed.

Lemma GetByID_elem id ifname d (ip : IP) :
  ip ∈ disk.GetByID id ifname d
  ↔ ∃ fname data,
      d !! fname = Some data
      ∧ (strings.TrimSpace data
         = strings.TrimSpace id +:+ disk.LineBreak +:+ ifname
         ∨ strings.TrimSpace data = strings.TrimSpace id)
      ∧ ParseIP fname = Some ip.
Proof.
  unfold disk.GetByID. rewrite list_elem_of_omap. split.
  - intros ([g data] & Hin & Hf). apply elem_of_WalkInOrder in Hin.
    cbn [fst snd] in *. exists g, data. split; [done|].
    destruct (String.eqb_spec (strings.TrimSpace data)
                (strings.TrimSpace id +:+ disk.LineBreak +:+ ifname));
      [by auto|].
    destruct (String.eqb_spec (strings.TrimSpace data) (strings.TrimSpace id));
      [by auto|done].
  - intros (g & data & Hin & Hm & Hparse). exists (g, data). split.
    + by apply elem_of_WalkInOrder.
    + cbn [fst snd].
      destruct Hm as [-> | ->]; rewrite String.eqb_refl;
        [done|by rewrite orb_true_r].
Qed.

Lemma GetByID_nil id ifname d :
  ¬ held.by_content d (strings.TrimSpace id +:+ disk.LineBreak +:+ ifname) →
  ¬ held.by_content d (strings.TrimSpace id) →
  disk.GetByID id ifname d = [].
Proof.
  intros Hcur Hleg.
  destruct (disk.GetByID id ifname d) as [|ip l] eqn:Hlist; [done|].
  assert (ip ∈ disk.GetByID id ifname d) as Hin by (rewrite Hlist; by left).
  apply GetByID_elem in Hin as (g & data & Hg & [Hm|Hm] & _).
  - destruct Hcur. by exists g, data.
  - destruct Hleg. by exists g, data.
Qed.
End ByOwner.

(** X5. [ReleaseByID] never returns an error, whatever files cannot be
    removed; it creates no file and changes no content; it leaves in place
    every file whose trimmed content is neither the trimmed id with the
    interface name nor the trimmed id alone; and for an owner that holds
    nothing it leaves the directory as it is. *)
Theorem ReleaseByID_frame stuck id ifname (d : Dir) :
  (disk.ReleaseByID stuck id ifname d).2 = None
  ∧ (∀ fname data,
       (disk.ReleaseByID stuck id ifname d).1 !! fname = Some data →
       d !! fname = Some data)
  ∧ (∀ fname data,
       d !! fname = Some data →
       strings.TrimSpace data
       ≠ strings.TrimSpace id +:+ disk.LineBreak +:+ ifname →
       strings.TrimSpace data ≠ strings.TrimSpace id →
       (disk.ReleaseByID stuck id ifname d).1 !! fname = Some data)
  ∧ (¬ held.by_content d
         (strings.TrimSpace id +:+ disk.LineBreak +:+ ifname) →
     ¬ held.by_content d (strings.TrimSpace id) →
     (disk.ReleaseByID stuck id ifname d).1 = d).
Proof.
  assert (∀ fname data,
            (disk.ReleaseByID stuck id ifname d).1 !! fname = Some data →
            d !! fname = Some data) as Hsub.
  { intros g data. rewrite ReleaseByID_cases.
    destruct (existsb _ (map_to_list d)); cbn [fst];
      rewrite !ReleaseByKey_lookup.
    - destruct (d !! g) as [data'|]; [|done]. by destruct (_ && _).
    - destruct (d !! g) as [data'|]; [|done].
      destruct (_ && _); [done|]. by destruct (_ && _). }
  assert (∀ fname data,
            d !! fname = Some data →
            strings.TrimSpace data
            ≠ strings.TrimSpace id +:+ disk.LineBreak +:+ ifname →
            strings.TrimSpace data ≠ strings.TrimSpace id →
            (disk.ReleaseByID stuck id ifname d).1 !! fname = Some data)
    as Hkeep.
  { intros g data Hg Hcur Hleg. rewrite ReleaseByID_cases.
    apply String.eqb_neq in Hcur, Hleg.
    destruct (existsb _ (map_to_list d)); cbn [fst];
      rewrite !ReleaseByKey_lookup, Hg, ?Hcur; cbn [andb]; [done|].
    by rewrite Hleg. }
  split; [|split; [exact Hsub|split; [exact Hkeep|]]].
  - rewrite ReleaseByID_cases. by destruct (existsb _ (map_to_list d)).
  - intros Hcur Hleg. apply map_eq. intros g.
    destruct (d !! g) as [data|] eqn:Hg.
    + apply Hkeep; [done| |].
      * intros Hm. destruct Hcur. by exists g, data.
      * intros Hm. destruct Hleg. by exists g, data.
    + destruct ((disk.ReleaseByID stuck id ifname d).1 !! g) as [data|] eqn:Hr;
        [|done].
      apply Hsub in Hr. congruence.
Qed.

Lemma ReleaseByID_frame_witness :
  let d : Dir := <["10.10.10.1" := "c1" +:+ disk.LineBreak +:+ "eth0"]>
                   (<["10.10.10.2" := "c2" +:+ disk.LineBreak +:+ "eth0"]> ∅) in
  (disk.ReleaseByID (λ _, true) "c1" "eth0" d).1 !! "10.10.10.2"
  = Some ("c2" +:+ disk.LineBreak +:+ "eth0")
  ∧ (disk.ReleaseByID held.none_stuck "c3" "eth0" d).1 = d.
Proof.
  split.
  - apply ReleaseByID_frame; [reflexivity|vm_compute; discriminate..].
  - apply ReleaseByID_frame.
    + rewrite <- existsb_by_content. by vm_compute.
    + rewrite <- existsb_by_content. by vm_compute.
Defined.

(** X6. With every removal working, after one [ReleaseByID] the owner is
    still found by [FindByID] exactly when the directory held reservations
    of it in both formats, with and without the interface name: the files
    of the first format go, those of the second stay.  After a second
    [ReleaseByID] the owner is not found and [GetByID] lists nothing. *)
Theorem ReleaseByID_then_FindByID {L : GoLib} id ifname (d : Dir) :
  let d1 := (disk.ReleaseByID held.none_stuck id ifname d).1 in
  let d2 := (disk.ReleaseByID held.none_stuck id ifname d1).1 in
  (disk.FindByID id ifname d1 = true
   ↔ held.by_content d (strings.TrimSpace id +:+ disk.LineBreak +:+ ifname)
     ∧ held.by_content d (strings.TrimSpace id))
  ∧ disk.FindByID id ifname d2 = false
  ∧ disk.GetByID id ifname d2 = [].
Proof.
  intros d1 d2.
  pose proof (current_not_legacy id ifname) as Hne.
  assert (¬ held.by_content d1
              (strings.TrimSpace id +:+ disk.LineBreak +:+ ifname)) as Hcur1.
  { unfold d1. rewrite by_content_after_ReleaseByID. tauto. }
  assert (¬ held.by_content d2
              (strings.TrimSpace id +:+ disk.LineBreak +:+ ifname)) as Hcur2.
  { unfold d2. rewrite by_content_after_ReleaseByID. tauto. }
  assert (¬ held.by_content d2 (strings.TrimSpace id)) as Hleg2.
  { unfold d2. rewrite by_content_after_ReleaseByID. tauto. }
  split; [|split].
  - rewrite FindByID_iff. unfold d1.
    rewrite !by_content_after_ReleaseByID.
    split; [|intros [? ?]; right; split; [done|split; [congruence|by left]]].
    intros [(_ & ? & _)|(Hleg & _ & [Hc|?])]; done.
  - apply not_true_is_false. rewrite FindByID_iff. tauto.
  - by apply GetByID_nil.
Qed.

(** X7. After a successful [Reserve] for an owner id that is not empty
    once trimmed and an interface name that does not end in white space,
    [GetByID] lists the address that the name of the reservation file
    parses to; and whenever [GetByID] lists an address in some directory,
    [FindByID] returns true there. *)
Theorem reserve_then_GetByID {L : GoLib} flt id ifname (ip ip' : IP) rangeID
    (d d1 : Dir) :
  disk.Reserve flt id ifname ip rangeID d = (d1, (true, None)) →
  disk.GetEscapedPath (disk.lastIPFilePrefix +:+ rangeID)
  ≠ disk.GetEscapedPath (IP_String ip) →
  strings.TrimSpace id ≠ "" →
  owner.no_trailing_space ifname →
  ParseIP (disk.GetEscapedPath (IP_String ip)) = Some ip' →
  ip' ∈ disk.GetByID id ifname d1
  ∧ ∀ (d' : Dir) (a : IP),
      a ∈ disk.GetByID id ifname d' → disk.FindByID id ifname d' = true.
Proof.
  intros [_ ->]%Reserve_true_inv Hmarker Hid Htrail Hparse. split.
  - apply GetByID_elem.
    exists (disk.GetEscapedPath (IP_String ip)),
      (strings.TrimSpace id +:+ disk.LineBreak +:+ ifname).
    split; [|split; [|done]].
    + rewrite lookup_insert_ne by done. apply lookup_insert_eq.
    + destruct (decide (ifname = "")) as [->|Hif].
      * right. by apply TrimSpace_written_legacy.
      * left. by apply TrimSpace_written.
  - intros d' a (g & data & Hg & Hm & _)%GetByID_elem.
    apply FindByID_iff. destruct Hm; [left|right]; by exists g, data.
Qed.

Lemma reserve_then_GetByID_witness :
  (fixture.ip_10_2 : IP (GoLib := fixture.lib))
    ∈ disk.GetByID (L := fixture.lib) " c1" "eth0"
        (<["last_reserved_ip.0" := "10.10.10.2"]>
           (<["10.10.10.2" := "c1" +:+ disk.LineBreak +:+ "eth0"]> ∅)).
Proof.
  apply (reserve_then_GetByID (L := fixture.lib) disk.no_faults
           " c1" "eth0" fixture.ip_10_2 fixture.ip_10_2 "0" ∅).
  - vm_compute. reflexivity.
  - discriminate.
  - vm_compute. discriminate.
  - vm_compute. reflexivity.
  - reflexivity.
Defined.


(* --------------------------------------------------------------------- *)
(** ** The reservation database: one row for each pod *)
(* --------------------------------------------------------------------- *)

Section Table.
Context {R : Type} `{database.Model R}.
Hypothesis base_with_base :
  ∀ b (r : R), database.base (database.with_base b r) = b.
Hypothesis base_zero :
  database.base (database.zero (R := R)) = database.zeroBase.
Implicit Types (tbl : list R) (r : R).

Lemma base_stamp id c u r :
  database.base (database.stamp id c u r)
  = {| database.ID := id;
       database.Namespace := database.Namespace (database.base r);
       database.Name := database.Name (database.base r);
       database.Deleted := database.Deleted (database.base r);
       database.CreatedAt := c; database.UpdatedAt := u |}.
Proof. unfold database.stamp. apply base_with_base. Qed.

Lemma identified_identity ns name r :
  database.identified ns name r = true ↔ rows.identity r = (ns, name).
Proof.
  unfold database.identified, rows.identity.
  rewrite andb_true_iff, !String.eqb_eq. split.
  - by intros [-> ->].
  - by intros [= -> ->].
Qed.

Lemma find_identity ns name tbl :
  find (database.identified ns name) tbl = None
  ↔ (ns, name) ∉ rows.identity <$> tbl.
Proof.
  induction tbl as [|x tbl IH]; cbn.
  - split; [intros _; apply not_elem_of_nil|done].
  - destruct (database.identified ns name x) eqn:Hx.
    + apply identified_identity in Hx. split; [done|].
      intros Hn. destruct Hn. rewrite <- Hx. left.
    + rewrite not_elem_of_cons, IH. split; [|tauto].
      intros Hn. split; [|done]. intros Heq. symmetry in Heq.
      apply identified_identity in Heq. congruence.
Qed.

Lemma find_unique ns name tbl r :
  NoDup (rows.identity <$> tbl) → r ∈ tbl → rows.identity r = (ns, name) →
  find (database.identified ns name) tbl = Some r.
Proof.
  induction tbl as [|x tbl IH]; intros Hnd Hin Hid;
    [by apply elem_of_nil in Hin|].
  rewrite fmap_cons in Hnd. apply NoDup_cons in Hnd as [Hx Hnd]. cbn.
  destruct (database.identified ns name x) eqn:Hxid.
  - apply identified_identity in Hxid.
    apply elem_of_cons in Hin as [->|Hin]; [done|].
    destruct Hx. assert (rows.identity x = rows.identity r) as -> by congruence.
    by apply list_elem_of_fmap_2.
  - apply elem_of_cons in Hin as [->|Hin].
    + apply identified_identity in Hid. congruence.
    + by apply IH.
Qed.

Lemma next_id_above tbl r :
  r ∈ tbl → (rows.key r < database.next_id tbl)%N.
Proof.
  unfold database.next_id, rows.key.
  induction tbl as [|x tbl IH]; intros Hin; [by apply elem_of_nil in Hin|].
  cbn [foldr]. apply elem_of_cons in Hin as [->|Hin]; [lia|].
  specialize (IH Hin). lia.
Qed.

Lemma key_inj tbl x y :
  NoDup (rows.key <$> tbl) → x ∈ tbl → y ∈ tbl → rows.key x = rows.key y →
  x = y.
Proof.
  induction tbl as [|z tbl IH]; intros Hnd Hx Hy Hk;
    [by apply elem_of_nil in Hx|].
  rewrite fmap_cons in Hnd. apply NoDup_cons in Hnd as [Hz Hnd].
  apply elem_of_cons in Hx as [->|Hx]; apply elem_of_cons in Hy as [->|Hy].
  - done.
  - destruct Hz. rewrite Hk. by apply list_elem_of_fmap_2.
  - destruct Hz. rewrite <- Hk. by apply list_elem_of_fmap_2.
  - by apply IH.
Qed.

Lemma find_map_ext {A} (f : A → bool) (g : A → A) (l : list A) :
  (∀ x, x ∈ l → f (g x) = f x ∧ (f x = true → g x = x)) →
  find f (map g l) = find f l.
Proof.
  induction l as [|x l IH]; intros Hg; [done|]. cbn.
  destruct (Hg x) as [Hf Hx]; [left|]. rewrite Hf.
  destruct (f x); [by rewrite Hx|].
  apply IH. intros y Hy. apply Hg. by right.
Qed.

Lemma fmap_map_ext {A B} (h : A → B) (g : A → A) (l : list A) :
  (∀ x, x ∈ l → h (g x) = h x) → h <$> map g l = h <$> l.
Proof.
  induction l as [|x l IH]; intros Hg; [done|].
  cbn [map]. rewrite !fmap_cons. f_equal.
  - apply Hg. left.
  - apply IH. intros y Hy. apply Hg. by right.
Qed.

Lemma find_snoc {A} (f : A → bool) (l : list A) x :
  f x = false → find f (l ++ [x]) = find f l.
Proof.
  intros Hx. induction l as [|y l IH]; cbn; [by rewrite Hx|].
  by destruct (f y).
Qed.

(** What the plugins do to write the record of a pod: take the row of the
    pod, or the zero record when there is none, set its identity and its
    tombstone, and save it. *)
Lemma upsert ns name del now r tbl :
  rows.consistent tbl →
  database.base r
  = database.set_identity ns name del
      (database.base (database.Take None ns name tbl).1) →
  let tbl' := (database.Save None now r tbl).1 in
  rows.consistent tbl'
  ∧ (∃ r1, database.Take None ns name tbl' = (r1, None)
           ∧ database.Deleted (database.base r1) = del
           ∧ database.UpdatedAt (database.base r1) = now
           ∧ r1 = database.with_base (database.base r1) r)
  ∧ (∀ ns' name', (ns', name') ≠ (ns, name) →
       database.Take None ns' name' tbl' = database.Take None ns' name' tbl).
Proof.
  intros (Hvalid & Hkeys & Hids) Hbase tbl'.
  assert (rows.identity r = (ns, name)) as Hid.
  { unfold rows.identity. by rewrite Hbase. }
  assert (database.Deleted (database.base r) = del) as Hdel
    by (by rewrite Hbase).
  cut (rows.consistent tbl'
       ∧ (∃ r1, r1 ∈ tbl' ∧ rows.identity r1 = (ns, name)
                ∧ database.Deleted (database.base r1) = del
                ∧ database.UpdatedAt (database.base r1) = now
                ∧ r1 = database.with_base (database.base r1) r)
       ∧ (∀ ns' name', (ns', name') ≠ (ns, name) →
            find (database.identified ns' name') tbl'
            = find (database.identified ns' name') tbl)).
  { intros (Hcons & (r1 & Hin & Hr1 & Hrest) & Hframe).
    split; [done|]. split.
    - exists r1. split; [|done]. unfold database.Take.
      rewrite (find_unique ns name tbl' r1); [done|apply Hcons|done|done].
    - intros ns' name' Hne. unfold database.Take. by rewrite Hframe. }
  unfold tbl', database.Save, database.Take in *. clear tbl'.
  destruct (find (database.identified ns name) tbl) as [r0|] eqn:Hfind.
  - (* the pod has a row: it is updated in place *)
    apply find_some in Hfind as [Hin0%list_elem_of_In Hid0%identified_identity].
    cbn [fst] in Hbase.
    assert (rows.key r = rows.key r0) as Hkey.
    { unfold rows.key. by rewrite Hbase. }
    assert (rows.key r0 ≠ 0%N) as Hnz.
    { unfold keys.valid in Hvalid. rewrite Forall_forall in Hvalid.
      by apply Hvalid. }
    fold (rows.key r).
    destruct (N.eqb_spec (rows.key r) 0) as [Hz|_]; [congruence|].
    assert (existsb (λ x, (database.ID (database.base x) =? rows.key r)%N) tbl
            = true) as ->.
    { apply existsb_exists. exists r0. split; [by apply list_elem_of_In|].
      apply N.eqb_eq. by rewrite Hkey. }
    cbn [fst].
    set (saved := database.stamp (rows.key r)
                    (database.CreatedAt (database.base r)) now r).
    set (g := λ x : R, if (database.ID (database.base x) =? rows.key r)%N
                       then saved else x).
    assert (∀ x, x ∈ tbl →
              rows.key (g x) = rows.key x
              ∧ rows.identity (g x) = rows.identity x) as Hg.
    { intros x Hx. unfold g.
      destruct (N.eqb_spec (database.ID (database.base x)) (rows.key r))
        as [Heq|_]; [|done].
      assert (x = r0) as ->.
      { apply (key_inj tbl); [done..|]. unfold rows.key at 1. congruence. }
      split.
      - unfold rows.key, saved. by rewrite base_stamp.
      - transitivity (rows.identity r); [|congruence].
        unfold rows.identity, saved. by rewrite base_stamp. }
    assert (rows.key <$> map g tbl = rows.key <$> tbl) as Hk.
    { apply fmap_map_ext. intros x Hx. by apply Hg. }
    assert (rows.identity <$> map g tbl = rows.identity <$> tbl) as Hi.
    { apply fmap_map_ext. intros x Hx. by apply Hg. }
    split; [|split].
    + split; [|by rewrite Hk, Hi].
      unfold keys.valid. rewrite Forall_map.
      apply Forall_forall. intros x Hx. fold (rows.key (g x)).
      destruct (Hg x Hx) as [-> _].
      unfold keys.valid in Hvalid. rewrite Forall_forall in Hvalid.
      by apply Hvalid.
    + exists saved. split.
      { apply list_elem_of_fmap. exists r0. split; [|done].
        unfold g. fold (rows.key r0). rewrite <- Hkey.
        by rewrite N.eqb_refl. }
      unfold rows.identity, saved. rewrite base_stamp. cbn.
      split; [exact Hid|]. split; [done|]. split; [done|].
      reflexivity.
    + intros ns' name' Hne. apply find_map_ext. intros x Hx.
      destruct (Hg x Hx) as [_ Hix].
      assert (database.identified ns' name' (g x)
              = database.identified ns' name' x) as Hsame.
      { unfold database.identified. unfold rows.identity in Hix.
        by injection Hix as -> ->. }
      split; [done|]. intros Hxid. unfold g.
      destruct (N.eqb_spec (database.ID (database.base x)) (rows.key r))
        as [Heq|_]; [|done].
      assert (x = r0) as ->.
      { apply (key_inj tbl); [done..|]. unfold rows.key at 1. congruence. }
      apply identified_identity in Hxid. congruence.
  - (* no row yet: one is created *)
    cbn [fst] in Hbase. rewrite base_zero in Hbase.
    assert (database.ID (database.base r) = 0%N) as -> by (by rewrite Hbase).
    cbn [N.eqb fst]. unfold database.create.
    set (new := database.stamp _ _ _ r).
    assert (database.base new
            = {| database.ID := database.next_id tbl;
                 database.Namespace := ns; database.Name := name;
                 database.Deleted := del;
                 database.CreatedAt := now; database.UpdatedAt := now |})
      as Hnew.
    { unfold new. rewrite base_stamp, Hbase. reflexivity. }
    apply find_identity in Hfind.
    split; [|split].
    + split; [|split].
      * apply Forall_app. split; [done|]. constructor; [|constructor].
        rewrite Hnew. cbn. unfold database.next_id. lia.
      * rewrite fmap_app. apply NoDup_app. split; [done|].
        split; [|apply NoDup_singleton].
        intros k (x & -> & Hx)%list_elem_of_fmap Hk.
        apply list_elem_of_singleton in Hk.
        pose proof (next_id_above tbl x Hx) as Hlt.
        unfold rows.key at 2 in Hk. rewrite Hnew in Hk. cbn in Hk. lia.
      * rewrite fmap_app. apply NoDup_app. split; [done|].
        split; [|apply NoDup_singleton].
        intros i Hi Hk. apply list_elem_of_singleton in Hk.
        unfold rows.identity in Hk. rewrite Hnew in Hk. cbn in Hk.
        by subst i.
    + exists new. split; [apply elem_of_app; right; by left|].
      unfold rows.identity. rewrite Hnew. cbn.
      split; [done|]. split; [done|]. split; [done|].
      rewrite <- Hnew. unfold new, database.stamp.
      by rewrite base_with_base.
    + intros ns' name' Hne. apply find_snoc.
      apply not_true_is_false. intros Hx%identified_identity.
      unfold rows.identity in Hx. rewrite Hnew in Hx. cbn in Hx. congruence.
Qed.

Lemma purge_consistent flt now days tbl :
  rows.consistent tbl →
  rows.consistent (database.PurgeExpired flt now days tbl).1.
Proof.
  intros (Hvalid & Hkeys & Hids).
  unfold database.PurgeExpired, database.Delete.
  destruct flt; cbn [fst]; [done|].
  split; [|split].
  - unfold keys.valid in *. rewrite Forall_forall in *.
    intros x [_ Hx]%list_elem_of_filter. by apply Hvalid.
  - eapply sublist_NoDup; [exact Hkeys|].
    apply fmap_sublist, sublist_filter.
  - eapply sublist_NoDup; [exact Hids|].
    apply fmap_sublist, sublist_filter.
Qed.

(** A purge that succeeds removes the row of a pod or leaves it as it
    is. *)
Lemma purge_find now days ns name tbl :
  NoDup (rows.identity <$> tbl) →
  find (database.identified ns name)
    (database.PurgeExpired None now days tbl).1
  = match find (database.identified ns name) tbl with
    | Some r =>
        if database.expired (database.horizon now days) r then None
        else Some r
    | None => None
    end.
Proof.
  unfold database.PurgeExpired, database.Delete. cbn [fst].
  generalize (database.horizon now days) as e. intros e.
  induction tbl as [|x tbl IH]; intros Hnd; [done|].
  rewrite fmap_cons in Hnd. apply NoDup_cons in Hnd as [Hx Hnd].
  rewrite filter_cons. cbn [find].
  destruct (decide (database.expired e x = false)) as [Hkeep|Hdrop].
  - cbn [find]. destruct (database.identified ns name x); [by rewrite Hkeep|].
    by apply IH.
  - apply not_false_is_true in Hdrop.
    destruct (database.identified ns name x) eqn:Hxid; [|by apply IH].
    rewrite Hdrop. apply find_identity.
    apply identified_identity in Hxid. rewrite <- Hxid.
    intros Hin. apply Hx.
    eapply elem_of_sublist; [exact Hin|].
    apply fmap_sublist, sublist_filter.
Qed.
End Table.

(* --------------------------------------------------------------------- *)
(** ** host-local: the reserved address of a pod across release and expiry *)
(* --------------------------------------------------------------------- *)

Section Records.
Context {R : Type} `{database.Model R}.

Lemma Take_error ns name (tbl : list R) :
  (database.Take None ns name tbl).2 = None
  ∨ (database.Take None ns name tbl).2 = Some ErrRecordNotFound.
Proof.
  unfold database.Take.
  destruct (find (database.identified ns name) tbl); [by left|by right].
Qed.

Lemma Take_identity ns name (tbl : list R) r :
  database.Take None ns name tbl = (r, None) →
  r ∈ tbl ∧ rows.identity r = (ns, name).
Proof.
  unfold database.Take.
  destruct (find (database.identified ns name) tbl) as [r0|] eqn:Hfind;
    [|done].
  intros [= <-]. apply find_some in Hfind as [Hin Hid].
  apply list_elem_of_In in Hin. split; [done|].
  unfold database.identified in Hid.
  apply andb_true_iff in Hid as [Hns%String.eqb_eq Hname%String.eqb_eq].
  unfold rows.identity. by rewrite Hns, Hname.
Qed.

Lemma Take_fault e ns name (tbl : list R) :
  database.Take (Some e) ns name tbl = (database.zero, Some e).
Proof. reflexivity. Qed.

Lemma Save_fault e now r (tbl : list R) :
  database.Save (Some e) now r tbl = (tbl, Some e).
Proof. reflexivity. Qed.
End Records.

Lemma name_length (name : string) :
  name ≠ "" → (String.length name =? 0)%nat = false.
Proof. by destruct name. Qed.

Section Sticky.
Context {L : GoLib}.
Implicit Types (tbl : list database.ReservedIP).

Lemma upsert_ip ns name del now (r : database.ReservedIP) tbl :
  rows.consistent tbl →
  database.base r
  = database.set_identity ns name del
      (database.base (database.Take None ns name tbl).1) →
  let tbl' := (database.Save None now r tbl).1 in
  rows.consistent tbl'
  ∧ (∃ r1, database.Take None ns name tbl' = (r1, None)
           ∧ database.Deleted (database.base r1) = del
           ∧ database.UpdatedAt (database.base r1) = now
           ∧ database.IPv4 r1 = database.IPv4 r
           ∧ database.IPv6 r1 = database.IPv6 r)
  ∧ (∀ ns' name', (ns', name') ≠ (ns, name) →
       database.Take None ns' name' tbl' = database.Take None ns' name' tbl).
Proof.
  intros Hcons Hbase tbl'.
  destruct (upsert (H := database.ReservedIP_Model) (λ _ _, eq_refl) eq_refl
              ns name del now r tbl Hcons Hbase)
    as (Hcons' & (r1 & Htake & Hdel & Hupd & Hr1) & Hframe).
  split; [done|]. split; [|done].
  exists r1. split; [done|]. split; [done|]. split; [done|].
  rewrite Hr1. by split.
Qed.

(** What [saveIP] does when the database answers: it saves the record of
    the pod with the address in the field of its family. *)
Lemma saveIP_ok now ns name network dataDir (ip : IP) tbl :
  name ≠ "" →
  ∃ r,
    database.base r
    = database.set_identity ns name false
        (database.base (database.Take None ns name tbl).1)
    ∧ database.IPv4 r
      = (if bool_decide (IP_To4 ip ≠ None) then IP_String ip
         else database.IPv4 (database.Take None ns name tbl).1)
    ∧ database.IPv6 r
      = (if bool_decide (IP_To4 ip ≠ None)
         then database.IPv6 (database.Take None ns name tbl).1
         else IP_String ip)
    ∧ allocator.saveIP database.db_ok now ns name network dataDir ip tbl
      = (database.Save None now r tbl).1.
Proof.
  intros Hname. unfold allocator.saveIP.
  rewrite name_length, OpenDB_host_local by done.
  unfold database.GetReservedIP, database.ReserveIP.
  cbn [database.db_ok database.db_open database.db_take database.db_save].
  pose proof (Take_error ns name tbl) as Herr.
  destruct (database.Take None ns name tbl) as [r0 err]. cbn [fst snd] in *.
  assert (bool_decide (err ≠ None) && negb (database.IsNotFoundErr err)
          = false) as ->.
  { destruct Herr as [->| ->]; [|by rewrite andb_false_r].
    by rewrite bool_decide_eq_false_2 by (intros Hne; by apply Hne). }
  eexists. split; [|split; [|split; [|reflexivity]]]; reflexivity.
Qed.

(** Whatever the database does, short of reporting no record for a pod
    that has one, [saveIP] leaves the table as it is or does what it does
    when the database answers. *)
Lemma saveIP_faulty flt now ns name network dataDir (ip : IP) tbl :
  database.db_take flt ≠ Some ErrRecordNotFound →
  allocator.saveIP flt now ns name network dataDir ip tbl = tbl
  ∨ (name ≠ ""
     ∧ allocator.saveIP flt now ns name network dataDir ip tbl
       = allocator.saveIP database.db_ok now ns name network dataDir ip tbl).
Proof.
  intros Htake. unfold allocator.saveIP.
  destruct (String.length name =? 0)%nat eqn:Hlen; [by left|].
  assert (name ≠ "") as Hname by (by intros ->).
  rewrite !OpenDB_host_local.
  destruct (database.db_open flt); [by left|].
  unfold database.GetReservedIP, database.ReserveIP.
  destruct (database.db_take flt) as [e|].
  { left. rewrite Take_fault.
    rewrite bool_decide_eq_true_2 by done.
    by destruct e. }
  cbn [database.db_ok database.db_open database.db_take database.db_save].
  destruct (database.Take None ns name tbl) as [r0 err].
  destruct (_ && _); [by left|].
  destruct (database.db_save flt); [by left|]. by right.
Qed.

Lemma markDeletedIP_ok now network dataDir envArgs ns name err tbl :
  utils.ResolvePodNSAndNameFromEnvArgs envArgs = (ns, name, err) →
  name ≠ "" →
  allocator.markDeletedIP database.db_ok now network dataDir envArgs tbl
  = match database.Take None ns name tbl with
    | (r0, None) =>
        (database.Save None now
           {| database.IPv4 := database.IPv4 r0;
              database.IPv6 := database.IPv6 r0;
              database.IP_BaseModel :=
                database.set_deleted true (database.IP_BaseModel r0) |}
           tbl).1
    | _ => tbl
    end.
Proof.
  intros Hargs Hname. unfold allocator.markDeletedIP.
  rewrite Hargs, name_length, OpenDB_host_local by done.
  reflexivity.
Qed.

Lemma markDeletedIP_faulty flt now network dataDir envArgs tbl :
  allocator.markDeletedIP flt now network dataDir envArgs tbl = tbl
  ∨ allocator.markDeletedIP flt now network dataDir envArgs tbl
    = allocator.markDeletedIP database.db_ok now network dataDir envArgs tbl.
Proof.
  unfold allocator.markDeletedIP.
  destruct (utils.ResolvePodNSAndNameFromEnvArgs envArgs) as [[ns name] err].
  destruct (String.length name =? 0)%nat; [by left|].
  rewrite !OpenDB_host_local.
  destruct (database.db_open flt); [by left|].
  unfold database.GetReservedIP, database.ReserveIP.
  destruct (database.db_take flt) as [e|]; [by left|].
  cbn [database.db_ok database.db_open database.db_take database.db_save].
  destruct (database.Take None ns name tbl) as [r0 [e|]]; [by left|].
  destruct (database.db_save flt); [by left|]. by right.
Qed.

(** Tombstoning the record of a pod that has one. *)
Lemma markDeletedIP_marks now network dataDir envArgs ns name err tbl r0 :
  utils.ResolvePodNSAndNameFromEnvArgs envArgs = (ns, name, err) →
  name ≠ "" →
  rows.consistent tbl →
  database.Take None ns name tbl = (r0, None) →
  let tbl' :=
    allocator.markDeletedIP database.db_ok now network dataDir envArgs tbl in
  rows.consistent tbl'
  ∧ (∃ r1, database.Take None ns name tbl' = (r1, None)
           ∧ database.Deleted (database.base r1) = true
           ∧ database.UpdatedAt (database.base r1) = now
           ∧ database.IPv4 r1 = database.IPv4 r0
           ∧ database.IPv6 r1 = database.IPv6 r0)
  ∧ (∀ ns' name', (ns', name') ≠ (ns, name) →
       database.Take None ns' name' tbl' = database.Take None ns' name' tbl).
Proof.
  intros Hargs Hname Hcons Htake tbl'. unfold tbl'.
  rewrite (markDeletedIP_ok _ _ _ _ _ _ _ _ Hargs Hname), Htake.
  destruct (Take_identity _ _ _ _ Htake) as [_ Hid].
  set (r := {| database.IPv4 := database.IPv4 r0 |}).
  apply (upsert_ip ns name true now r tbl); [done|].
  rewrite Htake. cbn [fst].
  unfold rows.identity in Hid. injection Hid as Hns Hnm.
  cbn in Hns, Hnm |- *. unfold database.set_deleted. by rewrite Hns, Hnm.
Qed.

Lemma markDeletedIP_absent now network dataDir envArgs ns name err tbl :
  utils.ResolvePodNSAndNameFromEnvArgs envArgs = (ns, name, err) →
  (database.Take None ns name tbl).2 ≠ None →
  allocator.markDeletedIP database.db_ok now network dataDir envArgs tbl
  = tbl.
Proof.
  intros Hargs Htake. unfold allocator.markDeletedIP. rewrite Hargs.
  destruct (String.length name =? 0)%nat; [done|].
  rewrite OpenDB_host_local.
  unfold database.GetReservedIP.
  cbn [database.db_ok database.db_open database.db_take database.db_save].
  by destruct (database.Take None ns name tbl) as [r0 [e|]].
Qed.

Lemma getIP_ok rangeset ns name network dataDir tbl :
  name ≠ "" →
  allocator.getIP database.db_ok rangeset ns name network dataDir tbl
  = match database.Take None ns name tbl with
    | (r, None) =>
        if bool_decide
             (IP_To4 (allocator.Subnet_IP (allocator.rangeset_0 rangeset))
              ≠ None)
        then ParseIP (database.IPv4 r) else ParseIP (database.IPv6 r)
    | _ => None
    end.
Proof.
  intros Hname. unfold allocator.getIP.
  rewrite name_length, OpenDB_host_local by done.
  unfold database.GetReservedIP.
  cbn [database.db_ok database.db_open database.db_take].
  by destruct (database.Take None ns name tbl) as [r [[]|]].
Qed.

(** [getIP] reads the table through the row of the pod only. *)
Lemma getIP_ext flt rangeset ns name network dataDir tbl tbl' :
  database.Take None ns name tbl' = database.Take None ns name tbl →
  allocator.getIP flt rangeset ns name network dataDir tbl'
  = allocator.getIP flt rangeset ns name network dataDir tbl.
Proof.
  intros Htake. unfold allocator.getIP.
  destruct (String.length name =? 0)%nat; [done|].
  destruct (database.OpenDB _ _ _ _); [done|].
  unfold database.GetReservedIP.
  destruct (database.db_take flt); [done|]. by rewrite Htake.
Qed.
End Sticky.

Section Window.
Context {L : GoLib}.
Implicit Types (tbl : list database.ReservedIP).

Lemma saveIP_then_getIP rangeset now ns name network dataDir (ip : IP) tbl :
  name ≠ "" →
  rows.consistent tbl →
  (IP_To4 ip ≠ None
   ↔ IP_To4 (allocator.Subnet_IP (allocator.rangeset_0 rangeset)) ≠ None) →
  let tbl' :=
    allocator.saveIP database.db_ok now ns name network dataDir ip tbl in
  rows.consistent tbl'
  ∧ ∃ r1, database.Take None ns name tbl' = (r1, None)
          ∧ database.Deleted (database.base r1) = false
          ∧ (if bool_decide
                  (IP_To4 (allocator.Subnet_IP (allocator.rangeset_0 rangeset))
                   ≠ None)
             then database.IPv4 r1 else database.IPv6 r1) = IP_String ip.
Proof.
  intros Hname Hcons Hfam tbl'. unfold tbl'.
  destruct (saveIP_ok now ns name network dataDir ip tbl Hname)
    as (r & Hbase & H4 & H6 & ->).
  destruct (upsert_ip ns name false now r tbl Hcons Hbase)
    as (Hcons' & (r1 & Htake & Hdel & _ & Hr4 & Hr6) & _).
  split; [done|]. exists r1. split; [done|]. split; [done|].
  rewrite Hr4, Hr6, H4, H6, <- (bool_decide_ext _ _ Hfam).
  by destruct (bool_decide (IP_To4 ip ≠ None)).
Qed.
End Window.

(** X8. The table of reserved addresses stays as the plugin keeps it:
    when its primary keys are set and distinct and no pod has two rows,
    the same holds after [saveIP], [markDeletedIP], [ReleaseExpiredIPs] and
    [GetIP], whatever failures of the database they meet - provided the
    database does not report [ErrRecordNotFound] for a pod that has a
    row. *)
Theorem reserved_ips_stay_consistent {L : GoLib}
    (Get : string → string → option IP → Dir → Dir * allocator.Allocation)
    flt fg now rangeset network dataDir
    (tbl : list database.ReservedIP) :
  database.db_take flt ≠ Some ErrRecordNotFound →
  rows.consistent tbl →
  (∀ ns name (ip : IP),
     rows.consistent
       (allocator.saveIP flt now ns name network dataDir ip tbl))
  ∧ (∀ envArgs,
       rows.consistent
         (allocator.markDeletedIP flt now network dataDir envArgs tbl))
  ∧ (∀ days,
       rows.consistent
         (allocator.ReleaseExpiredIPs flt now network dataDir days tbl))
  ∧ (∀ envArgs id ifname requestedIP d,
       rows.consistent
         (allocator.reserved
            (allocator.GetIP Get fg flt now rangeset network dataDir envArgs
               id ifname requestedIP
               {| allocator.files := d; allocator.reserved := tbl |}).1)).
Proof.
  intros Htake Hcons.
  assert (∀ ns name (ip : IP),
            rows.consistent
              (allocator.saveIP flt now ns name network dataDir ip tbl))
    as Hsave.
  { intros ns name ip.
    destruct (saveIP_faulty flt now ns name network dataDir ip tbl Htake)
      as [->|[Hname ->]]; [done|].
    destruct (saveIP_ok now ns name network dataDir ip tbl Hname)
      as (r & Hbase & _ & _ & ->).
    by apply (upsert_ip ns name false now r tbl). }
  split; [exact Hsave|]. split; [|split].
  - intros envArgs.
    destruct (markDeletedIP_faulty flt now network dataDir envArgs tbl)
      as [->| ->]; [done|].
    destruct (utils.ResolvePodNSAndNameFromEnvArgs envArgs)
      as [[ns name] err] eqn:Hargs.
    destruct (database.Take None ns name tbl) as [r0 [e|]] eqn:Hrow.
    + rewrite (markDeletedIP_absent now network dataDir envArgs ns name err);
        [done..|]. by rewrite Hrow.
    + destruct (decide (name = "")) as [->|Hname].
      * unfold allocator.markDeletedIP. by rewrite Hargs.
      * by apply (markDeletedIP_marks now network dataDir envArgs ns name err
                    tbl r0).
  - intros days. unfold allocator.ReleaseExpiredIPs.
    destruct (days =? 0)%Z; [done|]. rewrite OpenDB_host_local.
    destruct (database.db_open flt); [done|].
    by apply purge_consistent.
  - intros envArgs id ifname requestedIP d. unfold allocator.GetIP.
    destruct (utils.ResolvePodNSAndNameFromEnvArgs envArgs)
      as [[ns name] err].
    cbn [allocator.files allocator.reserved].
    destruct (String.length name =? 0)%nat.
    + by destruct (Get id ifname requestedIP d).
    + destruct (Get id ifname _ d) as [d' [cfg|cfg e]]; [|done].
      apply Hsave.
Qed.

Lemma reserved_ips_stay_consistent_witness :
  rows.consistent
    (allocator.saveIP (L := fixture.lib) database.db_ok expiry.now
       "NS2" "pod2" "net" "" fixture.ip_10_2 []).
Proof.
  apply (reserved_ips_stay_consistent (L := fixture.lib)
           (fixture.Get (L := fixture.lib) "0" scenario.candidates)
           database.db_ok database.db_ok expiry.now scenario.rangeset
           "net" "" []).
  - discriminate.
  - split; [constructor|]. split; constructor.
Defined.

(** X9. The pods do not disturb each other in the table of reserved
    addresses: [saveIP] and [markDeletedIP] for one pod leave what
    [getIP] returns for every other pod as it was, whatever failures of
    the database the calls meet (short of [ErrRecordNotFound] for a pod
    that has a row). *)
Theorem reserved_ips_isolated {L : GoLib} flt fg now rangeset ns name uerr
    ns' name' network dataDir envArgs (ip : IP)
    (tbl : list database.ReservedIP) :
  database.db_take flt ≠ Some ErrRecordNotFound →
  rows.consistent tbl →
  utils.ResolvePodNSAndNameFromEnvArgs envArgs = (ns, name, uerr) →
  (ns', name') ≠ (ns, name) →
  allocator.getIP fg rangeset ns' name' network dataDir
    (allocator.saveIP flt now ns name network dataDir ip tbl)
  = allocator.getIP fg rangeset ns' name' network dataDir tbl
  ∧ allocator.getIP fg rangeset ns' name' network dataDir
      (allocator.markDeletedIP flt now network dataDir envArgs tbl)
    = allocator.getIP fg rangeset ns' name' network dataDir tbl.
Proof.
  intros Htake Hcons Hargs Hne. split; apply getIP_ext.
  - destruct (saveIP_faulty flt now ns name network dataDir ip tbl Htake)
      as [->|[Hname ->]]; [done|].
    destruct (saveIP_ok now ns name network dataDir ip tbl Hname)
      as (r & Hbase & _ & _ & ->).
    by apply (upsert_ip ns name false now r tbl).
  - destruct (markDeletedIP_faulty flt now network dataDir envArgs tbl)
      as [->| ->]; [done|].
    destruct (database.Take None ns name tbl) as [r0 [e|]] eqn:Hrow.
    + rewrite (markDeletedIP_absent now network dataDir envArgs ns name uerr);
        [done..|]. by rewrite Hrow.
    + destruct (decide (name = "")) as [->|Hname].
      * unfold allocator.markDeletedIP. by rewrite Hargs.
      * by apply (markDeletedIP_marks now network dataDir envArgs ns name uerr
                    tbl r0).
Qed.

Lemma reserved_ips_isolated_witness :
  allocator.getIP (L := fixture.lib) database.db_ok scenario.rangeset
    "NS2" "pod2" "net" ""
    (allocator.markDeletedIP database.db_ok expiry.now "net" ""
       "K8S_POD_NAMESPACE=NS1;K8S_POD_NAME=pod1"
       [expiry.tombstone; scenario.pod2])
  = Some fixture.ip_10_2.
Proof.
  etransitivity.
  - apply (reserved_ips_isolated (L := fixture.lib) database.db_ok
             database.db_ok expiry.now scenario.rangeset "NS1" "pod1" None
             "NS2" "pod2" "net" ""
             "K8S_POD_NAMESPACE=NS1;K8S_POD_NAME=pod1" fixture.ip_10_1
             [expiry.tombstone; scenario.pod2]).
    + discriminate.
    + split; [repeat constructor; discriminate|].
      split; apply (bool_decide_unpack _); vm_compute; exact I.
    + vm_compute. reflexivity.
    + discriminate.
  - vm_compute. reflexivity.
Defined.

(** X10. A released pod gets its address back within the retention and
    not after it.  The address saved for a pod by [saveIP], of the family
    of the range set, is what [getIP] returns after [markDeletedIP] has
    tombstoned the record; and after a [ReleaseExpiredIPs] with a
    retention of [days] (at most 106751 in absolute value) at a later time
    [getIP] returns no address if [days] is not zero and the record was
    tombstoned more than [days] days before, and the address otherwise -
    with zero days no record ever expires. *)
Theorem sticky_address_window {L : GoLib} rangeset now0 now1 now2 days
    ns name uerr network dataDir envArgs (ip : IP)
    (tbl : list database.ReservedIP) :
  rows.consistent tbl →
  utils.ResolvePodNSAndNameFromEnvArgs envArgs = (ns, name, uerr) →
  name ≠ "" →
  (IP_To4 ip ≠ None
   ↔ IP_To4 (allocator.Subnet_IP (allocator.rangeset_0 rangeset)) ≠ None) →
  (- 106751 ≤ days ≤ 106751)%Z →
  let t1 :=
    allocator.saveIP database.db_ok now0 ns name network dataDir ip tbl in
  let t2 :=
    allocator.markDeletedIP database.db_ok now1 network dataDir envArgs t1 in
  let t3 :=
    allocator.ReleaseExpiredIPs database.db_ok now2 network dataDir days t2 in
  allocator.getIP database.db_ok rangeset ns name network dataDir t2
  = ParseIP (IP_String ip)
  ∧ allocator.getIP database.db_ok rangeset ns name network dataDir t3
    = if negb (days =? 0)%Z && (now1 <? now2 - days * expiry.day)%Z
      then None else ParseIP (IP_String ip).
Proof.
  intros Hcons Hargs Hname Hfam Hdays t1 t2 t3.
  destruct (saveIP_then_getIP rangeset now0 ns name network dataDir ip tbl
              Hname Hcons Hfam) as (Hcons1 & r1 & Htake1 & _ & Hfield1).
  fold t1 in Hcons1, Htake1.
  destruct (markDeletedIP_marks now1 network dataDir envArgs ns name uerr
              t1 r1 Hargs Hname Hcons1 Htake1)
    as (Hcons2 & (r2 & Htake2 & Hdel2 & Hupd2 & H4 & H6) & _).
  fold t2 in Hcons2, Htake2.
  assert (allocator.getIP database.db_ok rangeset ns name network dataDir t2
          = ParseIP (IP_String ip)) as Hget2.
  { rewrite getIP_ok, Htake2, H4, H6 by done. rewrite <- Hfield1.
    by destruct (bool_decide _). }
  split; [exact Hget2|].
  unfold t3, allocator.ReleaseExpiredIPs.
  destruct (Z.eqb_spec days 0) as [->|Hnz]; [exact Hget2|].
  rewrite OpenDB_host_local.
  cbn [database.db_ok database.db_open database.db_purge negb andb].
  rewrite getIP_ok by done. unfold database.PurgeExpiredIPs.
  unfold database.Take in Htake2 |- *.
  rewrite purge_find by apply Hcons2.
  destruct (find (database.identified ns name) t2) as [r|]; [|done].
  injection Htake2 as ->.
  unfold database.expired. rewrite Hdel2, Hupd2, horizon_exact by done.
  cbn [Bool.eqb andb].
  destruct (now1 <? now2 - days * expiry.day)%Z; [done|].
  rewrite H4, H6, <- Hfield1. by destruct (bool_decide _).
Qed.

Lemma sticky_address_window_witness :
  let t1 := allocator.saveIP (L := fixture.lib) database.db_ok expiry.now
              "NS2" "pod2" "net" "" fixture.ip_10_2 [] in
  let t2 := allocator.markDeletedIP database.db_ok (expiry.now + expiry.day)
              "net" "" scenario.envArgs t1 in
  allocator.getIP (L := fixture.lib) database.db_ok scenario.rangeset
    "NS2" "pod2" "net" ""
    (allocator.ReleaseExpiredIPs database.db_ok
       (expiry.now + 2 * expiry.day) "net" "" 2 t2)
  = Some fixture.ip_10_2
  ∧ allocator.getIP (L := fixture.lib) database.db_ok scenario.rangeset
      "NS2" "pod2" "net" ""
      (allocator.ReleaseExpiredIPs database.db_ok
         (expiry.now + 4 * expiry.day) "net" "" 2 t2)
    = None.
Proof.
  split.
  - apply (sticky_address_window (L := fixture.lib) scenario.rangeset
             expiry.now (expiry.now + expiry.day)
             (expiry.now + 2 * expiry.day) 2 "NS2" "pod2" None "net" ""
             scenario.envArgs fixture.ip_10_2 []).
    + split; [constructor|]. split; constructor.
    + vm_compute. reflexivity.
    + discriminate.
    + split; intros _; discriminate.
    + lia.
  - apply (sticky_address_window (L := fixture.lib) scenario.rangeset
             expiry.now (expiry.now + expiry.day)
             (expiry.now + 4 * expiry.day) 2 "NS2" "pod2" None "net" ""
             scenario.envArgs fixture.ip_10_2 []).
    + split; [constructor|]. split; constructor.
    + vm_compute. reflexivity.
    + discriminate.
    + split; intros _; discriminate.
    + lia.
Defined.

(** X11. The reserved address has precedence over the requested one.
    When [GetIP] has allocated an address of the family of the range set
    for a pod and the database answers, the next [GetIP] for that pod asks
    [Get] for that very address (as its text parses), whatever address is
    requested and whatever container and interface ask; what it returns
    is what that call of [Get] returns. *)
Theorem GetIP_reuses_address {L : GoLib}
    (Get : string → string → option IP → Dir → Dir * allocator.Allocation)
    fs now now' rangeset network dataDir envArgs ns name uerr
    id ifname requestedIP id' ifname' requestedIP'
    (w w1 : allocator.World) ipCfg (known : IP) :
  utils.ResolvePodNSAndNameFromEnvArgs envArgs = (ns, name, uerr) →
  name ≠ "" →
  rows.consistent (allocator.reserved w) →
  allocator.GetIP Get database.db_ok database.db_ok now rangeset network
    dataDir envArgs id ifname requestedIP w
  = (w1, allocator.Allocated ipCfg) →
  (IP_To4 (allocator.Address_IP ipCfg) ≠ None
   ↔ IP_To4 (allocator.Subnet_IP (allocator.rangeset_0 rangeset)) ≠ None) →
  ParseIP (IP_String (allocator.Address_IP ipCfg)) = Some known →
  let out := allocator.GetIP Get database.db_ok fs now' rangeset network
               dataDir envArgs id' ifname' requestedIP' w1 in
  (allocator.files out.1, out.2)
  = Get id' ifname' (Some known) (allocator.files w1).
Proof.
  intros Hargs Hname Hcons Hfirst Hfam Hparse out.
  assert (allocator.reserved w1
          = allocator.saveIP database.db_ok now ns name network dataDir
              (allocator.Address_IP ipCfg) (allocator.reserved w)) as Hsaved.
  { unfold allocator.GetIP in Hfirst.
    rewrite Hargs, name_length in Hfirst by done.
    destruct (Get id ifname _ (allocator.files w)) as [d [cfg|cfg e]];
      [|done].
    by injection Hfirst as <- <-. }
  destruct (saveIP_then_getIP rangeset now ns name network dataDir
              (allocator.Address_IP ipCfg) (allocator.reserved w)
              Hname Hcons Hfam) as (_ & r1 & Htake & _ & Hfield).
  rewrite <- Hsaved in Htake.
  assert (allocator.getIP database.db_ok rangeset ns name network dataDir
            (allocator.reserved w1) = Some known) as Hknown.
  { rewrite getIP_ok, Htake by done. rewrite <- Hparse, <- Hfield.
    by destruct (bool_decide _). }
  pose proof (GetIP_is_Get Get database.db_ok fs now' rangeset network
                dataDir envArgs id' ifname' requestedIP' w1) as Hget.
  rewrite Hargs, name_length, Hknown in Hget by done.
  exact Hget.
Qed.

Lemma GetIP_reuses_address_witness :
  let Get := fixture.Get (L := fixture.lib) "0" scenario.candidates in
  let w : allocator.World :=
    {| allocator.files := ∅; allocator.reserved := [] |} in
  let w1 :=
    (allocator.GetIP (L := fixture.lib) Get database.db_ok database.db_ok
       expiry.now scenario.rangeset "net" "" scenario.envArgs
       "c1" "eth0" None w).1 in
  let out :=
    allocator.GetIP (L := fixture.lib) Get database.db_ok database.db_ok
      (expiry.now + expiry.day) scenario.rangeset "net" ""
      scenario.envArgs "c2" "eth0" (Some fixture.ip_10_3) w1 in
  (allocator.files out.1, out.2)
  = Get "c2" "eth0" (Some fixture.ip_10_1) (allocator.files w1).
Proof.
  intros Get w w1.
  apply (GetIP_reuses_address (L := fixture.lib) Get database.db_ok
           expiry.now (expiry.now + expiry.day) scenario.rangeset "net" ""
           scenario.envArgs "NS2" "pod2" None "c1" "eth0" None
           "c2" "eth0" (Some fixture.ip_10_3) w w1
           (scenario.config fixture.ip_10_1) fixture.ip_10_1).
  - vm_compute. reflexivity.
  - discriminate.
  - split; [constructor|]. split; constructor.
  - vm_compute. reflexivity.
  - split; intros _; discriminate.
  - vm_compute. reflexivity.
Defined.

(* --------------------------------------------------------------------- *)
(** ** bridge: the reserved MAC of a pod across release and expiry *)
(* --------------------------------------------------------------------- *)

Section Purge.
Context {R : Type} `{database.Model R}.

(** No purge touches the row of a pod that is not tombstoned. *)
Lemma purge_keeps_Take flt now days ns name (tbl : list R) r :
  rows.consistent tbl →
  database.Take None ns name tbl = (r, None) →
  database.Deleted (database.base r) = false →
  database.Take None ns name (database.PurgeExpired flt now days tbl).1
  = (r, None).
Proof.
  intros Hcons Htake Hlive.
  destruct flt as [e|]; [done|].
  unfold database.Take in *. rewrite purge_find by apply Hcons.
  destruct (find (database.identified ns name) tbl) as [r0|]; [|done].
  injection Htake as ->.
  unfold database.expired. by rewrite Hlive.
Qed.

(** A purge that succeeds, for a retention within range, removes the
    tombstoned row of a pod when it was last written before the horizon,
    and leaves it otherwise. *)
Lemma purge_Take_tombstone now days ns name (tbl : list R) r :
  rows.consistent tbl →
  (- 106751 ≤ days ≤ 106751)%Z →
  database.Take None ns name tbl = (r, None) →
  database.Deleted (database.base r) = true →
  database.Take None ns name (database.PurgeExpired None now days tbl).1
  = if (database.UpdatedAt (database.base r) <? now - days * expiry.day)%Z
    then (database.zero, Some ErrRecordNotFound) else (r, None).
Proof.
  intros Hcons Hdays Htake Hdel.
  unfold database.Take in *. rewrite purge_find by apply Hcons.
  destruct (find (database.identified ns name) tbl) as [r0|]; [|done].
  injection Htake as ->.
  unfold database.expired. rewrite Hdel, horizon_exact by done.
  cbn [Bool.eqb andb]. by destruct (_ <? _)%Z.
Qed.
End Purge.

Section StickyMAC.
Context {L : GoLib}.
Implicit Types (tbl : list database.ReservedMAC).

Lemma upsert_mac ns name del now (r : database.ReservedMAC) tbl :
  rows.consistent tbl →
  database.base r
  = database.set_identity ns name del
      (database.base (database.Take None ns name tbl).1) →
  let tbl' := (database.Save None now r tbl).1 in
  rows.consistent tbl'
  ∧ (∃ r1, database.Take None ns name tbl' = (r1, None)
           ∧ database.Deleted (database.base r1) = del
           ∧ database.UpdatedAt (database.base r1) = now
           ∧ database.MAC r1 = database.MAC r)
  ∧ (∀ ns' name', (ns', name') ≠ (ns, name) →
       database.Take None ns' name' tbl' = database.Take None ns' name' tbl).
Proof.
  intros Hcons Hbase tbl'.
  destruct (upsert (H := database.ReservedMAC_Model) (λ _ _, eq_refl) eq_refl
              ns name del now r tbl Hcons Hbase)
    as (Hcons' & (r1 & Htake & Hdel & Hupd & Hr1) & Hframe).
  split; [done|]. split; [|done].
  exists r1. split; [done|]. split; [done|]. split; [done|].
  by rewrite Hr1.
Qed.

(** Tombstoning the row of a pod, as [releaseMAC] does. *)
Lemma Save_tombstone_mac ns name now tbl r0 :
  rows.consistent tbl →
  database.Take None ns name tbl = (r0, None) →
  let tbl' :=
    (database.Save None now
       {| database.MAC := database.MAC r0;
          database.MAC_BaseModel :=
            database.set_deleted true (database.MAC_BaseModel r0) |}
       tbl).1 in
  rows.consistent tbl'
  ∧ (∃ r1, database.Take None ns name tbl' = (r1, None)
           ∧ database.Deleted (database.base r1) = true
           ∧ database.UpdatedAt (database.base r1) = now
           ∧ database.MAC r1 = database.MAC r0)
  ∧ (∀ ns' name', (ns', name') ≠ (ns, name) →
       database.Take None ns' name' tbl' = database.Take None ns' name' tbl).
Proof.
  intros Hcons Htake.
  destruct (Take_identity _ _ _ _ Htake) as [_ Hid].
  set (r := {| database.MAC := database.MAC r0 |}).
  apply (upsert_mac ns name true now r tbl); [done|].
  rewrite Htake. cbn [fst].
  unfold rows.identity in Hid. injection Hid as Hns Hnm.
  cbn in Hns, Hnm |- *. unfold database.set_deleted. by rewrite Hns, Hnm.
Qed.

Lemma saveReservedMAC_ok now network envArgs ns name err containerMAC tbl :
  utils.ResolvePodNSAndNameFromEnvArgs envArgs = (ns, name, err) →
  name ≠ "" →
  ∃ r,
    database.base r
    = database.set_identity ns name false
        (database.base (database.Take None ns name tbl).1)
    ∧ database.MAC r = containerMAC
    ∧ bridge.saveReservedMAC database.db_ok now network envArgs containerMAC
        tbl
      = (database.Save None now r tbl).1.
Proof.
  intros Hargs Hname. unfold bridge.saveReservedMAC.
  rewrite Hargs, name_length, OpenDB_bridge by done.
  unfold database.GetReservedMAC, database.ReserveMAC.
  cbn [database.db_ok database.db_open database.db_take database.db_save].
  pose proof (Take_error ns name tbl) as Herr.
  destruct (database.Take None ns name tbl) as [r0 e]. cbn [fst snd] in *.
  assert (bool_decide (e ≠ None) && negb (database.IsNotFoundErr e) = false)
    as ->.
  { destruct Herr as [->| ->]; [|by rewrite andb_false_r].
    by rewrite bool_decide_eq_false_2 by (intros Hne; by apply Hne). }
  eexists. split; [|split; [|reflexivity]]; reflexivity.
Qed.

Lemma saveReservedMAC_faulty flt now network envArgs ns name err
    containerMAC tbl :
  utils.ResolvePodNSAndNameFromEnvArgs envArgs = (ns, name, err) →
  database.db_take flt ≠ Some ErrRecordNotFound →
  bridge.saveReservedMAC flt now network envArgs containerMAC tbl = tbl
  ∨ (name ≠ ""
     ∧ bridge.saveReservedMAC flt now network envArgs containerMAC tbl
       = bridge.saveReservedMAC database.db_ok now network envArgs
           containerMAC tbl).
Proof.
  intros Hargs Htake. unfold bridge.saveReservedMAC. rewrite Hargs.
  destruct (String.length name =? 0)%nat eqn:Hlen; [by left|].
  assert (name ≠ "") as Hname by (by intros ->).
  rewrite !OpenDB_bridge.
  destruct (database.db_open flt); [by left|].
  unfold database.GetReservedMAC, database.ReserveMAC.
  destruct (database.db_take flt) as [e|].
  { left. rewrite Take_fault.
    rewrite bool_decide_eq_true_2 by done.
    by destruct e. }
  cbn [database.db_ok database.db_open database.db_take database.db_save].
  destruct (database.Take None ns name tbl) as [r0 e].
  destruct (_ && _); [by left|].
  destruct (database.db_save flt); [by left|]. by right.
Qed.

Lemma releaseMAC_ok now network envArgs ns name err expirationDays tbl :
  utils.ResolvePodNSAndNameFromEnvArgs envArgs = (ns, name, err) →
  name ≠ "" →
  bridge.releaseMAC None database.db_ok now network envArgs expirationDays
    tbl
  = let tbl0 :=
      if (0 <? expirationDays)%Z
      then (database.PurgeExpired None now expirationDays tbl).1 else tbl in
    match database.Take None ns name tbl0 with
    | (r0, None) =>
        (database.Save None now
           {| database.MAC := database.MAC r0;
              database.MAC_BaseModel :=
                database.set_deleted true (database.MAC_BaseModel r0) |}
           tbl0).1
    | _ => tbl0
    end.
Proof.
  intros Hargs Hname. unfold bridge.releaseMAC.
  rewrite Hargs, name_length, OpenDB_bridge by done.
  reflexivity.
Qed.

Lemma getReservedMAC_ok now netConf envArgs ns name err tbl :
  bridge.mac netConf = "" →
  utils.ResolvePodNSAndNameFromEnvArgs envArgs = (ns, name, err) →
  name ≠ "" →
  (bridge.getReservedMAC database.db_ok now netConf envArgs tbl).1
  = let tbl0 :=
      if (0 <? bridge.ReservedMACDays netConf)%Z
      then (database.PurgeExpired None now (bridge.ReservedMACDays netConf)
              tbl).1
      else tbl in
    match database.Take None ns name tbl0 with
    | (r, None) =>
        if String.eqb (database.MAC r) "" then netConf
        else match ParseMAC (database.MAC r) with
             | None => netConf
             | Some _ =>
                 {| bridge.Name := bridge.Name netConf;
                    bridge.mac := database.MAC r;
                    bridge.ReservedMACDays := bridge.ReservedMACDays netConf |}
             end
    | _ => netConf
    end.
Proof.
  intros Hmac Hargs Hname. unfold bridge.getReservedMAC.
  rewrite Hmac, Hargs, name_length, OpenDB_bridge by done.
  cbn [String.length Nat.ltb Nat.leb].
  unfold database.GetReservedMAC, database.PurgeExpiredMACs.
  cbn [database.db_ok database.db_open database.db_take database.db_purge].
  cbv zeta.
  pose proof (Take_error ns name
                (if (0 <? bridge.ReservedMACDays netConf)%Z
                 then (database.PurgeExpired None now
                         (bridge.ReservedMACDays netConf) tbl).1
                 else tbl)) as Herr.
  destruct (database.Take None ns name _) as [r e] eqn:Htake.
  cbn [snd] in Herr. destruct Herr as [->| ->].
  - rewrite bool_decide_eq_false_2 by (intros Hne; by apply Hne).
    cbn [andb]. destruct (String.eqb _ _); [done|].
    by destruct (ParseMAC _).
  - cbn [database.IsNotFoundErr negb]. rewrite andb_false_r.
    unfold database.Take in Htake.
    destruct (find _ _); [done|]. by injection Htake as <-.
Qed.
End StickyMAC.

(** X12. The table of reserved MACs stays as the plugin keeps it: when
    its primary keys are set and distinct and no pod has two rows, the
    same holds after [saveReservedMAC], [releaseMAC] and [getReservedMAC],
    whatever failures of the lock and of the database they meet -
    provided the database does not report [ErrRecordNotFound] for a pod
    that has a row. *)
Theorem reserved_macs_stay_consistent {L : GoLib} lock_fault flt now
    network envArgs (tbl : list database.ReservedMAC) :
  database.db_take flt ≠ Some ErrRecordNotFound →
  rows.consistent tbl →
  (∀ containerMAC,
     rows.consistent
       (bridge.saveReservedMAC flt now network envArgs containerMAC tbl))
  ∧ (∀ expirationDays,
       rows.consistent
         (bridge.releaseMAC lock_fault flt now network envArgs
            expirationDays tbl))
  ∧ (∀ netConf,
       rows.consistent (bridge.getReservedMAC flt now netConf envArgs tbl).2).
Proof.
  intros Htake Hcons.
  destruct (utils.ResolvePodNSAndNameFromEnvArgs envArgs)
    as [[ns name] err] eqn:Hargs.
  split; [|split].
  - intros containerMAC.
    destruct (saveReservedMAC_faulty flt now network envArgs ns name err
                containerMAC tbl Hargs Htake) as [->|[Hname ->]]; [done|].
    destruct (saveReservedMAC_ok now network envArgs ns name err containerMAC
                tbl Hargs Hname) as (r & Hbase & _ & ->).
    by apply (upsert_mac ns name false now r tbl).
  - intros expirationDays. unfold bridge.releaseMAC.
    destruct lock_fault; [done|]. rewrite Hargs, OpenDB_bridge.
    destruct (database.db_open flt); [done|].
    unfold database.PurgeExpiredMACs, database.GetReservedMAC,
      database.ReserveMAC.
    set (tbl0 := if (0 <? expirationDays)%Z then _ else tbl).
    assert (rows.consistent tbl0) as Hcons0.
    { unfold tbl0. destruct (0 <? expirationDays)%Z; [|done].
      by apply purge_consistent. }
    destruct (String.length name =? 0)%nat; [done|].
    destruct (database.db_take flt) as [e|]; [done|].
    destruct (database.Take None ns name tbl0) as [r0 [e|]] eqn:Hrow;
      [done|].
    destruct (database.db_save flt); [done|].
    by apply (Save_tombstone_mac ns name now tbl0 r0).
  - intros netConf. unfold bridge.getReservedMAC.
    destruct (0 <? String.length (bridge.mac netConf))%nat; [done|].
    rewrite Hargs, OpenDB_bridge.
    destruct (String.length name =? 0)%nat; [done|].
    destruct (database.db_open flt); [done|].
    unfold database.PurgeExpiredMACs, database.GetReservedMAC.
    set (tbl0 := if (0 <? bridge.ReservedMACDays netConf)%Z then _ else tbl).
    assert (rows.consistent tbl0) as Hcons0.
    { unfold tbl0. destruct (0 <? bridge.ReservedMACDays netConf)%Z; [|done].
      by apply purge_consistent. }
    destruct (database.Take (database.db_take flt) ns name tbl0) as [r e].
    destruct (_ && _); [done|]. destruct (String.eqb _ _); [done|].
    by destruct (ParseMAC _).
Qed.

Lemma reserved_macs_stay_consistent_witness :
  rows.consistent
    (bridge.releaseMAC None database.db_ok expiry.now "net"
       "K8S_POD_NAMESPACE=NS1;K8S_POD_NAME=pod1" 0
       (bridge.saveReservedMAC database.db_ok expiry.now "net"
          "K8S_POD_NAMESPACE=NS1;K8S_POD_NAME=pod1" "02:42:af:a3:d8:01" [])).
Proof.
  apply (reserved_macs_stay_consistent (L := fixture.lib) None
           database.db_ok).
  - discriminate.
  - apply (reserved_macs_stay_consistent (L := fixture.lib) None
             database.db_ok).
    + discriminate.
    + split; [constructor|]. split; constructor.
Defined.

Lemma getReservedMAC_table {L : GoLib} now netConf envArgs ns name err
    (tbl : list database.ReservedMAC) :
  bridge.mac netConf = "" →
  utils.ResolvePodNSAndNameFromEnvArgs envArgs = (ns, name, err) →
  name ≠ "" →
  (bridge.getReservedMAC database.db_ok now netConf envArgs tbl).2
  = if (0 <? bridge.ReservedMACDays netConf)%Z
    then (database.PurgeExpired None now (bridge.ReservedMACDays netConf)
            tbl).1
    else tbl.
Proof.
  intros Hmac Hargs Hname. unfold bridge.getReservedMAC.
  rewrite Hmac, Hargs, name_length, OpenDB_bridge by done.
  cbn [String.length Nat.ltb Nat.leb].
  unfold database.GetReservedMAC, database.PurgeExpiredMACs.
  cbn [database.db_ok database.db_open database.db_take database.db_purge].
  cbv zeta.
  destruct (database.Take None ns name _) as [r e].
  destruct (_ && _); [done|]. destruct (String.eqb _ _); [done|].
  by destruct (ParseMAC _).
Qed.

(** X13. A released pod gets its MAC back within the retention and not
    after it.  When the configuration carries no MAC, [getReservedMAC]
    sets the MAC that [saveReservedMAC] has saved for the pod (one that
    [net.ParseMAC] accepts), also after [releaseMAC] has tombstoned the
    record, and the table it leaves still holds the tombstoned record of
    the pod - unless the retention [ReservedMACDays] (at most 106751) is
    positive and the record was tombstoned more than that many days before:
    then the record is purged, the table that [getReservedMAC] leaves has
    no record of the pod, and the configuration stays as it is. *)
Theorem sticky_mac_window {L : GoLib} now0 now1 now2 releaseDays netConf
    network envArgs ns name uerr containerMAC hw
    (tbl : list database.ReservedMAC) :
  rows.consistent tbl →
  utils.ResolvePodNSAndNameFromEnvArgs envArgs = (ns, name, uerr) →
  name ≠ "" →
  bridge.mac netConf = "" →
  containerMAC ≠ "" →
  ParseMAC containerMAC = Some hw →
  (bridge.ReservedMACDays netConf ≤ 106751)%Z →
  let t1 := bridge.saveReservedMAC database.db_ok now0 network envArgs
              containerMAC tbl in
  let t2 := bridge.releaseMAC None database.db_ok now1 network envArgs
              releaseDays t1 in
  let found :=
    {| bridge.Name := bridge.Name netConf; bridge.mac := containerMAC;
       bridge.ReservedMACDays := bridge.ReservedMACDays netConf |} in
  let out := bridge.getReservedMAC database.db_ok now2 netConf envArgs t2 in
  (bridge.getReservedMAC database.db_ok now2 netConf envArgs t1).1 = found
  ∧ out.1
    = (if (0 <? bridge.ReservedMACDays netConf)%Z
          && (now1 <? now2 - bridge.ReservedMACDays netConf * expiry.day)%Z
       then netConf else found)
  ∧ (if (0 <? bridge.ReservedMACDays netConf)%Z
        && (now1 <? now2 - bridge.ReservedMACDays netConf * expiry.day)%Z
     then database.GetReservedMAC None ns name out.2
          = (database.zero, Some ErrRecordNotFound)
          ∧ (ns, name) ∉ rows.identity <$> out.2
     else ∃ r, database.GetReservedMAC None ns name out.2 = (r, None)
               ∧ database.MAC r = containerMAC
               ∧ database.Deleted (database.base r) = true
               ∧ database.UpdatedAt (database.base r) = now1).
Proof.
  intros Hcons Hargs Hname Hmac Hne Hparse Hdays t1 t2 found out.
  destruct (saveReservedMAC_ok now0 network envArgs ns name uerr containerMAC
              tbl Hargs Hname) as (r & Hbase & Hr & Hsave).
  fold t1 in Hsave.
  destruct (upsert_mac ns name false now0 r tbl Hcons Hbase)
    as (Hcons1 & (r1 & Htake1 & Hlive1 & _ & Hmac1) & _).
  rewrite <- Hsave in Hcons1, Htake1. rewrite Hr in Hmac1.
  assert (String.eqb containerMAC "" = false) as Hnonempty
    by (by apply String.eqb_neq).
  split.
  { rewrite (getReservedMAC_ok now2 netConf envArgs ns name uerr t1)
      by done. cbv zeta.
    assert (database.Take None ns name
              (if (0 <? bridge.ReservedMACDays netConf)%Z
               then (database.PurgeExpired None now2
                       (bridge.ReservedMACDays netConf) t1).1
               else t1) = (r1, None)) as ->.
    { destruct (0 <? _)%Z; [|done]. by apply purge_keeps_Take. }
    by rewrite Hmac1, Hnonempty, Hparse. }
  assert (rows.consistent t2
          ∧ ∃ r2, database.Take None ns name t2 = (r2, None)
                  ∧ database.Deleted (database.base r2) = true
                  ∧ database.UpdatedAt (database.base r2) = now1
                  ∧ database.MAC r2 = containerMAC)
    as (Hcons2 & r2 & Htake2 & Hdel2 & Hupd2 & Hmac2).
  { unfold t2.
    rewrite (releaseMAC_ok now1 network envArgs ns name uerr) by done.
    cbv zeta.
    set (tbl0 := if (0 <? releaseDays)%Z then _ else t1).
    assert (rows.consistent tbl0) as Hcons0.
    { unfold tbl0. destruct (0 <? releaseDays)%Z; [|done].
      by apply purge_consistent. }
    assert (database.Take None ns name tbl0 = (r1, None)) as Htake0.
    { unfold tbl0. destruct (0 <? releaseDays)%Z; [|done].
      by apply purge_keeps_Take. }
    rewrite Htake0.
    destruct (Save_tombstone_mac ns name now1 tbl0 r1 Hcons0 Htake0)
      as (Hc & (r2 & Ht & Hd & Hu & Hm) & _).
    split; [done|]. exists r2. by rewrite Hm. }
  unfold out.
  rewrite (getReservedMAC_ok now2 netConf envArgs ns name uerr t2) by done.
  rewrite (getReservedMAC_table now2 netConf envArgs ns name uerr t2)
    by done.
  cbv zeta. unfold database.GetReservedMAC.
  destruct (Z.ltb_spec 0 (bridge.ReservedMACDays netConf)) as [Hpos|Hnot];
    cbn [andb].
  - pose proof (purge_Take_tombstone now2 (bridge.ReservedMACDays netConf)
                  ns name t2 r2 Hcons2) as Hpurged.
    rewrite Hupd2 in Hpurged. rewrite Hpurged by (done || lia).
    destruct (now1 <? now2 - bridge.ReservedMACDays netConf * expiry.day)%Z.
    + split; [done|]. split; [done|].
      apply find_identity.
      assert (database.Take None ns name
                (database.PurgeExpired None now2
                   (bridge.ReservedMACDays netConf) t2).1
              = (database.zero, Some ErrRecordNotFound)) as Hgone
        by (apply Hpurged; (done || lia)).
      unfold database.Take in Hgone.
      by destruct (find (database.identified ns name) _).
    + split; [by rewrite Hmac2, Hnonempty, Hparse|].
      exists r2. by rewrite Hmac2.
  - split; [by rewrite Htake2, Hmac2, Hnonempty, Hparse|].
    exists r2. by rewrite Htake2, Hmac2.
Qed.

Lemma sticky_mac_window_witness :
  let args := "K8S_POD_NAMESPACE=NS1;K8S_POD_NAME=pod1" in
  let netConf := {| bridge.Name := "net"; bridge.mac := "";
                    bridge.ReservedMACDays := 2 |} in
  let t2 := bridge.releaseMAC None database.db_ok
              (expiry.now + expiry.day) "net" args 2
              (bridge.saveReservedMAC database.db_ok expiry.now "net" args
                 "02:42:af:a3:d8:01" []) in
  bridge.mac
    (bridge.getReservedMAC (L := fixture.lib) database.db_ok
       (expiry.now + 2 * expiry.day) netConf args t2).1
  = "02:42:af:a3:d8:01"
  ∧ bridge.mac
      (bridge.getReservedMAC (L := fixture.lib) database.db_ok
         (expiry.now + 4 * expiry.day) netConf args t2).1
    = ""
  ∧ (bridge.getReservedMAC (L := fixture.lib) database.db_ok
       (expiry.now + 4 * expiry.day) netConf args t2).2
    = [].
Proof.
  intros args netConf t2.
  destruct (sticky_mac_window (L := fixture.lib) expiry.now
              (expiry.now + expiry.day) (expiry.now + 2 * expiry.day) 2
              netConf "net" args "NS1" "pod1" None "02:42:af:a3:d8:01"
              fixture.mac_01 []) as (_ & Hin & _).
  { split; [constructor|]. split; constructor. }
  { vm_compute. reflexivity. }
  { discriminate. }
  { reflexivity. }
  { discriminate. }
  { reflexivity. }
  { cbn. lia. }
  destruct (sticky_mac_window (L := fixture.lib) expiry.now
              (expiry.now + expiry.day) (expiry.now + 4 * expiry.day) 2
              netConf "net" args "NS1" "pod1" None "02:42:af:a3:d8:01"
              fixture.mac_01 []) as (_ & Hout & _).
  { split; [constructor|]. split; constructor. }
  { vm_compute. reflexivity. }
  { discriminate. }
  { reflexivity. }
  { discriminate. }
  { reflexivity. }
  { cbn. lia. }
  split; [|split].
  - fold t2 in Hin. rewrite Hin. reflexivity.
  - fold t2 in Hout. rewrite Hout. reflexivity.
  - vm_compute. reflexivity.
Defined.

(* --------------------------------------------------------------------- *)
(** ** bridge: the tombstones of the file store *)
(* --------------------------------------------------------------------- *)

Section Walk.
Variable hit : string * string → bool.
Implicit Types (d acc : Dir) (l : list (string * string)).

Lemma walk_delete_fold l g : ∀ acc,
  foldl (λ a f, if hit f then delete f.1 a else a) acc l !! g
  = if existsb (λ f, String.eqb f.1 g && hit f) l then None else acc !! g.
Proof.
  induction l as [|f l IH]; intros acc; cbn [foldl existsb]; [done|].
  rewrite IH. destruct (existsb _ l); [by rewrite orb_true_r|].
  rewrite orb_false_r. destruct (String.eqb_spec f.1 g) as [<-|Hne].
  - cbn [andb]. destruct (hit f); [apply lookup_delete_eq|done].
  - cbn [andb]. destruct (hit f); [by apply lookup_delete_ne|done].
Qed.

(** What a walk that removes the files it picks leaves of each file. *)
Lemma walk_delete_lookup d g :
  foldl (λ a f, if hit f then delete f.1 a else a) d (os.Walk d) !! g
  = match d !! g with
    | Some data => if hit (g, data) then None else Some data
    | None => None
    end.
Proof.
  unfold os.Walk. rewrite walk_delete_fold.
  destruct (d !! g) as [data|] eqn:Hg.
  - destruct (hit (g, data)) eqn:Hhit.
    + assert (existsb (λ f, String.eqb f.1 g && hit f) (map_to_list d) = true)
        as ->; [|done].
      apply existsb_exists. exists (g, data). split.
      * apply list_elem_of_In. by apply elem_of_map_to_list.
      * cbn [fst]. by rewrite String.eqb_refl, Hhit.
    + assert (existsb (λ f, String.eqb f.1 g && hit f) (map_to_list d) = false)
        as ->; [|done].
      apply not_true_is_false. intros [[g' data'] [Hin Hf]]%existsb_exists.
      apply list_elem_of_In, elem_of_map_to_list in Hin.
      cbn [fst] in Hf. apply andb_true_iff in Hf as [Hg' Hh].
      apply String.eqb_eq in Hg' as ->.
      rewrite Hg in Hin. injection Hin as <-. congruence.
  - by destruct (existsb _ _).
Qed.
End Walk.

Lemma foldl_pointwise {A B} (f g : A → B → A) (l : list B) :
  (∀ a b, f a b = g a b) → ∀ a, foldl f a l = foldl g a l.
Proof.
  intros Hfg. induction l as [|b l IH]; intros a; [done|].
  cbn [foldl]. by rewrite Hfg, IH.
Qed.

(** Within 106751 days the retention of [RemoveExpiredRecords] fits a
    [Duration]. *)
Lemma removeTime_exact now days :
  (- 106751 ≤ days ≤ 106751)%Z →
  (now + database.int64 (database.int64 (- database.Hour * 24)
                         * database.int64 days))%Z
  = (now - days * expiry.day)%Z.
Proof.
  intros Hd. unfold expiry.day, database.Hour.
  rewrite (int64_small days) by lia.
  rewrite (int64_small (- (3600 * 1000000000) * 24)) by lia.
  rewrite int64_small by lia. lia.
Qed.

(** What [RemoveExpiredRecords] leaves of each file, for a retention that
    fits a [Duration]. *)
Lemma RemoveExpiredRecords_lookup
    (MatchString : string → string → bool * option error)
    (ModTime : string → Z) (stuck : string → bool) now pattern days
    (d : Dir) g :
  (- 106751 ≤ days ≤ 106751)%Z →
  (bridge.RemoveExpiredRecords MatchString ModTime stuck now pattern days
     d).1 !! g
  = match d !! g with
    | Some data =>
        if (MatchString pattern g).1
           && bool_decide ((MatchString pattern g).2 = None)
           && negb (now - days * expiry.day <? ModTime g)%Z
           && String.eqb (strings.TrimSpace data) bridge.deletionTag
           && negb (stuck g)
        then None else Some data
    | None => None
    end.
Proof.
  intros Hdays.
  set (hit := λ f : string * string,
         (MatchString pattern f.1).1
         && bool_decide ((MatchString pattern f.1).2 = None)
         && negb (now - days * expiry.day <? ModTime f.1)%Z
         && String.eqb (strings.TrimSpace f.2) bridge.deletionTag
         && negb (stuck f.1)).
  etransitivity; [|exact (walk_delete_lookup hit d g)].
  unfold bridge.RemoveExpiredRecords. cbn [fst].
  rewrite removeTime_exact by done. f_equal.
  apply foldl_pointwise. intros a f. unfold hit.
  destruct (MatchString pattern f.1) as [found [e|]]; cbn [fst snd].
  - rewrite bool_decide_eq_true_2, bool_decide_eq_false_2 by done.
    by rewrite orb_true_r, andb_false_r.
  - rewrite bool_decide_eq_false_2, bool_decide_eq_true_2
      by (done || intros Hne; by apply Hne).
    rewrite orb_false_r, andb_true_r.
    destruct found; cbn [negb andb]; [|done].
    destruct (_ <? _)%Z; cbn [negb andb]; [done|].
    destruct (String.eqb _ _); cbn [andb]; [|done].
    by destruct (stuck f.1).
Qed.

(** X14. [RemoveExpiredRecords] returns no error and never creates or
    changes a file.  For a retention of at most 106751 days (either sign)
    it removes a file exactly when the pattern matches its name without an
    error, it was last modified [days] days ago or earlier, its content is
    the deletion tag once trimmed, and its removal does not fail: a file
    that is not tombstoned stays, however old. *)
Theorem RemoveExpiredRecords_contract
    (MatchString : string → string → bool * option error)
    (ModTime : string → Z) (stuck : string → bool) now pattern days
    (d : Dir) :
  (- 106751 ≤ days ≤ 106751)%Z →
  let out := bridge.RemoveExpiredRecords MatchString ModTime stuck now
               pattern days d in
  out.2 = None
  ∧ (∀ g data, out.1 !! g = Some data → d !! g = Some data)
  ∧ (∀ g data,
       d !! g = Some data →
       (out.1 !! g = None
        ↔ MatchString pattern g = (true, None)
          ∧ (ModTime g ≤ now - days * expiry.day)%Z
          ∧ strings.TrimSpace data = bridge.deletionTag
          ∧ stuck g = false)).
Proof.
  intros Hdays out.
  split; [done|]. split.
  - intros g data. unfold out.
    rewrite RemoveExpiredRecords_lookup by done.
    destruct (d !! g) as [data'|]; [|done]. by destruct (_ && _).
  - intros g data Hg. unfold out.
    rewrite RemoveExpiredRecords_lookup, Hg by done.
    destruct (MatchString pattern g) as [found [e|]]; cbn [fst snd].
    + rewrite bool_decide_eq_false_2 by done. rewrite andb_false_r.
      cbn [andb]. split; [done|]. by intros [[=] _].
    + rewrite bool_decide_eq_true_2 by done. rewrite andb_true_r.
      destruct found; cbn [andb]; [|split; [done|by intros [[=] _]]].
      destruct (Z.ltb_spec (now - days * expiry.day) (ModTime g));
        cbn [negb andb]; [split; [done|]; intros (_ & ? & _); lia|].
      destruct (String.eqb_spec (strings.TrimSpace data) bridge.deletionTag);
        cbn [andb]; [|split; [done|]; by intros (_ & _ & ? & _)].
      destruct (stuck g); cbn [negb];
        [split; [done|]; by intros (_ & _ & _ & ?)|].
      done.
Qed.

Lemma RemoveExpiredRecords_contract_witness :
  let d : Dir := <["mac_02-42-af-a3-d8-01_NS1_pod1" := "deleted"]>
                   (<["mac_02-42-af-a3-d8-02_NS2_pod2" := ""]> ∅) in
  let out := bridge.RemoveExpiredRecords (λ _ _, (true, None))
               (λ _, expiry.now - 3 * expiry.day)%Z held.none_stuck
               expiry.now "mac_.*" 2 d in
  out.1 !! "mac_02-42-af-a3-d8-01_NS1_pod1" = None
  ∧ ∀ data, out.1 !! "mac_02-42-af-a3-d8-02_NS2_pod2" = Some data →
            data = "".
Proof.
  intros d out.
  destruct (RemoveExpiredRecords_contract (λ _ _, (true, None))
              (λ _, expiry.now - 3 * expiry.day)%Z held.none_stuck
              expiry.now "mac_.*" 2 d) as (_ & Hsub & Hremoved); [lia|].
  split.
  - apply (Hremoved _ "deleted"); [vm_compute; reflexivity|].
    split; [reflexivity|]. split; [|split; vm_compute; reflexivity].
    unfold expiry.day, database.Hour. lia.
  - intros data Hdata. apply Hsub in Hdata.
    vm_compute in Hdata. congruence.
Defined.

Section Tombstone.
Context {L : GoLib}.
Hypothesis Hglob : sticky.globs_by_star L.
Variables ns name addr : string.
Hypothesis Hns : sticky.plain ns.
Hypothesis Hname : sticky.plain name.
Hypothesis Haddr : sticky.plain addr.
Implicit Types (d : Dir).

Local Abbreviation pod_pattern := ("mac_*_" +:+ ns +:+ "_" +:+ name).
Local Abbreviation pod_file := ("mac_" +:+ addr +:+ "_" +:+ ns +:+ "_" +:+ name).

Lemma length_positive (s : string) :
  s ≠ "" → (0 <? String.length s)%nat = true.
Proof. by destruct s. Qed.

Lemma pod_file_facts :
  strings.Count pod_file "_" = 3
  ∧ pod_file ≠ ""
  ∧ disk.GetEscapedPath pod_file = pod_file.
Proof.
  assert (strings.Count pod_file "_" = 3) as Hparts
    by (apply mac_target_Count; [done..|by apply plain_Count_sep]).
  split; [done|]. split; [by apply (Count_nonempty _ "_")|].
  apply mac_target_escaped; [done..|]. by apply plain_escaped.
Qed.

(** Marking the pod of a mapping file as deleted. *)
Lemma reservePodInfo_tombstone flt d :
  (filepath.Glob d pod_pattern).1 = [pod_file] →
  disk.writefile_fault flt = None →
  bridge.reservePodInfo flt "" ns name d
  = (<[pod_file := bridge.deletionTag]> d, (true, None)).
Proof.
  intros Hone Hwrite. destruct pod_file_facts as (Hparts & Hne & Hesc).
  unfold bridge.reservePodInfo.
  rewrite (length_nonempty name) by by apply plain_nonempty.
  cbn [String.length Nat.eqb].
  rewrite (bridge_find_single Hglob ns name Hns Hname d _ Hone Hparts).
  rewrite length_positive, Hesc by done.
  unfold os.WriteFile. by rewrite Hwrite.
Qed.

Lemma hasReservedMAC_none d :
  (filepath.Glob d pod_pattern).1 = [] →
  bridge.hasReservedMAC ns name d = (None, None).
Proof.
  intros Hnone. unfold bridge.hasReservedMAC.
  rewrite (length_nonempty name) by by apply plain_nonempty.
  by rewrite (bridge_find_none Hglob ns name Hns Hname d Hnone).
Qed.

Lemma Glob_after_removal d d' :
  (filepath.Glob d pod_pattern).1 = [pod_file] →
  (∀ g, is_Some (d' !! g) → is_Some (d !! g)) →
  d' !! pod_file = None →
  (filepath.Glob d' pod_pattern).1 = [].
Proof.
  intros Hone Hsub Hgone.
  destruct (filepath.Glob d' pod_pattern).1 as [|g l] eqn:Hglob'; [done|].
  assert (g ∈ (filepath.Glob d' pod_pattern).1) as [Hg Hmatch]%elem_of_Glob
    by (rewrite Hglob'; left).
  assert (g ∈ (filepath.Glob d pod_pattern).1) as Hin.
  { apply elem_of_Glob. split; [by apply Hsub|done]. }
  rewrite Hone in Hin. apply list_elem_of_singleton in Hin as ->.
  rewrite Hgone in Hg. by destruct Hg.
Qed.
End Tombstone.

(** X15. In the file store of the bridge, releasing a pod does not release
    its MAC.  For a pod with one mapping file, [SaveContainerMac] with an
    empty MAC writes the deletion tag into that file and nothing else;
    [GetContainerMAC] returns after it what it returned before; and once
    [RemoveExpiredRecords] meets the file with a pattern that matches, a
    modification time [days] days back or more and a removal that works,
    [GetContainerMAC] returns no MAC. *)
Theorem bridge_release_keeps_MAC {L : GoLib} ns name addr flt (d : Dir) :
  sticky.globs_by_star L →
  sticky.plain ns → sticky.plain name → sticky.plain addr →
  (filepath.Glob d ("mac_*_" +:+ ns +:+ "_" +:+ name)).1
  = ["mac_" +:+ addr +:+ "_" +:+ ns +:+ "_" +:+ name] →
  disk.writefile_fault flt = None →
  let fName := "mac_" +:+ addr +:+ "_" +:+ ns +:+ "_" +:+ name in
  let d1 := <[fName := bridge.deletionTag]> d in
  bridge.SaveContainerMac flt "" ns name d = (d1, None)
  ∧ bridge.GetContainerMAC ns name d1 = bridge.GetContainerMAC ns name d
  ∧ bridge.hasReservedMAC ns name d1 = (ParseMAC addr, None)
  ∧ ∀ (MatchString : string → string → bool * option error)
      (ModTime : string → Z) now pattern days,
      (- 106751 ≤ days ≤ 106751)%Z →
      MatchString pattern fName = (true, None) →
      (ModTime fName ≤ now - days * expiry.day)%Z →
      bridge.GetContainerMAC ns name
        (bridge.RemoveExpiredRecords MatchString ModTime held.none_stuck
           now pattern days d1).1
      = ("", None).
Proof.
  intros Hglob Hns Hname Haddr Hone Hwrite fName d1.
  assert ((filepath.Glob d1 ("mac_*_" +:+ ns +:+ "_" +:+ name)).1 = [fName])
    as Hone1.
  { apply mac_Glob_after_write; [done..|by apply plain_Count_slash|].
    by right. }
  assert (bridge.hasReservedMAC ns name d1 = (ParseMAC addr, None)) as Hhas1
    by by apply hasReservedMAC_bound.
  split; [|split; [|split; [done|]]].
  - unfold bridge.SaveContainerMac.
    by rewrite (reservePodInfo_tombstone Hglob ns name addr Hns Hname Haddr
                  flt d Hone Hwrite).
  - unfold bridge.GetContainerMAC. rewrite Hhas1.
    by rewrite (hasReservedMAC_bound Hglob ns name Hns Hname d addr Haddr
                  Hone).
  - intros MatchString ModTime now pattern days Hdays Hmatch Hold.
    unfold fName in Hmatch, Hold.
    set (d2 := (bridge.RemoveExpiredRecords _ _ _ _ _ _ _).1).
    assert (∀ g, d2 !! g
                 = match d1 !! g with
                   | Some data =>
                       if (MatchString pattern g).1
                          && bool_decide ((MatchString pattern g).2 = None)
                          && negb (now - days * expiry.day <? ModTime g)%Z
                          && String.eqb (strings.TrimSpace data)
                               bridge.deletionTag
                          && negb (held.none_stuck g)
                       then None else Some data
                   | None => None
                   end) as Hd2.
    { intros g. unfold d2. by apply RemoveExpiredRecords_lookup. }
    assert ((filepath.Glob d2 ("mac_*_" +:+ ns +:+ "_" +:+ name)).1 = [])
      as Hnone.
    { apply (Glob_after_removal ns name addr d1 d2 Hone1).
      - intros g. rewrite Hd2. destruct (d1 !! g); [by eexists|].
        by intros [? ?].
      - rewrite Hd2. unfold d1. rewrite lookup_insert_eq.
        rewrite Hmatch. cbn [fst snd].
        rewrite bool_decide_eq_true_2 by done.
        assert ((now - days * expiry.day <? ModTime fName)%Z = false) as Hlt
          by (apply Z.ltb_ge; unfold fName; lia).
        unfold fName in Hlt. rewrite Hlt.
        reflexivity. }
    unfold bridge.GetContainerMAC.
    by rewrite (hasReservedMAC_none Hglob ns name Hns Hname d2 Hnone).
Qed.

Lemma fixture_plain s :
  s ≠ "" → sticky.avoids (":"%char :: sticky.meta) s →
  sticky.plain (L := fixture.lib) s.
Proof.
  intros Hne Hs. split; [done|]. split; [|done].
  by apply Forall_cons in Hs as [_ Hs].
Qed.

Lemma bridge_release_keeps_MAC_witness :
  let d1 : Dir :=
    <["mac_02-42-af-a3-d8-01_NS2_pod2" := "deleted"]> sticky.bound_mac in
  bridge.SaveContainerMac (L := fixture.lib) sticky.no_fault "" "NS2" "pod2"
    sticky.bound_mac
  = (d1, None)
  ∧ bridge.hasReservedMAC (L := fixture.lib) "NS2" "pod2" d1
    = (Some fixture.mac_01, None).
Proof.
  intros d1.
  destruct (bridge_release_keeps_MAC (L := fixture.lib) "NS2" "pod2"
              "02-42-af-a3-d8-01" sticky.no_fault sticky.bound_mac)
    as (Hsave & _ & Hhas & _).
  - exact fixture_globs_by_star.
  - apply fixture_plain; [discriminate|repeat constructor].
  - apply fixture_plain; [discriminate|repeat constructor].
  - apply fixture_plain; [discriminate|repeat constructor].
  - by vm_compute.
  - reflexivity.
  - split; [exact Hsave|exact Hhas].
Defined.

(** X16. Binding a MAC for a pod that has a mapping file, tombstoned or
    not, in the file store of the bridge.  With no failure of the file
    system [SaveContainerMac] returns no error and [hasReservedMAC] then
    returns the new MAC.  When the MAC is the one of the mapping file, the
    file is written again, empty: a deletion tag is cleared.  When it is
    another MAC, the file is renamed and keeps its content: a deletion tag
    stays on the mapping of a pod that is in use again. *)
Theorem bridge_rebind_keeps_content {L : GoLib} ns name addr flt mac data
    (d : Dir) :
  sticky.globs_by_star L →
  sticky.plain ns → sticky.plain name → sticky.plain addr →
  sticky.plain (strings.ReplaceAll mac ":" "-") →
  (filepath.Glob d ("mac_*_" +:+ ns +:+ "_" +:+ name)).1
  = ["mac_" +:+ addr +:+ "_" +:+ ns +:+ "_" +:+ name] →
  d !! ("mac_" +:+ addr +:+ "_" +:+ ns +:+ "_" +:+ name) = Some data →
  disk.writefile_fault flt = None →
  disk.rename_fault flt = None →
  let addr' := strings.ReplaceAll mac ":" "-" in
  let out := bridge.SaveContainerMac flt mac ns name d in
  out.2 = None
  ∧ out.1 !! ("mac_" +:+ addr' +:+ "_" +:+ ns +:+ "_" +:+ name)
    = Some (if String.eqb addr' addr then "" else data)
  ∧ (addr' ≠ addr →
     out.1 !! ("mac_" +:+ addr +:+ "_" +:+ ns +:+ "_" +:+ name) = None)
  ∧ bridge.hasReservedMAC ns name out.1 = (ParseMAC addr', None).
Proof.
  intros Hglob Hns Hname Haddr Hmac Hone Hdata Hwrite Hrename addr' out.
  destruct (bridge_target ns name Hns mac Hmac) as [Htarget Hlen].
  fold addr' in Htarget, Hmac.
  destruct (pod_file_facts ns name addr Hns Hname Haddr)
    as (Hparts & Hne & Hesc).
  destruct (pod_file_facts ns name addr' Hns Hname Hmac)
    as (_ & _ & Hesc').
  assert ("mac_" +:+ addr' +:+ "_" +:+ ns +:+ "_" +:+ name
          = "mac_" +:+ addr +:+ "_" +:+ ns +:+ "_" +:+ name
          ↔ addr' = addr) as Hsame.
  { split; [|by intros ->]. intros Heq.
    pose proof (mac_target_Split ns name Hns Hname addr'
                  (plain_Count_sep addr' Hmac)) as Hs'.
    pose proof (mac_target_Split ns name Hns Hname addr
                  (plain_Count_sep addr Haddr)) as Hs.
    rewrite Heq, Hs in Hs'. by injection Hs'. }
  assert (out
          = if String.eqb addr' addr
            then (<["mac_" +:+ addr' +:+ "_" +:+ ns +:+ "_" +:+ name := ""]> d,
                  None)
            else (<["mac_" +:+ addr' +:+ "_" +:+ ns +:+ "_" +:+ name := data]>
                    (delete ("mac_" +:+ addr +:+ "_" +:+ ns +:+ "_" +:+ name)
                       d),
                  None)) as Hout.
  { unfold out, bridge.SaveContainerMac, bridge.reservePodInfo.
    rewrite (length_nonempty name) by by apply plain_nonempty.
    rewrite Hlen, Htarget, Hesc'.
    rewrite (bridge_find_single Hglob ns name Hns Hname d _ Hone Hparts).
    rewrite (length_nonempty _ Hne). cbn [negb andb]. rewrite Hesc.
    destruct (String.eqb_spec addr' addr) as [Heq|Hdiff].
    - rewrite (proj2 Hsame Heq), String.eqb_refl. cbn [negb].
      unfold os.WriteFile. rewrite Hwrite. by rewrite ?Heq.
    - assert (String.eqb ("mac_" +:+ addr' +:+ "_" +:+ ns +:+ "_" +:+ name)
                ("mac_" +:+ addr +:+ "_" +:+ ns +:+ "_" +:+ name) = false)
        as -> by (apply String.eqb_neq; by rewrite Hsame).
      cbn [negb]. unfold os.Rename. by rewrite Hrename, Hdata. }
  assert (strings.Count addr' "/" = 0) as Hslash
    by by apply plain_Count_slash.
  rewrite Hout. destruct (String.eqb_spec addr' addr) as [Heq|Hdiff];
    cbn [fst snd].
  - split; [done|]. split; [by rewrite lookup_insert_eq|].
    split; [done|].
    apply hasReservedMAC_bound; [done..|].
    apply mac_Glob_after_write; [done..|]. right. by rewrite Heq.
  - split; [done|]. split; [by rewrite lookup_insert_eq|]. split.
    + intros _. rewrite lookup_insert_ne by (by rewrite Hsame).
      apply lookup_delete_eq.
    + apply hasReservedMAC_bound; [done..|].
      by apply mac_Glob_after_rename.
Qed.

Lemma bridge_rebind_keeps_content_witness :
  let d1 : Dir :=
    <["mac_02-42-af-a3-d8-01_NS2_pod2" := "deleted"]> sticky.bound_mac in
  (bridge.SaveContainerMac (L := fixture.lib) sticky.no_fault
     "02:42:af:a3:d8:02" "NS2" "pod2" d1).1
    !! "mac_02-42-af-a3-d8-02_NS2_pod2"
  = Some "deleted"
  ∧ (bridge.SaveContainerMac (L := fixture.lib) sticky.no_fault
       "02:42:af:a3:d8:01" "NS2" "pod2" d1).1
      !! "mac_02-42-af-a3-d8-01_NS2_pod2"
    = Some "".
Proof.
  intros d1. split.
  - apply (bridge_rebind_keeps_content (L := fixture.lib) "NS2" "pod2"
             "02-42-af-a3-d8-01" sticky.no_fault "02:42:af:a3:d8:02"
             "deleted" d1).
    + exact fixture_globs_by_star.
    + apply fixture_plain; [discriminate|repeat constructor].
    + apply fixture_plain; [discriminate|repeat constructor].
    + apply fixture_plain; [discriminate|repeat constructor].
    + apply fixture_plain; [discriminate|vm_compute; repeat constructor].
    + by vm_compute.
    + by vm_compute.
    + reflexivity.
    + reflexivity.
  - apply (bridge_rebind_keeps_content (L := fixture.lib) "NS2" "pod2"
             "02-42-af-a3-d8-01" sticky.no_fault "02:42:af:a3:d8:01"
             "deleted" d1).
    + exact fixture_globs_by_star.
    + apply fixture_plain; [discriminate|repeat constructor].
    + apply fixture_plain; [discriminate|repeat constructor].
    + apply fixture_plain; [discriminate|repeat constructor].
    + apply fixture_plain; [discriminate|vm_compute; repeat constructor].
    + by vm_compute.
    + by vm_compute.
    + reflexivity.
    + reflexivity.
Defined.

(* --------------------------------------------------------------------- *)
(** ** host-local: the reservation file of a pod that comes back *)
(* --------------------------------------------------------------------- *)

(** X17. [ReservePodInfo] for a pod whose address is known writes the
    reservation file of the address for the container that asks, whether
    the file exists or not and whoever holds it: with no failure of the
    write it succeeds and changes no other file; [FindByID] then finds the
    container (for an id that is not blank and an interface name that does
    not end in white space) and [GetByID] lists the address that the file
    name parses to; and a [Reserve] of the address, by anyone, finds it
    taken. *)
Theorem ReservePodInfo_updates_owner {L : GoLib} flt id ifname (ip : IP)
    ns name (d : Dir) :
  disk.writefile_fault flt = None →
  strings.TrimSpace id ≠ "" →
  owner.no_trailing_space ifname →
  let fname := disk.GetEscapedPath (IP_String ip) in
  let out := disk.ReservePodInfo flt id ifname ip ns name true d in
  out.2 = (true, None)
  ∧ (∀ g, g ≠ fname → out.1 !! g = d !! g)
  ∧ disk.FindByID id ifname out.1 = true
  ∧ (∀ ip' : IP, ParseIP fname = Some ip' →
                 ip' ∈ disk.GetByID id ifname out.1)
  ∧ (∀ flt' id' ifname' rangeID,
       disk.Reserve flt' id' ifname' ip rangeID out.1
       = (out.1, (false, None))).
Proof.
  intros Hwrite Hid Htrail fname out.
  assert (out = (<[fname := strings.TrimSpace id +:+ disk.LineBreak
                             +:+ ifname]> d, (true, None))) as ->.
  { unfold out, disk.ReservePodInfo, os.WriteFile. by rewrite Hwrite. }
  cbn [fst snd].
  assert (strings.TrimSpace
            (strings.TrimSpace id +:+ disk.LineBreak +:+ ifname)
          = strings.TrimSpace id +:+ disk.LineBreak +:+ ifname
          ∨ strings.TrimSpace
              (strings.TrimSpace id +:+ disk.LineBreak +:+ ifname)
            = strings.TrimSpace id) as Hheld.
  { destruct (decide (ifname = "")) as [->|Hif].
    - right. by apply TrimSpace_written_legacy.
    - left. by apply TrimSpace_written. }
  split; [done|]. split; [|split; [|split]].
  - intros g Hg. by rewrite lookup_insert_ne.
  - apply FindByID_iff.
    destruct Hheld as [Hcur|Hleg]; [left|right];
      eexists fname, _; (split; [apply lookup_insert_eq|done]).
  - intros ip' Hparse. apply GetByID_elem.
    eexists fname, _. split; [apply lookup_insert_eq|]. by split.
  - intros flt' id' ifname' rangeID. apply Reserve_taken.
    fold fname. rewrite lookup_insert_eq. by eexists.
Qed.

Lemma ReservePodInfo_updates_owner_witness :
  let out := disk.ReservePodInfo (L := fixture.lib) sticky.no_fault
               "c1" "eth0" fixture.ip_10_2 "NS2" "pod2" true
               scenario.taken in
  disk.FindByID "c1" "eth0" out.1 = true
  ∧ disk.FindByID "other" "eth0" out.1 = false.
Proof.
  intros out. split.
  - apply (ReservePodInfo_updates_owner (L := fixture.lib) sticky.no_fault
             "c1" "eth0" fixture.ip_10_2 "NS2" "pod2" scenario.taken).
    + reflexivity.
    + vm_compute. discriminate.
    + vm_compute. reflexivity.
  - vm_compute. reflexivity.
Defined.

(* --------------------------------------------------------------------- *)
(** ** The names of the mapping files *)
(* --------------------------------------------------------------------- *)

Lemma resolve_parts (l : list string) :
  length l ≠ 4 →
  match l with
  | [_; a; b; c] => (a, b, c)
  | _ => ("", "", "")
  end = ("", "", "").
Proof.
  intros Hlen.
  destruct l as [|x0 [|x1 [|x2 [|x3 [|x4 l]]]]]; try done.
Qed.

Lemma name_parts tag a b c :
  strings.Count tag "_" = 0 →
  strings.Count a "_" + strings.Count b "_" + strings.Count c "_" = 0 →
  strings.Split (tag +:+ "_" +:+ a +:+ "_" +:+ b +:+ "_" +:+ c) "_"
  = [tag; a; b; c].
Proof.
  intros Htag Hz.
  change (tag +:+ "_" +:+ a +:+ "_" +:+ b +:+ "_" +:+ c)
    with (tag +:+ String "_" (a +:+ String "_" (b +:+ String "_" c))).
  rewrite !Split_app_sep, Split_without by lia. done.
Qed.

Lemma name_parts_more tag a b c :
  strings.Count tag "_" = 0 →
  strings.Count a "_" + strings.Count b "_" + strings.Count c "_" ≠ 0 →
  length (strings.Split (tag +:+ "_" +:+ a +:+ "_" +:+ b +:+ "_" +:+ c) "_")
  ≠ 4.
Proof.
  intros Htag Hnz. rewrite Split_length, !Count_app, Htag.
  change (strings.Count "_" "_") with 1. lia.
Qed.

(** X18. The name of a mapping file gives back the parts it was made of
    exactly when none of them holds the separator.  For an address (or a
    MAC) and a namespace that are not empty, [resolvePodFileName] of
    [podFileName] returns the address (the MAC with its colons replaced by
    hyphens), the namespace and the name when there is no ['_'] in them,
    and three empty strings when there is one. *)
Theorem podFileName_round_trip addr mac ns name :
  ns ≠ "" →
  (addr ≠ "" →
   disk.resolvePodFileName (disk.podFileName addr ns name)
   = if (strings.Count addr "_" + strings.Count ns "_"
         + strings.Count name "_" =? 0)%nat
     then (addr, ns, name) else ("", "", ""))
  ∧ (mac ≠ "" →
     bridge.resolvePodFileName (bridge.podFileName mac ns name)
     = if (strings.Count (strings.ReplaceAll mac ":" "-") "_"
           + strings.Count ns "_" + strings.Count name "_" =? 0)%nat
       then (strings.ReplaceAll mac ":" "-", ns, name) else ("", "", "")).
Proof.
  intros Hns. split.
  - intros Haddr. unfold disk.podFileName, disk.resolvePodFileName.
    rewrite !length_nonempty by done. cbn [negb andb].
    destruct (Nat.eqb_spec
                (strings.Count addr "_" + strings.Count ns "_"
                 + strings.Count name "_") 0) as [Hz|Hnz].
    + pose proof (name_parts "ip" addr ns name eq_refl Hz) as Hsplit.
      change (strings.Split
                ("ip_" +:+ addr +:+ "_" +:+ ns +:+ "_" +:+ name) "_"
              = ["ip"; addr; ns; name]) in Hsplit.
      by rewrite Hsplit.
    + apply resolve_parts.
      exact (name_parts_more "ip" addr ns name eq_refl Hnz).
  - intros Hmac. unfold bridge.podFileName, bridge.resolvePodFileName.
    rewrite !length_nonempty by done. cbn [negb andb]. cbv zeta.
    destruct (Nat.eqb_spec
                (strings.Count (strings.ReplaceAll mac ":" "-") "_"
                 + strings.Count ns "_" + strings.Count name "_") 0)
      as [Hz|Hnz].
    + pose proof (name_parts "mac" (strings.ReplaceAll mac ":" "-") ns name
                    eq_refl Hz) as Hsplit.
      change (strings.Split
                ("mac_" +:+ strings.ReplaceAll mac ":" "-" +:+ "_" +:+ ns
                 +:+ "_" +:+ name) "_"
              = ["mac"; strings.ReplaceAll mac ":" "-"; ns; name]) in Hsplit.
      by rewrite Hsplit.
    + apply resolve_parts.
      exact (name_parts_more "mac" (strings.ReplaceAll mac ":" "-") ns name
               eq_refl Hnz).
Qed.

Lemma podFileName_round_trip_witness :
  disk.resolvePodFileName (disk.podFileName "10.10.10.2" "NS2" "pod2")
  = ("10.10.10.2", "NS2", "pod2")
  ∧ bridge.resolvePodFileName
      (bridge.podFileName "02:42:af:a3:d8:02" "kube_system" "pod2")
    = ("", "", "").
Proof.
  split.
  - apply (podFileName_round_trip "10.10.10.2" "02:42:af:a3:d8:02"
             "NS2" "pod2"); discriminate.
  - apply (podFileName_round_trip "10.10.10.2" "02:42:af:a3:d8:02"
             "kube_system" "pod2"); discriminate.
Defined.

(* --------------------------------------------------------------------- *)
(** ** The log of the plugins *)
(* --------------------------------------------------------------------- *)

Section LogGuard.
Variable Join : string → string → string.
Implicit Types (s : log.State) (cs : list (log.Call)).

(** While there is no logger the level is zero, below every level at which
    a message is logged. *)
Local Abbreviation guarded s :=
  (log.logger s = None → log.logLevel s = log.PanicLevel).

Lemma guarded_call c s s' :
  guarded s → log.call Join c s = Some s' → guarded s'.
Proof.
  intros Hs. destruct c; cbn [log.call].
  - intros [= <-]. unfold log.Init.
    destruct mkdir_fault; [done|]. by destruct open_fault.
  - by intros [= <-].
  - unfold log.Debugf, log.logf. destruct (_ <? _); [by intros [= <-]|].
    destruct (log.logger s); [|done]. by intros [= <-].
  - unfold log.Infof, log.logf. destruct (_ <? _); [by intros [= <-]|].
    destruct (log.logger s); [|done]. by intros [= <-].
  - unfold log.Warningf, log.logf. destruct (_ <? _); [by intros [= <-]|].
    destruct (log.logger s); [|done]. by intros [= <-].
  - unfold log.Errorf, log.logf. destruct (_ <? _); [by intros [= <-]|].
    destruct (log.logger s); [|done]. by intros [= <-].
Qed.

Lemma guarded_logf level caller format a s :
  guarded s → level ≠ log.PanicLevel →
  is_Some (log.logf level caller format a s).
Proof.
  intros Hs Hlevel. unfold log.logf.
  destruct (log.logger s) as [l|] eqn:Hl.
  - destruct (_ <? _); by eexists.
  - rewrite (Hs eq_refl). by destruct level; [done|eexists..].
Qed.

Lemma guarded_run cs : ∀ s, guarded s → is_Some (log.run Join cs s).
Proof.
  induction cs as [|c cs IH]; intros s Hs; [by eexists|].
  cbn [log.run].
  assert (is_Some (log.call Join c s)) as [s' Hcall].
  { destruct c; cbn [log.call]; try (by eexists);
      by apply guarded_logf. }
  rewrite Hcall. apply IH. by apply (guarded_call c s).
Qed.
End LogGuard.

(** X19. No call of the log package panics on the [nil] logger.  Whatever
    calls of [Init], [Close], [Debugf], [Infof], [Warningf] and [Errorf] a
    program makes from the start, in whatever order and with whatever
    failures of [Init], every call returns: while no [Init] has succeeded
    the level is zero and each logging function returns before it touches
    the logger; and then nothing is logged. *)
Theorem log_never_panics (Join : string → string → string)
    (cs : list log.Call) :
  is_Some (log.run Join cs log.start)
  ∧ (Forall (λ c, match c with
                  | log.CallInit mkdir_fault open_fault _ _ _ =>
                      is_Some mkdir_fault ∨ is_Some open_fault
                  | _ => True
                  end) cs →
     ∃ s, log.run Join cs log.start = Some s ∧ log.entries s = []).
Proof.
  split; [by apply guarded_run|].
  assert (∀ s, log.logger s = None → log.logLevel s = log.PanicLevel →
               Forall (λ c, match c with
                            | log.CallInit mkdir_fault open_fault _ _ _ =>
                                is_Some mkdir_fault ∨ is_Some open_fault
                            | _ => True
                            end) cs →
               ∃ s', log.run Join cs s = Some s' ∧ log.entries s' = [])
    as Hrun.
  { induction cs as [|c cs IH]; intros s Hl Hv Hcs.
    - exists s. split; [done|]. unfold log.entries. by rewrite Hl.
    - apply Forall_cons in Hcs as [Hc Hcs]. cbn [log.run].
      destruct c; cbn [log.call].
      + apply IH; [| |done]; unfold log.Init;
          destruct mkdir_fault as [e|]; try done;
          destruct open_fault as [e|]; try done;
          destruct Hc as [[? [=]]|[? [=]]].
      + by apply IH.
      + unfold log.Debugf, log.logf. rewrite Hv. cbn. by apply IH.
      + unfold log.Infof, log.logf. rewrite Hv. cbn. by apply IH.
      + unfold log.Warningf, log.logf. rewrite Hv. cbn. by apply IH.
      + unfold log.Errorf, log.logf. rewrite Hv. cbn. by apply IH. }
  by apply Hrun.
Qed.

Lemma log_never_panics_witness :
  log.run (λ a b, a +:+ "/" +:+ b)
    [log.CallInit (Some (ErrIO 13)) None "/var/log/cni" "bridge.log"
       log.ErrorLevel;
     log.CallErrorf None "failed to open database: %s" ["disk full"];
     log.CallClose None]
    log.start
  = Some log.start.
Proof.
  destruct (log_never_panics (λ a b, a +:+ "/" +:+ b)
              [log.CallInit (Some (ErrIO 13)) None "/var/log/cni"
                 "bridge.log" log.ErrorLevel;
               log.CallErrorf None "failed to open database: %s"
                 ["disk full"];
               log.CallClose None]) as [_ Hquiet].
  destruct Hquiet as (s & Hrun & _).
  - apply Forall_cons. split; [left; by eexists|]. repeat constructor.
  - rewrite Hrun. vm_compute in Hrun. injection Hrun as <-. reflexivity.
Defined.

(** X20. After an [Init] that succeeds the logger takes a message exactly
    when its level is at most the level given to [Init]: with
    [logrus.ErrorLevel], as the plugins call it, [Errorf] logs its message,
    with the caller that [runtime.Caller] reports, and [Warningf], [Infof]
    and [Debugf] log nothing. *)
Theorem log_level_gate (Join : string → string → string)
    logFilePath logFileName level s0 lvl caller format a :
  lvl ≠ log.PanicLevel →
  let s := (log.Init Join None None logFilePath logFileName level s0).1 in
  log.entries s = []
  ∧ ∃ s', log.logf lvl caller format a s = Some s'
          ∧ log.logLevel s' = level
          ∧ log.entries s'
            = if (log.Level_value lvl <=? log.Level_value level)%nat
              then [{| log.entry_level := lvl; log.entry_caller := caller;
                       log.entry_format := format; log.entry_args := a |}]
              else [].
Proof.
  intros Hlvl s. split; [done|].
  unfold s, log.logf, log.Init, log.Log, log.entries.
  cbn [fst log.logLevel log.logger log.logger_level log.logger_entries
       log.logFile log.logger_out].
  destruct (Nat.ltb_spec (log.Level_value level) (log.Level_value lvl))
    as [Hlt|Hge].
  - eexists. split; [done|]. split; [done|].
    cbn [log.logger log.logger_entries].
    by rewrite (proj2 (Nat.leb_gt _ _) Hlt).
  - eexists. split; [done|]. split; [done|].
    cbn [log.logger]. rewrite (proj2 (Nat.leb_le _ _) Hge).
    reflexivity.
Qed.

Lemma log_level_gate_witness :
  let s := (log.Init (λ a b, a +:+ "/" +:+ b) None None "/var/log/cni"
              "bridge.log" log.ErrorLevel log.start).1 in
  (∃ s', log.Errorf (Some ("store.go", 255)) "failed to open database: %s"
           ["disk full"] s = Some s'
         ∧ length (log.entries s') = 1)
  ∧ (∃ s', log.Warningf None "retry" [] s = Some s'
           ∧ log.entries s' = []).
Proof.
  intros s. split.
  - destruct (log_level_gate (λ a b, a +:+ "/" +:+ b) "/var/log/cni"
                "bridge.log" log.ErrorLevel log.start log.ErrorLevel
                (Some ("store.go", 255)) "failed to open database: %s"
                ["disk full"]) as (_ & s' & Hs' & _ & Hentries);
      [discriminate|].
    exists s'. split; [exact Hs'|]. by rewrite Hentries.
  - destruct (log_level_gate (λ a b, a +:+ "/" +:+ b) "/var/log/cni"
                "bridge.log" log.ErrorLevel log.start log.WarnLevel
                None "retry" []) as (_ & s' & Hs' & _ & Hentries);
      [discriminate|].
    exists s'. split; [exact Hs'|]. by rewrite Hentries.
Defined.
